(** * magpylib: the field-evaluation and broadcasting engine

    A shallow embedding of [getBH_level2] and its helpers [scr_dict_homo_mag]
    and [scr_dict_dipole] (magpylib/_lib/fields/field_wrap_BH_level2.py), of
    [Collection.getB], [Collection.getH] and [Collection.remove]
    (magpylib3/_lib/obj_classes/class_Collection.py), of the [getB]
    methods of the magnet classes (_lib/classes/magnets.py) and of the
    display functions [RegisterBackend.show], [_show], [show] and
    [show_context] (magpylib/_src/display/display.py).

    Floating-point vectors, scipy rotations and the closed-form field
    formulas are kept abstract in the class [Numerics]; numpy arrays are
    lists in row-major order; the Python objects whose paths the engine
    tiles in place live in a store indexed by object identity.  The
    helpers the display functions import are kept abstract in the class
    [DisplayEnv]; the display context and the registry of backends are
    the state of a small monad. *)

From Stdlib Require Import ZArith List Lia Bool Sorted.
From stdpp Require Import base list strings gmap.
Import ListNotations.

(** ** Numerics *)

(** The four source classes [getBH_level2] tests with [isinstance]; they are
    also the [src_type] strings passed to [getBH_level1]. *)
Inductive SrcType := Box | Cylinder | Sphere | Dipole.

Definition SrcType_eqb (a b : SrcType) : bool :=
  match a, b with
  | Box, Box | Cylinder, Cylinder | Sphere, Sphere | Dipole, Dipole => true
  | _, _ => false
  end.

(** [vec] is a 3-vector of floats (a position or a field value), [quat] a
    scipy rotation given by its quaternion, [geom] the [dim] attribute of a
    magnet.  [field_formula bh ty exc dim p] is the closed-form field of a
    source of family [ty] at the position [p] of its local frame. *)
Class Numerics := {
  vec : Type;
  quat : Type;
  geom : Type;
  vzero : vec;
  vadd : vec -> vec -> vec;
  vsub : vec -> vec -> vec;
  unitQ : quat;
  quat_eqb : quat -> quat -> bool;
  rot_inv : quat -> quat;
  rot_apply : quat -> vec -> vec;
  field_formula : bool -> SrcType -> vec -> option geom -> vec -> vec
}.

(** The properties of exact vector arithmetic and of rotations that single
    theorems rely on. *)
Class QuatEq (N : Numerics) : Prop :=
  quat_eqb_eq : forall a b : quat, quat_eqb a b = true <-> a = b.

Class UnitRotation (N : Numerics) : Prop :=
  rot_apply_unit : forall v : vec, rot_apply (rot_inv unitQ) v = v.

Class AddZero (N : Numerics) : Prop :=
  vadd_zero_r : forall v : vec, vadd v vzero = v.

Class LinearRotation (N : Numerics) : Prop := {
  rot_apply_add : forall (r : quat) (u v : vec),
    rot_apply r (vadd u v) = vadd (rot_apply r u) (rot_apply r v);
  rot_apply_zero : forall r : quat, rot_apply r vzero = vzero
}.

(** ** Objects and the store *)

(** A numpy array of positions: [pa_dims] is its shape without the trailing
    axis of length 3, [pa_data] its rows ([reshape(-1,3)]). *)
Record PosArray {N : Numerics} := mkPosArray {
  pa_dims : list nat;
  pa_data : list vec
}.

(** The class of an object with the attributes that class has. *)
Inductive Attrs {N : Numerics} :=
| BoxA (mag : vec) (dim : geom)
| CylinderA (mag : vec) (dim : geom)
| SphereA (mag : vec) (dim : geom)
| DipoleA (moment : vec)
| SensorA (pos_pix : PosArray)
| OtherA.

(** An object with its path: [_pos] and [_rot] are the position and
    orientation at each path step. *)
Record Obj {N : Numerics} := mkObj {
  attrs : Attrs;
  _pos : list vec;
  _rot : list quat
}.

Arguments mkPosArray {N} pa_dims pa_data.
Arguments mkObj {N} attrs _pos _rot.
Arguments OtherA {N}.

(** Object identity is an index into the store. *)
Abbreviation ref := nat.

(** The store: the objects of the caller and the sensors made in a call. *)
Abbreviation Store := (list Obj).

Section Model.
Context {N : Numerics}.

Definition no_obj : Obj := mkObj OtherA [] [].

Definition deref (st : Store) (r : ref) : Obj := default no_obj (st !! r).

Definition src_type_of (o : Obj) : option SrcType :=
  match attrs o with
  | BoxA _ _ => Some Box
  | CylinderA _ _ => Some Cylinder
  | SphereA _ _ => Some Sphere
  | DipoleA _ => Some Dipole
  | _ => None
  end.

Definition pos_pix_of (o : Obj) : PosArray :=
  match attrs o with SensorA p => p | _ => mkPosArray [] [] end.

(** [src.mag] (or [src.moment]) and [src.dim]. *)
Definition excitation (o : Obj) : vec :=
  match attrs o with
  | BoxA m _ | CylinderA m _ | SphereA m _ | DipoleA m => m
  | _ => vzero
  end.

Definition dim_of (o : Obj) : option geom :=
  match attrs o with
  | BoxA _ d | CylinderA _ d | SphereA _ d => Some d
  | _ => None
  end.

(** [pos_pix.shape]: the leading axes and the trailing 3. *)
Definition pa_shape (p : PosArray) : list nat := pa_dims p ++ [3].

(** A top-level entry of the [sources] argument: a source, or a Collection
    with its (flat, duplicate-free) [sources] list. *)
Inductive TopSrc :=
| Elem (r : ref)
| Coll (sources : list ref).

Inductive SourcesArg :=
| OneSource (s : TopSrc)
| SourceList (l : list TopSrc).

Inductive ObsItem :=
| ItemSensor (r : ref)
| ItemBare (a : PosArray).

Inductive ObserversArg :=
| ObsSensor (r : ref)
| ObsArray (a : PosArray)
| ObsList (l : list ObsItem).

(** ** Exceptions, state and the evaluation monad *)

Inductive BadInput :=
| DifferentObserverShapes
| BadPathLength
| UnrecognizedObject.

Inductive Exn :=
| MagpylibBadUserInput (why : BadInput)
| ValueError
| IndexError.

Inductive Outcome (A : Type) :=
| Return (a : A)
| Raise (e : Exn).
Arguments Return {A} a.
Arguments Raise {A} e.

(** The state a call can change: the objects, and the calls of
    [getBH_level1] made so far. *)
Record State := mkState {
  store : Store;
  level1_calls : list SrcType
}.

Definition M (A : Type) : Type := State -> Outcome A * State.

Definition ret {A} (a : A) : M A := fun s => (Return a, s).
Definition raise {A} (e : Exn) : M A := fun s => (Raise e, s).
Definition bind {A B} (c : M A) (f : A -> M B) : M B :=
  fun s => match c s with
           | (Return a, s') => f a s'
           | (Raise e, s') => (Raise e, s')
           end.
Definition get_store : M Store := fun s => (Return (store s), s).
Definition set_obj (r : ref) (o : Obj) : M unit :=
  fun s => (Return tt, mkState (<[r := o]> (store s)) (level1_calls s)).
Definition alloc (o : Obj) : M ref :=
  fun s => (Return (length (store s)), mkState (store s ++ [o]) (level1_calls s)).
Definition log_level1 (ty : SrcType) : M unit :=
  fun s => (Return tt, mkState (store s) (level1_calls s ++ [ty])).

(** Lifting a computation that can only raise. *)
Definition lift {A} (o : Outcome A) : M A := fun s => (o, s).

End Model.

Arguments Return {A} a.
Arguments Raise {A} e.

Notation "'let!' x ':=' c 'in' k" := (bind c (fun x => k))
  (at level 10, x name, c at level 100, k at level 200).
Notation "'do!' c 'in' k" := (bind c (fun _ => k))
  (at level 10, c at level 100, k at level 200).

(** ** Array helpers *)

Section Arrays.
Context {A : Type}.

(** [np.tile(a, (m,1))]: the rows of [a], [m] times. *)
Definition np_tile_rows (m : nat) (a : list A) : list A :=
  concat (replicate m a).

(** [np.tile(a, n).reshape(-1, w)] for rows of width [w]: every row of [a]
    [n] times in a row. *)
Definition np_tile_each (n : nat) (a : list A) : list A :=
  flat_map (replicate n) a.

(** [k] consecutive chunks of length [n]: the leading axis of
    [reshape((k, n, ...))]. *)
Fixpoint chunks (k n : nat) (l : list A) : list (list A) :=
  match k with
  | O => []
  | S k' => take n l :: chunks k' n (drop n l)
  end.

(** [np.concatenate(xs, axis=1)] of arrays with a common leading axis. *)
Fixpoint concat_axis1 (xs : list (list (list A))) : list (list A) :=
  match xs with
  | [] => []
  | x :: r => match r with
              | [] => x
              | _ => zip_with app x (concat_axis1 r)
              end
  end.

(** Apply [f] to the entries [a .. a+w-1] of a row: an update of the slice
    [row[a:a+w]]. *)
Definition slice_map (f : A -> A) (a w : nat) (row : list A) : list A :=
  take a row ++ map f (take w (drop a row)) ++ drop (a + w) row.

End Arrays.

(** Modelled from the spec: utility [all_same] (magpylib/_lib/utility.py is
    absent); all entries equal the first. *)
Definition all_same (l : list (list nat)) : bool :=
  match l with
  | [] => true
  | x :: r => forallb (fun y => bool_decide (y = x)) r
  end.

Definition prod_list (l : list nat) : nat := fold_right Nat.mul 1 l.

(** ** The evaluation engine: [getBH_level2] *)

(** The field of one source: shape (m, n, 3); of all sources: (l, m, n, 3). *)
Abbreviation Slice := (list (list vec)).
Abbreviation Tensor := (list (list (list vec))).

Section Level2.
Context {N : Numerics}.

(** A returned numpy array: its shape (with the trailing 3) and its rows. *)
Record ndarray := mkArr {
  shape : list nat;
  data : list vec
}.

(** Modelled from the spec: [format_obj_input] (magpylib/_lib/utility.py is
    absent) expands every Collection into its members, in order. *)
Definition format_obj_input (sources : list TopSrc) : list ref :=
  flat_map (fun s => match s with Elem r => [r] | Coll ss => ss end) sources.

(** Modelled from the spec: the constructor [Sensor(pos_pix=...)] (the
    Sensor class is absent) makes a sensor at the origin with unit
    orientation and a path of length 1. *)
Definition new_Sensor (pos_pix : PosArray) : Obj :=
  mkObj (SensorA pos_pix) [vzero] [unitQ].

(** [np.array] of a (non-empty) list of position arrays of one shape. *)
Definition np_array (l : list PosArray) : PosArray :=
  mkPosArray (length l :: match l with [] => [] | a :: _ => pa_dims a end)
             (flat_map pa_data l).

Definition is_ItemSensor (o : ObsItem) : bool :=
  match o with ItemSensor _ => true | ItemBare _ => false end.

Definition bare_arrays (l : list ObsItem) : list PosArray :=
  flat_map (fun o => match o with ItemBare a => [a] | ItemSensor _ => [] end) l.

Fixpoint wrap_items (l : list ObsItem) : M (list ref) :=
  match l with
  | [] => ret []
  | ItemSensor r :: rest =>
      let! rs := wrap_items rest in ret (r :: rs)
  | ItemBare a :: rest =>
      let! r := alloc (new_Sensor a) in
      let! rs := wrap_items rest in ret (r :: rs)
  end.

Definition make_sensors (observers : ObserversArg) : M (list ref) :=
  match observers with
  | ObsSensor r => ret [r]
  | ObsArray a => let! r := alloc (new_Sensor a) in ret [r]
  | ObsList l =>
      if existsb is_ItemSensor l then wrap_items l
      else let! r := alloc (new_Sensor (np_array (bare_arrays l))) in ret [r]
  end.

(** [all(all(r==unitQ) for r in sens._rot.as_quat())] *)
Definition unrotated (sens : Obj) : bool :=
  forallb (fun r => quat_eqb r unitQ) (_rot sens).

(** The entry of [static_sensor_rot] for one sensor: [True] without a
    path, [np.all(rot == rot[0])] with one. *)
Definition static_rot (sens : Obj) : bool :=
  if length (_pos sens) =? 1 then true
  else match _rot sens with
       | [] => true
       | r0 :: _ => forallb (fun r => quat_eqb r r0) (_rot sens)
       end.

(** Modelled from the spec: [get_good_path_length] (magpylib/_lib/utility.py
    is absent) returns the maximum M of the path lengths and raises when a
    path length is neither 1 nor M. *)
Definition get_good_path_length (objs : list Obj) : Outcome nat :=
  let lens := map (fun o => length (_pos o)) objs in
  let m := max_list lens in
  if forallb (fun n => (n =? 1) || (n =? m)) lens then Return m
  else Raise (MagpylibBadUserInput BadPathLength).

(** Modelled from the spec: the properties [pos] and [rot] (the object
    classes are absent) read and write the path of an object, a path of
    length 1 as its single entry.

    [obj.pos = np.tile(obj.pos, (m,1))] and the same for [obj.rot]. *)
Definition tile_obj (m : nat) (o : Obj) : Obj :=
  mkObj (attrs o) (np_tile_rows m (_pos o)) (np_tile_rows m (_rot o)).

(** The tiling loop; returns [reset_objects]. *)
Fixpoint tile_up (m : nat) (obj_list : list ref) : M (list ref) :=
  match obj_list with
  | [] => ret []
  | r :: rest =>
      let! st := get_store in
      if length (_pos (deref st r)) =? 1 then
        do! set_obj r (tile_obj m (deref st r)) in
        let! rs := tile_up m rest in
        ret (r :: rs)
      else tile_up m rest
  end.

(** [obj.pos = obj.pos[0]; obj.rot = obj.rot[0]] *)
Definition reset_obj (o : Obj) : Obj :=
  mkObj (attrs o) (take 1 (_pos o)) (take 1 (_rot o)).

Fixpoint reset_tiled (reset_objects : list ref) : M unit :=
  match reset_objects with
  | [] => ret tt
  | r :: rest =>
      let! st := get_store in
      do! set_obj r (reset_obj (deref st r)) in
      reset_tiled rest
  end.

(** [[r.apply(sens.pos_pix.reshape(-1,3)) + p for r,p in zip(sens._rot, sens._pos)]] *)
Definition sensor_positions (sens : Obj) : list (list vec) :=
  zip_with (fun r p => map (fun px => vadd (rot_apply r px) p)
                           (pa_data (pos_pix_of sens)))
           (_rot sens) (_pos sens).

Definition poso_of (sensors : list Obj) : list vec :=
  concat (concat_axis1 (map sensor_positions sensors)).

(** *** Batched dispatch *)

(** The input dict of [getBH_level1]: one list per key, one entry per row. *)
Inductive SrcDict :=
| HomoMagDict (mag : list vec) (dim : list geom) (pos pos_obs : list vec)
              (rot : list quat)
| DipoleDict (moment pos pos_obs : list vec) (rot : list quat).

Definition dim_list (o : Obj) : list geom :=
  match dim_of o with Some d => [d] | None => [] end.

(** The slice assignments [posv[i*mn:(i+1)*mn] = np.tile(src._pos,n).reshape(mn,3)]
    need [len(src._pos) * n = mn] (and the same for the rotations). *)
Definition tile_fits (n mn : nat) (group : list Obj) : bool :=
  forallb (fun src => (length (_pos src) * n =? mn)
                      && (length (_rot src) * n =? mn)) group.

(** The two helpers, on the groups [getBH_level2] hands them: not empty,
    and of one class ([src.moment] of a dipole, [src.mag] and [src.dim] of
    a magnet are there, and the dimensions of a group have one length). *)
Definition scr_dict_dipole (group : list Obj) (poso : list vec)
  : Outcome SrcDict :=
  let l_group := length group in
  let m := match group with [] => 0 | g0 :: _ => length (_pos g0) end in
  let mn := length poso in
  let n := mn / m in
  if tile_fits n mn group then
    Return (DipoleDict
      (flat_map (fun src => replicate mn (excitation src)) group)
      (flat_map (fun src => np_tile_each n (_pos src)) group)
      (np_tile_rows l_group poso)
      (flat_map (fun src => np_tile_each n (_rot src)) group))
  else Raise ValueError.

Definition scr_dict_homo_mag (group : list Obj) (poso : list vec)
  : Outcome SrcDict :=
  let l_group := length group in
  let m := match group with [] => 0 | g0 :: _ => length (_pos g0) end in
  let mn := length poso in
  let n := mn / m in
  if tile_fits n mn group then
    Return (HomoMagDict
      (flat_map (fun src => replicate mn (excitation src)) group)
      (flat_map (fun src => flat_map (replicate mn) (dim_list src)) group)
      (flat_map (fun src => np_tile_each n (_pos src)) group)
      (np_tile_rows l_group poso)
      (flat_map (fun src => np_tile_each n (_rot src)) group))
  else Raise ValueError.

(** Modelled from the spec: the field of one row of [getBH_level1] in the
    world frame: the observer position is taken into the frame of the
    source, the formula is evaluated there, and the field is rotated back
    out with the orientation of the source. *)
Definition level1_row (bh : bool) (ty : SrcType) (exc : vec)
    (dim : option geom) (pos pos_obs : vec) (rot : quat) : vec :=
  rot_apply rot
    (field_formula bh ty exc dim (rot_apply (rot_inv rot) (vsub pos_obs pos))).

Fixpoint rows5 {A B C D E F} (f : A -> B -> C -> D -> E -> F)
    (a : list A) (b : list B) (c : list C) (d : list D) (e : list E)
  : list F :=
  match a, b, c, d, e with
  | x :: a', y :: b', z :: c', u :: d', v :: e' =>
      f x y z u v :: rows5 f a' b' c' d' e'
  | _, _, _, _, _ => []
  end.

(** Modelled from the spec: [getBH_level1]
    (magpylib/_lib/fields/field_wrap_BH_level1.py is absent) evaluates every
    row on its own and returns one field vector per row. *)
Definition getBH_level1 (bh : bool) (src_type : SrcType) (d : SrcDict)
  : list vec :=
  match d with
  | HomoMagDict mag dim pos pos_obs rot =>
      rows5 (level1_row bh src_type) mag (map Some dim) pos pos_obs rot
  | DipoleDict moment pos pos_obs rot =>
      rows5 (level1_row bh src_type) moment
            (replicate (length moment) None) pos pos_obs rot
  end.

(** *** Grouping *)

Record Groups := mkGroups {
  src_sorted : list (list ref);
  order : list (list nat)
}.

Definition no_groups : Groups := mkGroups [[]; []; []; []] [[]; []; []; []].

Definition group_index (ty : SrcType) : nat :=
  match ty with Box => 0 | Cylinder => 1 | Sphere => 2 | Dipole => 3 end.

Fixpoint group_sources (st : Store) (i : nat) (src_list : list ref)
    (g : Groups) : Outcome Groups :=
  match src_list with
  | [] => Return g
  | src :: rest =>
      match src_type_of (deref st src) with
      | Some ty =>
          group_sources st (S i) rest
            (mkGroups (alter (fun l => l ++ [src]) (group_index ty) (src_sorted g))
                      (alter (fun l => l ++ [i]) (group_index ty) (order g)))
      | None => Raise (MagpylibBadUserInput UnrecognizedObject)
      end
  end.

(** [B_group.reshape((lg,m,n,3))] *)
Definition reshape_group (lg m n : nat) (flat : list vec) : Outcome Tensor :=
  if length flat =? lg * m * n
  then Return (map (chunks m n) (chunks lg (m * n) flat))
  else Raise ValueError.

(** [for i in range(lg): B[order[iii][i]] = B_group[i]] *)
Definition scatter (ord : list nat) (B_group : Tensor) (B : Tensor) : Tensor :=
  fold_left (fun B ix => <[ix.1 := ix.2]> B) (zip ord B_group) B.

(** One of the four blocks "evaluate each non-empty group in one go". *)
Definition eval_group (bh : bool) (st : Store) (ty : SrcType) (g : Groups)
    (poso : list vec) (m n : nat) (B : Tensor) : M Tensor :=
  let group := map (deref st) (default [] (src_sorted g !! group_index ty)) in
  match group with
  | [] => ret B
  | _ :: _ =>
      let lg := length group in
      let! src_dict := lift (match ty with
                             | Dipole => scr_dict_dipole group poso
                             | _ => scr_dict_homo_mag group poso
                             end) in
      do! log_level1 ty in
      let B_group := getBH_level1 bh ty src_dict in
      let! B_group := lift (reshape_group lg m n B_group) in
      ret (scatter (default [] (order g !! group_index ty)) B_group B)
  end.

(** The four blocks in their order: Box, Cylinder, Sphere, Dipole. *)
Definition eval_groups (bh : bool) (st : Store) (g : Groups)
    (poso : list vec) (m n : nat) (B : Tensor) : M Tensor :=
  let! B := eval_group bh st Box g poso m n B in
  let! B := eval_group bh st Cylinder g poso m n B in
  let! B := eval_group bh st Sphere g poso m n B in
  let! B := eval_group bh st Dipole g poso m n B in
  ret B.

(** *** Summing the members of a Collection *)

Definition slice_add (a b : Slice) : Slice := zip_with (zip_with vadd) a b.

Definition zeros (m n : nat) : Slice := replicate m (replicate n vzero).

(** [np.sum(slices, axis=0)] of slices of shape (m, n, 3). *)
Definition np_sum_slices (m n : nat) (slices : list Slice) : Slice :=
  fold_right slice_add (zeros m n) slices.

(** The loop over [enumerate(sources)] that replaces the rows of a
    Collection by their sum:
    [B[i] = np.sum(B[i:i+col_len],axis=0)] and
    [B = np.delete(B,np.s_[i+1:i+col_len],0)]. *)
Fixpoint sum_collections (m n i : nat) (sources : list TopSrc) (B : Tensor)
  : Outcome Tensor :=
  match sources with
  | [] => Return B
  | Elem _ :: rest => sum_collections m n (S i) rest B
  | Coll ss :: rest =>
      let col_len := length ss in
      if i <? length B then
        let B1 := <[i := np_sum_slices m n (take col_len (drop i B))]> B in
        sum_collections m n (S i) rest
          (take (S i) B1 ++ drop (Nat.max (S i) (i + col_len)) B1)
      else Raise IndexError
  end.

(** *** Rotating into the frame of each sensor *)

(** The part of a row that belongs to sensor [i], rotated by the inverse of
    [q]: [q.inv().apply(...)] on [row[i*k_pixel:(i+1)*k_pixel]]. *)
Definition rotate_part (q : quat) (i k_pixel : nat) (row : list vec)
  : list vec :=
  slice_map (rot_apply (rot_inv q)) (i * k_pixel) k_pixel row.

(** The reshapes of [Bpart] to [(k_pixel*l0*m,3)] and back need [B] to have
    [l0] entries and the slice to be [k_pixel] wide (arrays without any
    element apart); numpy raises a ValueError otherwise. *)
Definition part_fits (l0 n k_pixel i : nat) (B : Tensor) : bool :=
  (length B =? l0) && (i * k_pixel + k_pixel <=? n).

Fixpoint rotate_steps (l0 n k_pixel i : nat) (sens : Obj) (js : list nat)
    (B : Tensor) : Outcome Tensor :=
  match js with
  | [] => Return B
  | j :: rest =>
      if part_fits l0 n k_pixel i B then
        match _rot sens !! j with
        | Some q =>
            rotate_steps l0 n k_pixel i sens rest
              (map (alter (rotate_part q i k_pixel) j) B)
        | None => Raise IndexError
        end
      else Raise ValueError
  end.

Definition rotate_sensor (l0 m n k_pixel i : nat) (sens : Obj)
    (unrot static : bool) (B : Tensor) : Outcome Tensor :=
  if negb unrot then
    if static then
      if part_fits l0 n k_pixel i B then
        match _rot sens with
        | q0 :: _ => Return (map (map (rotate_part q0 i k_pixel)) B)
        | [] => Raise IndexError
        end
      else Raise ValueError
    else rotate_steps l0 n k_pixel i sens (seq 0 m) B
  else Return B.

(** The loop [for i,sens in enumerate(sensors)]. *)
Fixpoint apply_sensor_rotations (l0 m n k_pixel i : nat) (sensors : list Obj)
    (unrotated_sensors static_sensor_rot : list bool) (B : Tensor)
  : Outcome Tensor :=
  match sensors with
  | [] => Return B
  | sens :: rest =>
      match rotate_sensor l0 m n k_pixel i sens
              (default false (unrotated_sensors !! i))
              (default false (static_sensor_rot !! i)) B with
      | Return B' =>
          apply_sensor_rotations l0 m n k_pixel (S i) rest
            unrotated_sensors static_sensor_rot B'
      | Raise e => Raise e
      end
  end.

(** *** The output shape *)

(** [B.reshape(new_shape)] of the (l, m, n, 3) tensor. *)
Definition np_reshape (B : Tensor) (new_shape : list nat) : Outcome ndarray :=
  let d := concat (concat B) in
  if 3 * length d =? prod_list new_shape then Return (mkArr new_shape d)
  else Raise ValueError.

(** [np.sum(B, axis=0)] *)
Definition np_sum0 (a : ndarray) : ndarray :=
  match shape a with
  | [] => a
  | d0 :: rest =>
      let c := prod_list rest / 3 in
      mkArr rest (fold_right (zip_with vadd) (replicate c vzero)
                             (chunks d0 c (data a)))
  end.

(** [np.squeeze(B)] *)
Definition np_squeeze (a : ndarray) : ndarray :=
  mkArr (filter (fun d => d <> 1) (shape a)) (data a).

(** *** [getBH_level2]

    The steps of the function in their order: the inputs are formatted, the
    sensors are checked, the paths of length 1 are tiled in place, the
    observer positions are gathered, the sources are grouped and evaluated,
    the members of Collections are summed, the result is rotated into the
    frames of the sensors, reshaped, summed and squeezed, and the tiled
    objects are reset.  An exception leaves the state as it is at the raise.
    [np.empty((l,m,n,3))] is filled with zeros here; every row of it is
    written before it is read. *)

Definition getBH_level2 (bh : bool) (sources : SourcesArg)
    (observers : ObserversArg) (sumup squeeze : bool) : M ndarray :=
  let sources := match sources with OneSource s => [s] | SourceList l => l end in
  let src_list := format_obj_input sources in
  let! sensors := make_sensors observers in
  let! st := get_store in
  let pix_shapes := map (fun r => pa_shape (pos_pix_of (deref st r))) sensors in
  if negb (all_same pix_shapes)
  then raise (MagpylibBadUserInput DifferentObserverShapes)
  else
  let! pix_shape := lift (match pix_shapes with
                          | sh :: _ => Return sh
                          | [] => Raise IndexError
                          end) in
  let unrotated_sensors := map (fun r => unrotated (deref st r)) sensors in
  let static_sensor_rot := map (fun r => static_rot (deref st r)) sensors in
  let obj_list := src_list ++ sensors in
  let l0 := length sources in
  let l := length src_list in
  let k := length sensors in
  let! m := lift (get_good_path_length (map (deref st) obj_list)) in
  let! reset_objects := (if 1 <? m then tile_up m obj_list else ret []) in
  let! st := get_store in
  let poso := poso_of (map (deref st) sensors) in
  let mn := length poso in
  let n := mn / m in
  let! g := lift (group_sources st 0 src_list no_groups) in
  let B := replicate l (zeros m n) in
  let! B := eval_groups bh st g poso m n B in
  let! B := lift (if l0 <? l then sum_collections m n 0 sources B
                  else Return B) in
  let k_pixel := prod_list (removelast pix_shape) in
  let! B := lift (apply_sensor_rotations l0 m n k_pixel 0
                    (map (deref st) sensors)
                    unrotated_sensors static_sensor_rot B) in
  let sens_px_shape := k :: pix_shape in
  let! B := lift (np_reshape B ([l0; m] ++ sens_px_shape)) in
  let B := if sumup then np_sum0 B else B in
  let B := if squeeze then np_squeeze B else B in
  do! reset_tiled reset_objects in
  ret B.

(** [Collection.getB(pos_obs, **kwargs)]: [getB(self, pos_obs, sumup=True, **kwargs)]. *)
Definition Collection_getB (sources : list ref) (pos_obs : ObserversArg)
    (squeeze : bool) : M ndarray :=
  getBH_level2 true (OneSource (Coll sources)) pos_obs true squeeze.

End Level2.

(** ** An exact instance of the numerics

    Vectors over Z and rotations given by integer quaternions (x, y, z, w),
    acting by q v q*; the unit quaternions among them are the 24 rotations
    of the cube. *)

Module ZNum.

Open Scope Z_scope.

Definition zvec : Type := Z * Z * Z.
Definition zquat : Type := Z * Z * Z * Z.

Definition zadd (u v : zvec) : zvec :=
  let '(a, b, c) := u in let '(d, e, f) := v in (a + d, b + e, c + f).

Definition zsub (u v : zvec) : zvec :=
  let '(a, b, c) := u in let '(d, e, f) := v in (a - d, b - e, c - f).

Definition zquat_eqb (p q : zquat) : bool :=
  let '(a, b, c, d) := p in let '(e, f, g, h) := q in
  (a =? e) && (b =? f) && (c =? g) && (d =? h).

Definition zinv (q : zquat) : zquat :=
  let '(x, y, z, w) := q in (- x, - y, - z, w).

Definition zapply (q : zquat) (v : zvec) : zvec :=
  let '(x, y, z, w) := q in
  let '(a, b, c) := v in
  let s := w * w - x * x - y * y - z * z in
  let d := x * a + y * b + z * c in
  (s * a + 2 * d * x + 2 * w * (y * c - z * b),
   s * b + 2 * d * y + 2 * w * (z * a - x * c),
   s * c + 2 * d * z + 2 * w * (x * b - y * a)).

(** A stand-in for the closed-form formulas: any function will do. *)
Definition zformula (bh : bool) (ty : SrcType) (exc : zvec)
    (dim : option Z) (p : zvec) : zvec :=
  let '(a, b, c) := exc in
  let '(x, y, z) := p in
  let d := match dim with Some d => d | None => 1 end in
  let t := match ty with Box => 1 | Cylinder => 2 | Sphere => 3 | Dipole => 4 end in
  let h := if bh then 1 else 2 in
  (h * a + t * x * y, b * d + z * z, c + t * x).

#[export] Instance numerics : Numerics := {|
  vec := zvec;
  quat := zquat;
  geom := Z;
  vzero := (0, 0, 0);
  vadd := zadd;
  vsub := zsub;
  unitQ := (0, 0, 0, 1);
  quat_eqb := zquat_eqb;
  rot_inv := zinv;
  rot_apply := zapply;
  field_formula := zformula
|}.

Close Scope Z_scope.

End ZNum.

(** ** A small scene over the exact instance *)

Module Scene.
Import ZNum.

Open Scope Z_scope.

(** Half turns about the z and the x axis. *)
Definition qz : zquat := (0, 0, 1, 0).
Definition qx : zquat := (1, 0, 0, 0).
Definition q1 : zquat := (0, 0, 0, 1).

Definition pixels : PosArray :=
  mkPosArray [2%nat; 1%nat] [(1, 0, 1); (0, 1, 0)].

(** 0: a static box; 1: a dipole on a path of two steps; 2: a static,
    rotated box; 3: a static, rotated sensor; 4: a sensor that turns along
    its path; 5: an object of no source class; 6: a box on a path of three
    steps; 7: a cylinder on a path of five steps; 8: a sensor with another
    pixel shape. *)
Definition objects : Store :=
  [ mkObj (BoxA (0, 0, 1000) 1) [(0, 0, 0)] [q1];
    mkObj (DipoleA (1, 2, 3)) [(1, 1, 1); (2, 2, 2)] [qz; qx];
    mkObj (BoxA (0, 0, 1000) 1) [(5, 5, 5)] [qx];
    mkObj (SensorA pixels) [(0, 0, 0)] [qz];
    mkObj (SensorA pixels) [(0, 0, 0); (0, 0, 1)] [qz; qx];
    mkObj OtherA [(0, 0, 0)] [q1];
    mkObj (BoxA (1, 1, 1) 2) [(0, 0, 0); (1, 0, 0); (2, 0, 0)] [q1; q1; q1];
    mkObj (CylinderA (1, 1, 1) 2)
          [(0, 0, 0); (1, 0, 0); (2, 0, 0); (3, 0, 0); (4, 0, 0)]
          [q1; q1; q1; q1; q1];
    mkObj (SensorA (mkPosArray [] [(1, 1, 1)])) [(0, 0, 0)] [q1] ].

Definition start : State := mkState objects [].

Close Scope Z_scope.

End Scene.

(** ** The magnet classes of _lib/classes/magnets.py *)

(** The helpers the classes import: [angleAxisRotation] of mathLibPrivate
    and the closed-form fields of PM_Cube, PM_Cylinder and PM_Sphere. *)
Class MagnetMath := {
  mvec : Type;
  mangle : Type;
  mdims : Type;
  msub : mvec -> mvec -> mvec;
  mneg : mvec -> mvec;
  angleAxisRotation : mangle -> mvec -> mvec -> mvec;
  Bfield_Cube : mvec -> mvec -> mdims -> mvec;
  Bfield_Cylinder : mvec -> mvec -> mdims -> nat -> mvec;
  Bfield_Sphere : mvec -> mvec -> mdims -> mvec
}.

(** What the classes rely on in [angleAxisRotation]: the rotation about an
    axis brings back what the rotation by the same angle about the negated
    axis has turned. *)
Class NegatedAxis (MM : MagnetMath) : Prop :=
  rotation_after_negated_axis : forall (ang : mangle) (ax v : mvec),
    angleAxisRotation ang ax (angleAxisRotation ang (mneg ax) v) = v.

Module Magnets.
Section Classes.
Context {MM : MagnetMath}.

(** The attributes of [HomoMag] and the dimension of the magnet;
    [iterDia] is used by the cylinder only. *)
Record Magnet := mkMagnet {
  position : mvec;
  angle : mangle;
  axis : mvec;
  magnetization : mvec;
  dimension : mdims;
  iterDia : nat
}.

Definition Cube_getB (self : Magnet) (pos : mvec) : mvec :=
  let posRel := msub pos (position self) in
  let p21newCm := angleAxisRotation (angle self) (mneg (axis self)) posRel in
  let BCm := Bfield_Cube (magnetization self) p21newCm (dimension self) in
  angleAxisRotation (angle self) (axis self) BCm.

Definition Cylinder_getB (self : Magnet) (pos : mvec) : mvec :=
  let posRel := msub pos (position self) in
  let p21newCm := angleAxisRotation (angle self) (mneg (axis self)) posRel in
  let BCm := Bfield_Cylinder (magnetization self) p21newCm (dimension self)
                             (iterDia self) in
  angleAxisRotation (angle self) (axis self) BCm.

Definition Sphere_getB (self : Magnet) (pos : mvec) : mvec :=
  let posRel := msub pos (position self) in
  let p21newCm := angleAxisRotation (angle self) (mneg (axis self)) posRel in
  let BCm := Bfield_Sphere (magnetization self) p21newCm (dimension self) in
  angleAxisRotation (angle self) (axis self) BCm.

(** The frame-transform sequence in the words of the specification: the
    source position is subtracted from the observer position, the
    difference is rotated into the frame of the source, the formula is
    evaluated there, and the field is rotated back out. *)
Definition frame_transform_field (source_position : mvec)
    (into_source_frame out_of_source_frame : mvec -> mvec)
    (formula : mvec -> mvec) (observer : mvec) : mvec :=
  out_of_source_frame
    (formula (into_source_frame (msub observer source_position))).

(** The orientation of a magnet: the rotation by its angle about its
    axis. *)
Definition orientation (self : Magnet) : mvec -> mvec :=
  angleAxisRotation (angle self) (axis self).

End Classes.

(** Half turns about a coordinate axis, on vectors over Z: an exact
    instance of the helpers. *)
Definition half_turn (on : bool) (ax v : Z * Z * Z) : Z * Z * Z :=
  let '(a, b, c) := ax in
  let '(x, y, z) := v in
  if negb on then v
  else if negb (a =? 0)%Z then (x, - y, - z)%Z
  else if negb (b =? 0)%Z then (- x, y, - z)%Z
  else (- x, - y, z)%Z.

Definition zmath : MagnetMath := {|
  mvec := Z * Z * Z;
  mangle := bool;
  mdims := Z * Z * Z;
  msub := ZNum.zsub;
  mneg := fun v => ZNum.zsub (0, 0, 0)%Z v;
  angleAxisRotation := half_turn;
  Bfield_Cube := fun m p d => ZNum.zformula true Box m (Some (fst (fst d))) p;
  Bfield_Cylinder :=
    fun m p d _ => ZNum.zformula true Cylinder m (Some (fst (fst d))) p;
  Bfield_Sphere := fun m p d => ZNum.zformula true Sphere m (Some (fst (fst d))) p
|}.

Definition a_cube : @Magnet zmath :=
  @mkMagnet zmath (1, 2, 3)%Z true (0, 0, 1)%Z (0, 0, 1000)%Z (1, 1, 1)%Z 50.

End Magnets.

(** ** What the stages compute

    Reference descriptions of the results, used to state the theorems. *)

Section Reference.
Context {N : Numerics}.

(** The world-frame field of one source along its path, at the [n] observer
    positions of every path step: shape (m, n, 3). *)
Definition world_field (bh : bool) (ty : SrcType) (src : Obj)
    (poso : list vec) (m n : nat) : Slice :=
  zip_with (fun pr row =>
              map (fun po => level1_row bh ty (excitation src) (dim_of src)
                                        pr.1 po pr.2) row)
           (zip (_pos src) (_rot src)) (chunks m n poso).

(** The field of the source behind reference [r]. *)
Definition source_field (bh : bool) (st : Store) (poso : list vec)
    (m n : nat) (r : ref) : Slice :=
  match src_type_of (deref st r) with
  | Some ty => world_field bh ty (deref st r) poso m n
  | None => zeros m n
  end.

(** The sources of family [ty] in [src_list], each with its index in the
    list (counted from [i]). *)
Fixpoint typed_entries (st : Store) (ty : SrcType) (i : nat)
    (src_list : list ref) : list (nat * ref) :=
  match src_list with
  | [] => []
  | r :: rest =>
      match src_type_of (deref st r) with
      | Some ty' => if SrcType_eqb ty' ty
                    then (i, r) :: typed_entries st ty (S i) rest
                    else typed_entries st ty (S i) rest
      | None => typed_entries st ty (S i) rest
      end
  end.

(** The field of a top-level entry: of the source itself, or the sum over
    the members of the Collection. *)
Definition top_field (m n : nat) (F : ref -> Slice) (top : TopSrc) : Slice :=
  match top with
  | Elem r => F r
  | Coll ss => np_sum_slices m n (map F ss)
  end.

Definition nonempty_top (top : TopSrc) : Prop :=
  match top with Elem _ => True | Coll ss => ss <> [] end.

(** A slice of shape (m, n, 3). *)
Definition slice_shape (m n : nat) (sl : Slice) : Prop :=
  length sl = m /\ Forall (fun row => length row = n) sl.

(** The part of sensor [i] in the row of path step [j], taken into the
    frame the sensor has at that step. *)
Definition step_frame (k_pixel i : nat) (sens : Obj) (j : nat)
    (row : list vec) : list vec :=
  match _rot sens !! j with
  | Some q => rotate_part q i k_pixel row
  | None => row
  end.

(** The tensor with the part of sensor [i] taken into the frame of the
    sensor, step by step. *)
Definition sensor_frame (k_pixel i : nat) (sens : Obj) (B : Tensor) : Tensor :=
  map (imap (step_frame k_pixel i sens)) B.

(** The same for the sensors [i], [i+1], ... in turn. *)
Fixpoint sensors_frame (k_pixel i : nat) (sensors : list Obj) (B : Tensor)
  : Tensor :=
  match sensors with
  | [] => B
  | sens :: rest => sensors_frame k_pixel (S i) rest (sensor_frame k_pixel i sens B)
  end.

(** The object at every reference of [rs] replaced by its image under [f]. *)
Definition update_all (f : Obj -> Obj) (rs : list ref) (st : Store) : Store :=
  fold_left (fun st r => <[r := f (deref st r)]> st) rs st.

(** The object as the tiling loop leaves it: a path of length 1 is repeated
    [m] times when [m > 1]. *)
Definition tiled (m : nat) (o : Obj) : Obj :=
  if (1 <? m) && (length (_pos o) =? 1) then tile_obj m o else o.

(** The rows [js] of a slice updated one after the other. *)
Definition steps_slice (g : nat -> list vec -> list vec) (js : list nat)
    (sl : Slice) : Slice :=
  fold_left (fun sl j => alter (g j) j sl) js sl.

(** One entry taken into the frames of the sensors [i], [i+1], ... *)
Fixpoint slice_frames (k_pixel i : nat) (sensors : list Obj) (sl : Slice)
  : Slice :=
  match sensors with
  | [] => sl
  | sens :: rest =>
      slice_frames k_pixel (S i) rest (imap (step_frame k_pixel i sens) sl)
  end.

(** The flags describe the path of orientations the sensor has when the
    rotations are applied. *)
Definition flags_sound (unrot static : bool) (sens : Obj) : Prop :=
  (unrot = true -> Forall (fun q => q = unitQ) (_rot sens))
  /\ (static = true -> exists q0, Forall (fun q => q = q0) (_rot sens)).

(** The object behind [r] is of one of the four source classes. *)
Definition recognized (st : Store) (r : ref) : Prop :=
  src_type_of (deref st r) <> None.

(** The families that occur in [src_list], in the order of evaluation. *)
Definition used_types (st : Store) (src_list : list ref) : list SrcType :=
  flat_map (fun ty => match typed_entries st ty 0 src_list with
                      | [] => []
                      | _ => [ty]
                      end) [Box; Cylinder; Sphere; Dipole].

(** The state after the calls [tys] of [getBH_level1]. *)
Definition logged (s : State) (tys : list SrcType) : State :=
  mkState (store s) (level1_calls s ++ tys).

(** The last two steps of a call: summing over the sources and squeezing. *)
Definition finish (sumup squeeze : bool) (B : ndarray) : ndarray :=
  let B := if sumup then np_sum0 B else B in
  if squeeze then np_squeeze B else B.

(** [k_pixel] of a call: the number of pixels of the first sensor. *)
Definition k_pixel_of (st : Store) (sensors : list ref) : nat :=
  match sensors with
  | [] => 0
  | r :: _ => prod_list (pa_dims (pos_pix_of (deref st r)))
  end.

(** The tensor a call computes, entry by entry: the world-frame fields of
    the sources along the common path, summed over the members of every
    Collection, and then taken into the frame of every sensor. *)
Definition expected_tensor (bh : bool) (st : Store) (sources : list TopSrc)
    (sensors : list ref) (m : nat) : Tensor :=
  let stT := map (tiled m) st in
  let sens := map (deref stT) sensors in
  let poso := poso_of sens in
  let n := length poso / m in
  sensors_frame (k_pixel_of st sensors) 0 sens
    (map (top_field m n (source_field bh stT poso m n)) sources).

(** The output shape before summing and squeezing. *)
Definition full_shape (st : Store) (sources : list TopSrc)
    (sensors : list ref) (m : nat) : list nat :=
  [length sources; m] ++ length sensors ::
  match sensors with
  | [] => []
  | r :: _ => pa_shape (pos_pix_of (deref st r))
  end.

(** A call that passes the input checks: [st] is the store once the bare
    observers are wrapped, [sensors] the sensors and [m] the common path
    length.  Every path is non-empty with one orientation per position,
    every source is of a known class, no Collection is empty, and the pixel
    arrays have as many rows as their shape says. *)
Definition call_ok (st : Store) (sources : list TopSrc) (sensors : list ref)
    (m : nat) : Prop :=
  sensors <> []
  /\ all_same (map (fun r => pa_shape (pos_pix_of (deref st r))) sensors) = true
  /\ get_good_path_length
       (map (deref st) (format_obj_input sources ++ sensors)) = Return m
  /\ Forall (fun r => 0 < length (_pos (deref st r))
                      /\ length (_rot (deref st r)) = length (_pos (deref st r)))
            (format_obj_input sources ++ sensors)
  /\ Forall (recognized st) (format_obj_input sources)
  /\ Forall nonempty_top sources
  /\ Forall (fun r => prod_list (pa_dims (pos_pix_of (deref st r)))
                      = length (pa_data (pos_pix_of (deref st r)))) sensors.

(** The positions of an observers argument without any Sensor: the array
    itself, or the list of positions as one array. *)
Definition bare_positions (observers : ObserversArg) : option PosArray :=
  match observers with
  | ObsSensor _ => None
  | ObsArray a => Some a
  | ObsList l => if existsb is_ItemSensor l then None
                 else Some (np_array (bare_arrays l))
  end.

(** numpy broadcasting of the rows [d] of a result with a path axis of
    length 1 against a result of [len] rows: the rows repeat along the
    path. *)
Definition broadcast_to (len : nat) (d : list vec) : list vec :=
  np_tile_rows (len / length d) d.

(** An object without a path: one position and one orientation. *)
Definition single (o : Obj) : Prop :=
  length (_pos o) = 1 /\ length (_rot o) = 1.

(** The [sources] argument as a list. *)
Definition sources_list (sources : SourcesArg) : list TopSrc :=
  match sources with OneSource s => [s] | SourceList l => l end.

End Reference.

(** ** Further methods of [Collection]

    [getH] and [remove] of magpylib3/_lib/obj_classes/class_Collection.py. *)

Section CollectionMethods.
Context {N : Numerics}.

(** [Collection.getH(pos_obs, **kwargs)]:
    [getH(self, pos_obs, sumup=True, **kwargs)]. *)
Definition Collection_getH (sources : list ref) (pos_obs : ObserversArg)
    (squeeze : bool) : M ndarray :=
  getBH_level2 false (OneSource (Coll sources)) pos_obs true squeeze.

(** [list.remove(x)] of Python: the first entry equal to [x] is dropped; a
    ValueError when there is none.  Objects are equal when they are the
    same object. *)
Fixpoint list_remove (x : ref) (l : list ref) : Outcome (list ref) :=
  match l with
  | [] => Raise ValueError
  | y :: rest =>
      if decide (y = x) then Return rest
      else match list_remove x rest with
           | Return rest' => Return (y :: rest')
           | Raise e => Raise e
           end
  end.

(** [Collection.remove(source)]: [self._sources.remove(source)]; the
    [_sources] the Collection has afterwards. *)
Definition Collection_remove (_sources : list ref) (source : ref)
  : Outcome (list ref) :=
  list_remove source _sources.

End CollectionMethods.

Section TensorEntries.
Context {N : Numerics}.

(** The entry [B[l, j, c]] of a tensor. *)
Definition tensor_at (B : Tensor) (l j c : nat) : option vec :=
  match B !! l with
  | Some sl => match sl !! j with
               | Some row => row !! c
               | None => None
               end
  | None => None
  end.

(** The world-frame field of the source [src] at path step [j] and at the
    observer position [po]: the row [getBH_level1] has for the source, the
    step and the observer. *)
Definition field_at (bh : bool) (src : Obj) (j : nat) (po : vec) : vec :=
  match src_type_of src, _pos src !! j, _rot src !! j with
  | Some ty, Some P, Some Q =>
      level1_row bh ty (excitation src) (dim_of src) P po Q
  | _, _, _ => vzero
  end.

End TensorEntries.

(** ** The display functions of magpylib/_src/display/display.py *)

Module Display.

#[local] Open Scope string_scope.
#[local] Open Scope list_scope.

(** The two features [RegisterBackend.show] tests a backend for. *)
Inductive Feature := Animation | Subplots.

(** An instance of [RegisterBackend]: its name, its [show_func] (always
    [get_show_func] of a backend name, which is what is kept here) and the
    entries of its [supports] dict. *)
Record Backend := mkBackend {
  name : string;
  show_func : string;
  supports_animation : bool;
  supports_subplots : bool;
  supports_colorgradient : bool
}.

Definition supports (self : Backend) (feature : Feature) : bool :=
  match feature with
  | Animation => supports_animation self
  | Subplots => supports_subplots self
  end.

Inductive Result (E A : Type) :=
| Ok (a : A)
| Err (e : E).
Arguments Ok {E A} a.
Arguments Err {E A} e.

(** What is raised: a KeyError or TypeError of Python itself, or whatever
    one of the imported helpers raises. *)
Inductive Raised (E : Type) :=
| KeyError (key : string)
| TypeError
| Helper (e : E).
Arguments KeyError {E} key.
Arguments TypeError {E}.
Arguments Helper {E} e.

(** The Python values the functions pass around and the helpers they
    import (traces_generic, traces_utility, input_checks, utility and the
    backend modules are absent): every helper is an arbitrary function that
    returns or raises.  [get_show_func name data zoom ...] is the call
    [get_show_func(name)()(data, zoom=zoom, ...)]: the import of the backend
    module and the call of its display function. *)
Class DisplayEnv := {
  Value : Type;
  Frames : Type;
  PyErr : Type;
  v_None : Value;
  v_False : Value;
  v_int : Z -> Value;
  v_str : string -> Value;
  v_list : list Value -> Value;
  v_dict : gmap string Value -> Value;
  py_eq : Value -> Value -> bool;
  py_bool : Value -> Result PyErr bool;
  process_show_input_objs :
    list Value -> gmap string Value ->
    Result PyErr (list (gmap string Value) * list Value * Value * Value * Value);
  check_dimensions : list Value -> Result PyErr unit;
  check_excitations : list Value -> Result PyErr unit;
  test_path_format : list Value -> Result PyErr unit;
  check_format_input_backend : Value -> Result PyErr string;
  check_input_zoom : Value -> Result PyErr unit;
  check_input_animation : Value -> Result PyErr unit;
  check_format_input_vector : Value -> Result PyErr unit;
  MagpyMarkers : Value -> Value;
  get_frames :
    list Value -> bool -> string -> gmap string Value -> Result PyErr Frames;
  get_show_func :
    string -> Frames -> Value -> Value -> Value -> Value ->
    gmap string Value -> Result PyErr Value
}.

(** A dict with string keys, as [**kwargs] is. *)
Abbreviation Dict := (gmap string Value).

Section Functions.
Context {E : DisplayEnv}.

(** [class DisplayContext] *)
Record DisplayContext := mkCtx {
  isrunning : bool;
  objects : list Dict;
  objects_from_ctx : list Dict;
  kwargs : Dict;
  canvas : Value
}.

(** What a call does to the outside: a warning (its text is left out), a
    call of [get_frames], the call [self.show_func()(...)] (the calls are
    recorded when they are made, whether they return or raise). *)
Inductive Event :=
| Warned (backend : string) (feature : Feature)
| FramesRequested (backend : string) (objs : list Value)
            (colorgradient : bool) (kw : Dict)
| DisplayCalled (show_func : string) (zoom max_rows max_cols subplot_specs : Value)
            (kw : Dict).

(** The module state: [ctx], [RegisterBackend.backends], and the events. *)
Record World := mkWorld {
  ctx : DisplayContext;
  backends : gmap string Backend;
  events : list Event
}.

Definition DM (A : Type) : Type := World -> Result (Raised PyErr) A * World.

Definition dret {A} (a : A) : DM A := fun w => (Ok a, w).
Definition draise {A} (e : Raised PyErr) : DM A := fun w => (Err e, w).
Definition dbind {A B} (c : DM A) (f : A -> DM B) : DM B :=
  fun w => match c w with
           | (Ok a, w') => f a w'
           | (Err e, w') => (Err e, w')
           end.
Definition helper {A} (r : Result PyErr A) : DM A :=
  fun w => (match r with Ok a => Ok a | Err e => Err (Helper e) end, w).
Definition get_ctx : DM DisplayContext := fun w => (Ok (ctx w), w).
Definition set_ctx (c : DisplayContext) : DM unit :=
  fun w => (Ok tt, mkWorld c (backends w) (events w)).
Definition emit (e : Event) : DM unit :=
  fun w => (Ok tt, mkWorld (ctx w) (backends w) (events w ++ [e])).

(** [try: c finally: f] *)
Definition try_finally {A} (c : DM A) (f : DM unit) : DM A :=
  fun w => match c w with
           | (r, w') => match f w' with
                        | (Ok _, w'') => (r, w'')
                        | (Err e, w'') => (Err e, w'')
                        end
           end.

End Functions.

Notation "'let*' x ':=' c 'in' k" := (dbind c (fun x => k))
  (at level 10, x name, c at level 100, k at level 200).
Notation "'do*' c 'in' k" := (dbind c (fun _ => k))
  (at level 10, c at level 100, k at level 200).

Section Functions2.
Context {E : DisplayEnv}.

(** [RegisterBackend(name=..., ...)]: [self.backends[name] = self]. *)
Definition RegisterBackend (self : Backend) : DM unit :=
  fun w => (Ok tt, mkWorld (ctx w) (<[name self := self]> (backends w))
                           (events w)).

(** The registry once the module is imported. *)
Definition registered : gmap string Backend :=
  <["pyvista" := mkBackend "pyvista" "pyvista" true true true]>
    (<["plotly" := mkBackend "plotly" "plotly" true true true]>
       (<["matplotlib" :=
            mkBackend "matplotlib" "matplotlib" true true false]> ∅)).

(** [ctx = DisplayContext()] *)
Definition new_DisplayContext : DisplayContext := mkCtx false [] [] ∅ v_None.

Definition imported : World := mkWorld new_DisplayContext registered [].

(** [DisplayContext.reset] *)
Definition reset : DM unit :=
  let* c := get_ctx in
  set_ctx (mkCtx false [] [] ∅ (canvas c)).

(** [d.update(new)] *)
Definition update (d new : Dict) : Dict := new ∪ d.

Definition RCO_NAMES : list string :=
  ["row"; "col"; "output"; "sumup"; "pixel_agg"].

(** [{k: v for k, v in kwargs.items() if k in RCO_NAMES}] and its
    complement. *)
Definition rco_of (kw : Dict) : Dict :=
  filter (fun kv => kv.1 ∈ RCO_NAMES) kw.
Definition not_rco_of (kw : Dict) : Dict :=
  filter (fun kv => kv.1 ∉ RCO_NAMES) kw.

(** No key of [RCO_NAMES] occurs in [kw]. *)
Definition no_rco_keys (kw : Dict) : Prop :=
  forall k, k ∈ RCO_NAMES -> kw !! k = None.

(** The dict [conditions] of [RegisterBackend.show]. *)
Definition conditions : list (Feature * list (string * Value)) :=
  [(Animation, [("animation", v_False)]);
   (Subplots, [("row", v_None); ("col", v_None)])].

(** [not all(kwargs.get(k, v) == v for k, v in params.items())] *)
Definition condition (kw : Dict) (params : list (string * Value)) : bool :=
  negb (forallb (fun kv => py_eq (default kv.2 (kw !! kv.1)) kv.2) params).

(** The loop over [conditions]. *)
Fixpoint fall_back (backend : string) (self : Backend)
    (cs : list (Feature * list (string * Value))) (kw : Dict) : DM Dict :=
  match cs with
  | [] => dret kw
  | (feature, params) :: rest =>
      if condition kw params && negb (supports self feature) then
        do* emit (Warned backend feature) in
        fall_back backend self rest (update kw (list_to_map params))
      else fall_back backend self rest kw
  end.

(** [RegisterBackend.show] with its arguments [objs], [backend], [zoom],
    [max_rows], [max_cols], [subplot_specs] and [kwargs]; it returns None.
    A keyword [cls] collides with the first parameter of the class method,
    a keyword [supports_colorgradient] with the one given to [get_frames]:
    Python raises a TypeError at the call. *)
Definition RegisterBackend_show (objs : list Value) (backend : string)
    (zoom max_rows max_cols subplot_specs : Value) (kw : Dict) : DM unit :=
  fun w =>
    if bool_decide (is_Some (kw !! "cls")) then (Err TypeError, w) else
    match backends w !! backend with
    | None => (Err (KeyError backend), w)
    | Some self =>
        (let* kw := fall_back backend self conditions kw in
         if bool_decide (is_Some (kw !! "supports_colorgradient"))
         then draise TypeError
         else
         do* emit (FramesRequested backend objs (supports_colorgradient self) kw) in
         let* data := helper (get_frames objs (supports_colorgradient self)
                                         backend kw) in
         let kw := delete "animation" kw in
         do* emit (DisplayCalled (show_func self) zoom max_rows max_cols
                                 subplot_specs kw) in
         do* helper (get_show_func (show_func self) data zoom max_rows
                                   max_cols subplot_specs kw) in
         dret tt) w
    end.

(** The entry [_show] adds for the markers. *)
Definition markers_entry (markers : Value) : Dict :=
  <["objects" := v_list [MagpyMarkers markers]]>
    (<["row" := v_int 1]>
       (<["col" := v_int 1]> (<["output" := v_str "model3d"]> ∅))).

(** [_show], called with the objects [objs] and the keyword arguments
    [kw0]: [zoom=0], [animation=False], [markers=None] and [backend=None]
    are taken out of them. *)
Definition _show (objs : list Value) (kw0 : Dict) : DM unit :=
  let zoom := default (v_int 0) (kw0 !! "zoom") in
  let animation := default v_False (kw0 !! "animation") in
  let markers := default v_None (kw0 !! "markers") in
  let backend := default v_None (kw0 !! "backend") in
  let kw := delete "zoom" (delete "animation"
              (delete "markers" (delete "backend" kw0))) in
  let* out := helper (process_show_input_objs objs (rco_of kw)) in
  let '(objs, obj_list_flat, max_rows, max_cols, subplot_specs) := out in
  let kw := not_rco_of kw in
  do* helper (check_dimensions obj_list_flat) in
  do* helper (check_excitations obj_list_flat) in
  do* helper (test_path_format obj_list_flat) in
  let* backend := helper (check_format_input_backend backend) in
  do* helper (check_input_zoom zoom) in
  do* helper (check_input_animation animation) in
  do* helper (check_format_input_vector markers) in
  let* with_markers := helper (py_bool markers) in
  let objs := if with_markers
              then map v_dict objs ++ [v_dict (markers_entry markers)]
              else map v_dict objs in
  RegisterBackend_show objs backend zoom max_rows max_cols subplot_specs
    (<["animation" := animation]>
       (delete "max_rows" (delete "max_cols" (delete "subplot_specs" kw)))).

(** [show] with the objects [objs] and the keyword arguments [kw]. *)
Definition show (objs : list Value) (kw : Dict) : DM unit :=
  let* c := get_ctx in
  if isrunning c then
    let rco := rco_of kw in
    do* set_ctx (mkCtx (isrunning c) (objects c) (objects_from_ctx c)
                       (update (kwargs c) (not_rco_of kw)) (canvas c)) in
    let* c := get_ctx in
    let ctx_objects := map (fun o => v_dict (rco ∪ o)) (objects_from_ctx c) in
    let* out := helper (process_show_input_objs (ctx_objects ++ objs) rco) in
    let '(processed, _, _, _, _) := out in
    let* c := get_ctx in
    set_ctx (mkCtx (isrunning c) (objects c ++ processed)
                   (objects_from_ctx c) (kwargs c) (canvas c))
  else _show objs kw.

(** [show_context] with the objects [objs] and the keyword arguments [kw],
    around the block of the [with] statement. *)
Definition show_context (objs : list Value) (kw : Dict) (block : DM unit)
  : DM unit :=
  try_finally
    (let* c := get_ctx in
     do* set_ctx (mkCtx true (objects c) (objects_from_ctx c) (kwargs c)
                        (canvas c)) in
     let rco := rco_of kw in
     let* out := helper (process_show_input_objs objs rco) in
     let '(processed, _, _, _, _) := out in
     let* c := get_ctx in
     do* set_ctx (mkCtx (isrunning c) (objects c)
                        (objects_from_ctx c ++ processed)
                        (update (kwargs c) (not_rco_of kw)) (canvas c)) in
     do* block in
     let* c := get_ctx in
     _show (map v_dict (objects c)) (kwargs c))
    reset.

(** A block that only calls [show], once for every entry of [calls]. *)
Fixpoint shows (calls : list (list Value * Dict)) : DM unit :=
  match calls with
  | [] => dret tt
  | (objs, kw) :: rest => do* show objs kw in shows rest
  end.

End Functions2.

(** A small world: values are integers, every helper returns. *)
Definition zenv : DisplayEnv := {|
  Value := Z;
  Frames := list Z;
  PyErr := string;
  v_None := (-1)%Z;
  v_False := 0%Z;
  v_int := fun z => z;
  v_str := fun _ => 7%Z;
  v_list := fun _ => 8%Z;
  v_dict := fun _ => 9%Z;
  py_eq := Z.eqb;
  py_bool := fun v => Ok (negb ((v =? 0)%Z || (v =? -1)%Z));
  process_show_input_objs :=
    fun objs rco => Ok ([rco], objs, 1%Z, 1%Z, (-1)%Z);
  check_dimensions := fun _ => Ok tt;
  check_excitations := fun _ => Ok tt;
  test_path_format := fun _ => Ok tt;
  check_format_input_backend := fun _ => Ok "matplotlib";
  check_input_zoom := fun _ => Ok tt;
  check_input_animation := fun _ => Ok tt;
  check_format_input_vector := fun _ => Ok tt;
  MagpyMarkers := fun v => v;
  get_frames := fun objs _ _ _ => Ok objs;
  get_show_func := fun _ _ _ _ _ _ _ => Ok (-1)%Z
|}.

(** A context that is running, as inside a [with] block. *)
Definition running : World (E := zenv) :=
  mkWorld (E := zenv)
    (mkCtx (E := zenv) true [] [{["output" := v_str "model3d"]}] ∅ v_None)
    registered [].

End Display.

(** ** Lemmas on the array helpers *)

Section ArrayLemmas.
Context {A : Type}.
Implicit Types (l : list A) (ll : list (list A)).

Lemma chunks_length k n l : length (chunks k n l) = k.
Proof. revert l; induction k as [|k IH]; intros l; simpl; auto. Qed.

Lemma chunks_concat n ll :
  Forall (fun r => length r = n) ll ->
  chunks (length ll) n (concat ll) = ll.
Proof.
  induction 1 as [|r ll Hr _ IH]; simpl; [reflexivity|].
  rewrite take_app_length' by (symmetry; exact Hr).
  rewrite drop_app_length' by (symmetry; exact Hr).
  now rewrite IH.
Qed.

Lemma chunks_rows_length k n l :
  length l = k * n -> Forall (fun r => length r = n) (chunks k n l).
Proof.
  revert l; induction k as [|k IH]; intros l Hl; simpl; constructor.
  - rewrite length_take. lia.
  - apply IH. rewrite length_drop. lia.
Qed.

Lemma concat_chunks k n l : length l = k * n -> concat (chunks k n l) = l.
Proof.
  revert l; induction k as [|k IH]; intros l Hl; simpl.
  - destruct l; [reflexivity | discriminate].
  - rewrite IH by (rewrite length_drop; lia). apply take_drop.
Qed.

Lemma concat_length_const n ll :
  Forall (fun r => length r = n) ll -> length (concat ll) = length ll * n.
Proof.
  induction 1 as [|r ll Hr _ IH]; simpl; [reflexivity|].
  rewrite length_app, IH, Hr. reflexivity.
Qed.

Lemma np_tile_rows_length m l : length (np_tile_rows m l) = m * length l.
Proof.
  unfold np_tile_rows. induction m as [|m IH]; simpl; [reflexivity|].
  rewrite length_app, IH. reflexivity.
Qed.

Lemma np_tile_each_length n l : length (np_tile_each n l) = length l * n.
Proof.
  unfold np_tile_each. induction l as [|x l IH]; simpl; [reflexivity|].
  rewrite length_app, length_replicate, IH. reflexivity.
Qed.

Lemma np_tile_rows_single m (x : A) : np_tile_rows m [x] = replicate m x.
Proof.
  unfold np_tile_rows. induction m as [|m IH]; simpl; [reflexivity|].
  now rewrite IH.
Qed.

Lemma map_replicate {B} (f : A -> B) n (x : A) :
  map f (replicate n x) = replicate n (f x).
Proof. induction n as [|n IH]; simpl; congruence. Qed.

Lemma slice_map_id a w l : slice_map (fun x => x) a w l = l.
Proof.
  unfold slice_map. rewrite map_id, <- drop_drop.
  now rewrite (take_drop w (drop a l)), take_drop.
Qed.

Lemma slice_map_ext (f g : A -> A) a w l :
  (forall x, f x = g x) -> slice_map f a w l = slice_map g a w l.
Proof. intros H. unfold slice_map. f_equal. f_equal. apply map_ext, H. Qed.

Lemma slice_map_length (f : A -> A) a w l :
  length (slice_map f a w l) = length l.
Proof.
  unfold slice_map.
  rewrite !length_app, length_map, !length_take, !length_drop. lia.
Qed.

End ArrayLemmas.

(** ** The exact instance satisfies the laws *)

Module ZNumLaws.
Import ZNum.
Open Scope Z_scope.

#[export] Instance quat_eq : QuatEq numerics.
Proof.
  intros [[[a b] c] d] [[[e f] g] h]; cbn.
  rewrite !andb_true_iff, !Z.eqb_eq. split.
  - intros [[[-> ->] ->] ->]; reflexivity.
  - intros [= -> -> -> ->]; auto.
Qed.

#[export] Instance unit_rotation : UnitRotation numerics.
Proof. intros [[a b] c]; cbn. f_equal; [f_equal|]; ring. Qed.

#[export] Instance add_zero : AddZero numerics.
Proof. intros [[a b] c]; cbn. f_equal; [f_equal|]; ring. Qed.

#[export] Instance linear_rotation : LinearRotation numerics.
Proof.
  split.
  - intros [[[x y] z] w] [[a b] c] [[d e] f]; cbn. f_equal; [f_equal|]; ring.
  - intros [[[x y] z] w]; cbn. f_equal; [f_equal|]; ring.
Qed.

Close Scope Z_scope.

End ZNumLaws.

(** ** Batched dispatch computes the field of every source *)

Section DispatchLemmas.
Context {N : Numerics}.

Lemma rows5_app {A B C D E F} (f : A -> B -> C -> D -> E -> F)
    a1 a2 b1 b2 c1 c2 d1 d2 e1 e2 :
  length b1 = length a1 -> length c1 = length a1 ->
  length d1 = length a1 -> length e1 = length a1 ->
  rows5 f (a1 ++ a2) (b1 ++ b2) (c1 ++ c2) (d1 ++ d2) (e1 ++ e2)
  = rows5 f a1 b1 c1 d1 e1 ++ rows5 f a2 b2 c2 d2 e2.
Proof.
  revert b1 c1 d1 e1.
  induction a1 as [|x a1 IH]; intros [|y b1] [|z c1] [|u d1] [|v e1];
    simpl; try discriminate; intros Hb Hc Hd He; [reflexivity|].
  f_equal. apply IH; lia.
Qed.

Lemma rows5_replicate {A B C D E F} (f : A -> B -> C -> D -> E -> F)
    n x y z (row : list D) v :
  length row = n ->
  rows5 f (replicate n x) (replicate n y) (replicate n z) row (replicate n v)
  = map (fun u => f x y z u v) row.
Proof.
  revert row; induction n as [|n IH]; intros [|u row]; simpl;
    try discriminate; intros H; [reflexivity|].
  f_equal. apply IH. lia.
Qed.

Lemma rows5_length {A B C D E F} (f : A -> B -> C -> D -> E -> F)
    a b c d e :
  length b = length a -> length c = length a ->
  length d = length a -> length e = length a ->
  length (rows5 f a b c d e) = length a.
Proof.
  revert b c d e.
  induction a as [|x a IH]; intros [|y b] [|z c] [|u d] [|v e];
    simpl; try discriminate; intros Hb Hc Hd He; [reflexivity|].
  f_equal. apply IH; lia.
Qed.

Lemma rows5_one_source {A B F} (f : A -> B -> vec -> vec -> quat -> F)
    (x : A) (y : B) n (pos : list vec) :
  forall (rot : list quat) (m : nat) (poso : list vec),
  length pos = m -> length rot = m -> length poso = m * n ->
  rows5 f (replicate (m * n) x) (replicate (m * n) y)
        (np_tile_each n pos) poso (np_tile_each n rot)
  = concat (zip_with (fun pr row => map (fun po => f x y pr.1 po pr.2) row)
                     (zip pos rot) (chunks m n poso)).
Proof.
  induction pos as [|p pos IH]; intros [|r rot] [|m] poso Hp Hr Ho;
    simpl in *; try discriminate.
  - destruct poso; [reflexivity | discriminate].
  - rewrite !replicate_add.
    rewrite <- (take_drop n poso) at 1.
    change (np_tile_each n pos) with (flat_map (replicate n) pos).
    rewrite rows5_app; rewrite ?length_replicate, ?length_take; try lia.
    f_equal.
    + apply rows5_replicate. rewrite length_take. lia.
    + apply IH; try lia. rewrite length_drop. lia.
Qed.

Lemma world_field_rows bh ty src poso m n :
  length (_pos src) = m -> length (_rot src) = m -> length poso = m * n ->
  length (world_field bh ty src poso m n) = m
  /\ Forall (fun row => length row = n) (world_field bh ty src poso m n).
Proof.
  intros Hp Hr Ho. unfold world_field. split.
  - rewrite length_zip_with, length_zip, chunks_length. lia.
  - pose proof (chunks_rows_length m n poso Ho) as Hc.
    revert Hc. generalize (chunks m n poso). generalize (zip (_pos src) (_rot src)).
    intros ps cs. revert ps.
    induction cs as [|c cs IH]; intros [|q ps] Hc; simpl; try constructor.
    + rewrite length_map. now inversion Hc.
    + apply IH. now inversion Hc.
Qed.

Lemma rows5_group {T A B F} (f : A -> B -> vec -> vec -> quat -> F)
    (ca : T -> list A) (cb : T -> list B) (cc : T -> list vec)
    (ce : T -> list quat) (poso : list vec) (group : list T) :
  Forall (fun src => length (cb src) = length (ca src)
                     /\ length (cc src) = length (ca src)
                     /\ length poso = length (ca src)
                     /\ length (ce src) = length (ca src)) group ->
  rows5 f (flat_map ca group) (flat_map cb group) (flat_map cc group)
        (np_tile_rows (length group) poso) (flat_map ce group)
  = flat_map (fun src => rows5 f (ca src) (cb src) (cc src) poso (ce src)) group.
Proof.
  induction 1 as [|src group (Hb & Hc & Hd & He) _ IH]; [reflexivity|].
  simpl. change (np_tile_rows (S (length group)) poso)
    with (poso ++ np_tile_rows (length group) poso).
  rewrite rows5_app by assumption. now rewrite IH.
Qed.

Lemma flat_map_ext_Forall {A B} (f g : A -> list B) (l : list A) :
  Forall (fun x => f x = g x) l -> flat_map f l = flat_map g l.
Proof. induction 1 as [|x l Hx _ IH]; simpl; congruence. Qed.

(** The columns of the two dicts, row-wise: every source of the group
    contributes its field at every path step and observer position. *)
Lemma getBH_level1_group bh ty group poso m n d :
  Forall (fun src => src_type_of src = Some ty
                     /\ length (_pos src) = m /\ length (_rot src) = m) group ->
  length poso = m * n ->
  (match ty with
   | Dipole =>
       DipoleDict
         (flat_map (fun src => replicate (m * n) (excitation src)) group)
         (flat_map (fun src => np_tile_each n (_pos src)) group)
         (np_tile_rows (length group) poso)
         (flat_map (fun src => np_tile_each n (_rot src)) group)
   | _ =>
       HomoMagDict
         (flat_map (fun src => replicate (m * n) (excitation src)) group)
         (flat_map (fun src => flat_map (replicate (m * n)) (dim_list src)) group)
         (flat_map (fun src => np_tile_each n (_pos src)) group)
         (np_tile_rows (length group) poso)
         (flat_map (fun src => np_tile_each n (_rot src)) group)
   end) = d ->
  getBH_level1 bh ty d
  = flat_map (fun src => concat (world_field bh ty src poso m n)) group.
Proof.
  intros Hg Ho Hd.
  assert (Hcols : rows5 (level1_row bh ty)
            (flat_map (fun src => replicate (m * n) (excitation src)) group)
            (flat_map (fun src => replicate (m * n) (dim_of src)) group)
            (flat_map (fun src => np_tile_each n (_pos src)) group)
            (np_tile_rows (length group) poso)
            (flat_map (fun src => np_tile_each n (_rot src)) group)
          = flat_map (fun src => concat (world_field bh ty src poso m n)) group).
  { rewrite rows5_group.
    - apply flat_map_ext_Forall. eapply Forall_impl; [exact Hg|].
      intros src (_ & Hp & Hr). cbn beta. unfold world_field.
      now apply rows5_one_source.
    - eapply Forall_impl; [exact Hg|]. intros src (_ & Hp & Hr). cbn beta.
      rewrite !length_replicate, !np_tile_each_length. lia. }
  rewrite <- Hcols. subst d.
  assert (Hlen : forall g : list Obj,
            length (flat_map (fun src => replicate (m * n) (excitation src)) g)
            = length g * (m * n)).
  { induction g as [|x g IH]; simpl; [reflexivity|].
    rewrite length_app, length_replicate, IH. reflexivity. }
  destruct ty; simpl; f_equal.
  1-3: clear Hcols; induction Hg as [|src g (Ht & _) _ IH]; simpl;
       [reflexivity|]; rewrite map_app, IH; f_equal;
       unfold dim_list, dim_of, src_type_of in *;
       destruct (attrs src); try discriminate; simpl;
       rewrite ?app_nil_r; apply map_replicate.
  rewrite Hlen. clear Hcols.
  induction Hg as [|src g (Ht & _) _ IH]; simpl; [reflexivity|].
  rewrite replicate_add, IH. f_equal.
  unfold dim_of, src_type_of in *. destruct (attrs src); try discriminate.
  reflexivity.
Qed.

Lemma reshape_group_ok {T} (F : T -> Slice) (group : list T) m n :
  Forall (fun src => length (F src) = m
                     /\ Forall (fun row => length row = n) (F src)) group ->
  reshape_group (length group) m n (flat_map (fun src => concat (F src)) group)
  = Return (map F group).
Proof.
  intros HF. unfold reshape_group.
  assert (Hrows : Forall (fun r => length r = m * n)
                         (map (fun src => concat (F src)) group)).
  { apply Forall_map. eapply Forall_impl; [exact HF|].
    intros src [Hm Hn]. cbn beta. rewrite (concat_length_const n) by exact Hn.
    now rewrite Hm. }
  rewrite flat_map_concat_map.
  rewrite (concat_length_const (m * n)) by exact Hrows.
  rewrite length_map, <- Nat.mul_assoc, Nat.eqb_refl. f_equal.
  rewrite <- (length_map (fun src => concat (F src)) group) at 1.
  rewrite chunks_concat by exact Hrows.
  rewrite map_map. clear Hrows.
  induction HF as [|src group [Hm Hn] _ IH]; simpl; [reflexivity|].
  f_equal; [|exact IH]. rewrite <- Hm. now apply chunks_concat.
Qed.

Lemma tile_fits_ok m n (group : list Obj) :
  Forall (fun src => length (_pos src) = m /\ length (_rot src) = m) group ->
  tile_fits n (m * n) group = true.
Proof.
  intros H. unfold tile_fits. apply forallb_forall. intros src Hin.
  rewrite Forall_forall in H. destruct (H src) as [Hp Hr].
  { now apply list_elem_of_In. }
  rewrite Hp, Hr, Nat.eqb_refl. reflexivity.
Qed.

Lemma scr_dict_ok m n (g0 : Obj) (group' : list Obj) poso :
  Forall (fun src => length (_pos src) = m /\ length (_rot src) = m)
         (g0 :: group') ->
  length poso = m * n -> 0 < m ->
  let group := g0 :: group' in
  scr_dict_homo_mag group poso
  = Return (HomoMagDict
      (flat_map (fun src => replicate (m * n) (excitation src)) group)
      (flat_map (fun src => flat_map (replicate (m * n)) (dim_list src)) group)
      (flat_map (fun src => np_tile_each n (_pos src)) group)
      (np_tile_rows (length group) poso)
      (flat_map (fun src => np_tile_each n (_rot src)) group))
  /\ scr_dict_dipole group poso
  = Return (DipoleDict
      (flat_map (fun src => replicate (m * n) (excitation src)) group)
      (flat_map (fun src => np_tile_each n (_pos src)) group)
      (np_tile_rows (length group) poso)
      (flat_map (fun src => np_tile_each n (_rot src)) group)).
Proof.
  intros Hg Ho Hm group.
  assert (Hn : length poso / length (_pos g0) = n).
  { pose proof (Forall_inv Hg) as [Hp _]. cbn beta in Hp.
    rewrite Hp, Ho, Nat.mul_comm. apply Nat.div_mul. lia. }
  assert (Hfits : tile_fits n (length poso) group = true).
  { rewrite Ho. now apply tile_fits_ok. }
  unfold scr_dict_homo_mag, scr_dict_dipole. subst group. cbn iota.
  rewrite Hn, Hfits, Ho. split; reflexivity.
Qed.

(** A group is evaluated by one call of [getBH_level1] (none when it is
    empty), and its rows are written to the indices in [order]. *)
Lemma eval_group_ok bh st ty g poso m n B s refs :
  refs = default [] (src_sorted g !! group_index ty) ->
  Forall (fun r => src_type_of (deref st r) = Some ty
                   /\ length (_pos (deref st r)) = m
                   /\ length (_rot (deref st r)) = m) refs ->
  length poso = m * n -> 0 < m ->
  eval_group bh st ty g poso m n B s
  = (Return (scatter (default [] (order g !! group_index ty))
                     (map (source_field bh st poso m n) refs) B),
     logged s (match refs with [] => [] | _ => [ty] end)).
Proof.
  intros Erefs Hrefs Ho Hm. unfold eval_group. rewrite <- Erefs. clear Erefs.
  destruct refs as [|r0 refs'].
  { simpl. unfold ret, scatter, logged. rewrite zip_with_nil_r. simpl.
    rewrite app_nil_r. now destruct s. }
  assert (Hg : Forall (fun src => src_type_of src = Some ty
                      /\ length (_pos src) = m /\ length (_rot src) = m)
                      (map (deref st) (r0 :: refs'))).
  { apply Forall_map. exact Hrefs. }
  assert (Hfield : map (source_field bh st poso m n) (r0 :: refs')
                   = map (fun src => world_field bh ty src poso m n)
                         (map (deref st) (r0 :: refs'))).
  { rewrite map_map. apply map_ext_Forall.
    eapply Forall_impl; [exact Hrefs|]. intros r (Ht & _). cbn beta.
    unfold source_field. now rewrite Ht. }
  rewrite Hfield.
  assert (Hrs : reshape_group (length (map (deref st) (r0 :: refs'))) m n
                  (flat_map (fun src => concat (world_field bh ty src poso m n))
                            (map (deref st) (r0 :: refs')))
                = Return (map (fun src => world_field bh ty src poso m n)
                              (map (deref st) (r0 :: refs')))).
  { apply reshape_group_ok. eapply Forall_impl; [exact Hg|].
    intros src (_ & Hp & Hr). now apply world_field_rows. }
  destruct (scr_dict_ok m n (deref st r0) (map (deref st) refs') poso)
    as [Hh Hd]; try assumption.
  { eapply Forall_impl; [exact Hg|]. now intros src (_ & H). }
  change (deref st r0 :: map (deref st) refs')
    with (map (deref st) (r0 :: refs')) in Hh, Hd.
  remember (map (deref st) (r0 :: refs')) as group eqn:Egroup.
  destruct group as [|g0 group']; [discriminate|].
  unfold bind, lift, log_level1, ret, logged.
  destruct ty; rewrite ?Hh, ?Hd;
    (erewrite getBH_level1_group; [ | exact Hg | exact Ho | reflexivity ]);
    rewrite Hrs; reflexivity.
Qed.

End DispatchLemmas.

(** ** Grouping and scattering restore the order of the sources *)

Section ScatterLemmas.
Context {N : Numerics}.

Lemma SrcType_eqb_eq a b : SrcType_eqb a b = true <-> a = b.
Proof. destruct a, b; simpl; split; congruence. Qed.

Lemma group_index_inj a b : group_index a = group_index b -> a = b.
Proof. destruct a, b; simpl; congruence. Qed.

Lemma group_sources_ok st src_list :
  Forall (recognized st) src_list ->
  forall i g, length (src_sorted g) = 4 -> length (order g) = 4 ->
  exists g', group_sources st i src_list g = Return g'
    /\ length (src_sorted g') = 4 /\ length (order g') = 4
    /\ forall ty,
         default [] (src_sorted g' !! group_index ty)
         = default [] (src_sorted g !! group_index ty)
           ++ map snd (typed_entries st ty i src_list)
         /\ default [] (order g' !! group_index ty)
         = default [] (order g !! group_index ty)
           ++ map fst (typed_entries st ty i src_list).
Proof.
  induction 1 as [|r rest Hr _ IH]; intros i g Hs Ho; simpl.
  - exists g. repeat split; auto; now rewrite app_nil_r.
  - unfold recognized in Hr.
    destruct (src_type_of (deref st r)) as [ty0|] eqn:Et; [|congruence].
    destruct (IH (S i) (mkGroups
        (alter (fun l => l ++ [r]) (group_index ty0) (src_sorted g))
        (alter (fun l => l ++ [i]) (group_index ty0) (order g))))
      as (g' & Hg' & Hs' & Ho' & Hty).
    { simpl. now rewrite length_alter. }
    { simpl. now rewrite length_alter. }
    exists g'. repeat split; auto.
    + destruct (Hty ty) as [H1 _]. rewrite H1. simpl.
      destruct (SrcType_eqb ty0 ty) eqn:E.
      * apply SrcType_eqb_eq in E. subst ty0.
        rewrite list_lookup_alter_eq.
        destruct (src_sorted g !! group_index ty) eqn:El; simpl.
        -- now rewrite <- app_assoc.
        -- apply lookup_ge_None in El. destruct ty; simpl in El; lia.
      * rewrite list_lookup_alter_ne; [reflexivity|].
        intros Heq. apply group_index_inj in Heq. subst.
        destruct ty; discriminate.
    + destruct (Hty ty) as [_ H2]. rewrite H2. simpl.
      destruct (SrcType_eqb ty0 ty) eqn:E.
      * apply SrcType_eqb_eq in E. subst ty0.
        rewrite list_lookup_alter_eq.
        destruct (order g !! group_index ty) eqn:El; simpl.
        -- now rewrite <- app_assoc.
        -- apply lookup_ge_None in El. destruct ty; simpl in El; lia.
      * rewrite list_lookup_alter_ne; [reflexivity|].
        intros Heq. apply group_index_inj in Heq. subst.
        destruct ty; discriminate.
Qed.

Lemma typed_entries_spec st ty src_list : forall i j r,
  In (j, r) (typed_entries st ty i src_list)
  <-> i <= j /\ src_list !! (j - i) = Some r
      /\ src_type_of (deref st r) = Some ty.
Proof.
  induction src_list as [|r0 rest IH]; intros i j r; simpl.
  - split; [tauto|]. intros (_ & H & _). discriminate.
  - assert (Hrest : In (j, r) (typed_entries st ty (S i) rest)
                    <-> i < j /\ rest !! (j - S i) = Some r
                        /\ src_type_of (deref st r) = Some ty).
    { rewrite IH. reflexivity. }
    assert (Hcons : forall (x : ref), i < j ->
              (r0 :: rest) !! (j - i) = Some x <-> rest !! (j - S i) = Some x).
    { intros x Hlt. replace (j - i) with (S (j - S i)) by lia. reflexivity. }
    destruct (src_type_of (deref st r0)) as [ty'|] eqn:Et.
    + destruct (SrcType_eqb ty' ty) eqn:E.
      * apply SrcType_eqb_eq in E. subst ty'. simpl. rewrite Hrest. split.
        -- intros [[= <- <-]|(Hlt & Hl & Ht)].
           ++ rewrite Nat.sub_diag. simpl. auto.
           ++ rewrite Hcons by lia. split; [lia|auto].
        -- intros (Hle & Hl & Ht).
           destruct (decide (i = j)) as [->|Hne].
           ++ rewrite Nat.sub_diag in Hl. simpl in Hl. left. congruence.
           ++ right. rewrite Hcons in Hl by lia. split; [lia|auto].
      * rewrite Hrest. split.
        -- intros (Hlt & Hl & Ht). rewrite Hcons by lia. split; [lia|auto].
        -- intros (Hle & Hl & Ht).
           destruct (decide (i = j)) as [->|Hne].
           ++ rewrite Nat.sub_diag in Hl. simpl in Hl.
              injection Hl as ->. rewrite Et in Ht. injection Ht as ->.
              destruct ty; discriminate.
           ++ rewrite Hcons in Hl by lia. split; [lia|auto].
    + rewrite Hrest. split.
      * intros (Hlt & Hl & Ht). rewrite Hcons by lia. split; [lia|auto].
      * intros (Hle & Hl & Ht).
        destruct (decide (i = j)) as [->|Hne].
        -- rewrite Nat.sub_diag in Hl. simpl in Hl. congruence.
        -- rewrite Hcons in Hl by lia. split; [lia|auto].
Qed.

Lemma scatter_entries (f : ref -> Slice) (E : list (nat * ref)) (B : list Slice) :
  scatter (map fst E) (map f (map snd E)) B
  = fold_left (fun B e => <[e.1 := f e.2]> B) E B.
Proof.
  unfold scatter. revert B. induction E as [|e E IH]; intros B; simpl.
  - reflexivity.
  - apply IH.
Qed.

Lemma fold_insert_length (f : ref -> Slice) E (B : list Slice) :
  length (fold_left (fun B e => <[e.1 := f e.2]> B) E B) = length B.
Proof.
  revert B. induction E as [|e E IH]; intros B; simpl; [reflexivity|].
  rewrite IH. apply length_insert.
Qed.

Lemma fold_insert_notin (f : ref -> Slice) E (B : list Slice) j :
  ~ In j (map fst E) ->
  fold_left (fun B e => <[e.1 := f e.2]> B) E B !! j = B !! j.
Proof.
  revert B. induction E as [|e E IH]; intros B Hj; simpl in *; [reflexivity|].
  rewrite IH by tauto. apply list_lookup_insert_ne. tauto.
Qed.

Lemma fold_insert_in (f : ref -> Slice) E (B : list Slice) j v :
  (forall e, In e E -> e.1 = j -> f e.2 = v) ->
  In j (map fst E) -> j < length B ->
  fold_left (fun B e => <[e.1 := f e.2]> B) E B !! j = Some v.
Proof.
  revert B. induction E as [|e E IH]; intros B Hv Hj Hlt; simpl in *; [tauto|].
  destruct (in_dec Nat.eq_dec j (map fst E)) as [Hin|Hnin].
  - apply IH; [intros e' He'; apply Hv; now right | exact Hin |].
    now rewrite length_insert.
  - rewrite fold_insert_notin by exact Hnin.
    destruct Hj as [Hj|Hj]; [|tauto]. subst j.
    rewrite list_lookup_insert_eq by exact Hlt. f_equal. apply Hv; auto.
Qed.

(** One scatter writes the rows of the sources of its family, each at the
    index of the source in [src_list], and leaves the other rows alone. *)
Lemma scatter_step st (f : ref -> Slice) src_list ty (B : list Slice) j r tyj :
  src_list !! j = Some r -> src_type_of (deref st r) = Some tyj ->
  length B = length src_list ->
  let E := typed_entries st ty 0 src_list in
  let B' := scatter (map fst E) (map f (map snd E)) B in
  B' !! j = (if SrcType_eqb ty tyj then Some (f r) else B !! j).
Proof.
  intros Hj Ht HB E B'. subst B'. rewrite scatter_entries.
  assert (Hlt : j < length B).
  { rewrite HB. eapply lookup_lt_Some. exact Hj. }
  destruct (SrcType_eqb ty tyj) eqn:Eq.
  - apply SrcType_eqb_eq in Eq. subst tyj.
    apply fold_insert_in; auto.
    + intros [j' r'] Hin Hj'. simpl in *. subst j'.
      apply typed_entries_spec in Hin. destruct Hin as (_ & Hl & _).
      rewrite Nat.sub_0_r in Hl. congruence.
    + apply in_map_iff. exists (j, r). split; [reflexivity|].
      apply typed_entries_spec. rewrite Nat.sub_0_r. split; [lia|auto].
  - apply fold_insert_notin. intros Hin. apply in_map_iff in Hin.
    destruct Hin as ([j' r'] & Hj' & Hin). simpl in Hj'. subst j'.
    apply typed_entries_spec in Hin. destruct Hin as (_ & Hl & Ht').
    rewrite Nat.sub_0_r in Hl.
    assert (r' = r) by congruence. subst r'.
    assert (ty = tyj) by congruence. subst tyj.
    destruct ty; discriminate.
Qed.

Lemma scatter_length (ord : list nat) (vals B : list Slice) :
  length (scatter ord vals B) = length B.
Proof.
  unfold scatter. generalize (zip ord vals). intros E. revert B.
  induction E as [|e E IH]; intros B; simpl; [reflexivity|].
  rewrite IH. apply length_insert.
Qed.

Lemma logged_logged s a b : logged (logged s a) b = logged s (a ++ b).
Proof. unfold logged. simpl. now rewrite app_assoc. Qed.

Lemma typed_entries_Forall st ty src_list (P : ref -> Prop) :
  Forall P src_list ->
  Forall (fun r => src_type_of (deref st r) = Some ty /\ P r)
         (map snd (typed_entries st ty 0 src_list)).
Proof.
  intros HP. apply Forall_forall. intros r Hin.
  apply list_elem_of_In, in_map_iff in Hin.
  destruct Hin as ([j r'] & Hr & Hin). simpl in Hr. subst r'.
  apply typed_entries_spec in Hin. destruct Hin as (_ & Hl & Ht).
  split; [exact Ht|].
  rewrite Forall_forall in HP. apply HP.
  eapply list_elem_of_lookup_2. exact Hl.
Qed.

(** After the four groups are evaluated, row [i] of the tensor is the field
    of source [i] of the flattened list. *)
Lemma eval_groups_ok bh st src_list g poso m n (B0 : list Slice) s :
  Forall (recognized st) src_list ->
  Forall (fun r => length (_pos (deref st r)) = m
                   /\ length (_rot (deref st r)) = m) src_list ->
  group_sources st 0 src_list no_groups = Return g ->
  length poso = m * n -> 0 < m -> length B0 = length src_list ->
  eval_groups bh st g poso m n B0 s
  = (Return (map (source_field bh st poso m n) src_list),
     logged s (used_types st src_list)).
Proof.
  intros Hrec Hlen Hg Ho Hm HB0.
  destruct (group_sources_ok st src_list Hrec 0 no_groups eq_refl eq_refl)
    as (g' & Hg' & _ & _ & Hty).
  assert (g' = g) by congruence. subst g'. clear Hg'.
  assert (Hsrc : forall ty, default [] (src_sorted g !! group_index ty)
                            = map snd (typed_entries st ty 0 src_list)).
  { intros ty. destruct (Hty ty) as [H _]. rewrite H. now destruct ty. }
  assert (Hord : forall ty, default [] (order g !! group_index ty)
                            = map fst (typed_entries st ty 0 src_list)).
  { intros ty. destruct (Hty ty) as [_ H]. rewrite H. now destruct ty. }
  assert (Hgrp : forall ty,
            Forall (fun r => src_type_of (deref st r) = Some ty
                             /\ length (_pos (deref st r)) = m
                             /\ length (_rot (deref st r)) = m)
                   (map snd (typed_entries st ty 0 src_list))).
  { intros ty. apply (typed_entries_Forall st ty src_list _ Hlen). }
  unfold eval_groups, bind, ret.
  rewrite (eval_group_ok bh st Box g poso m n B0 s _ (eq_sym (Hsrc Box)))
    by auto.
  rewrite (eval_group_ok bh st Cylinder g poso m n _ _ _ (eq_sym (Hsrc Cylinder)))
    by auto.
  rewrite (eval_group_ok bh st Sphere g poso m n _ _ _ (eq_sym (Hsrc Sphere)))
    by auto.
  rewrite (eval_group_ok bh st Dipole g poso m n _ _ _ (eq_sym (Hsrc Dipole)))
    by auto.
  rewrite !logged_logged, !Hord.
  f_equal.
  - f_equal. apply list_eq. intros j.
    rewrite list_lookup_fmap.
    destruct (src_list !! j) as [r|] eqn:Ej; simpl.
    + pose proof (proj1 (Forall_forall _ _) Hrec r
                    (list_elem_of_lookup_2 _ _ _ Ej)) as Hr.
      unfold recognized in Hr.
      destruct (src_type_of (deref st r)) as [tyj|] eqn:Et; [|congruence].
      rewrite (scatter_step st _ src_list Dipole _ j r tyj Ej Et)
        by (rewrite !scatter_length; exact HB0).
      rewrite (scatter_step st _ src_list Sphere _ j r tyj Ej Et)
        by (rewrite !scatter_length; exact HB0).
      rewrite (scatter_step st _ src_list Cylinder _ j r tyj Ej Et)
        by (rewrite !scatter_length; exact HB0).
      rewrite (scatter_step st _ src_list Box _ j r tyj Ej Et)
        by exact HB0.
      destruct tyj; reflexivity.
    + apply lookup_ge_None. rewrite !scatter_length, HB0.
      now apply lookup_ge_None.
  - unfold used_types. simpl. rewrite app_nil_r.
    f_equal. f_equal.
    all: repeat match goal with
         | |- context [match map snd ?E with _ => _ end] => destruct E; simpl
         end; reflexivity.
Qed.

End ScatterLemmas.

(** ** Summing the members of the Collections *)

Section CollectionLemmas.
Context {N : Numerics}.

Lemma sum_collections_ok m n (F : ref -> Slice) (rest : list TopSrc) :
  Forall nonempty_top rest ->
  forall pre : list Slice,
  sum_collections m n (length pre) rest
    (pre ++ map F (format_obj_input rest))
  = Return (pre ++ map (top_field m n F) rest).
Proof.
  induction 1 as [|top rest Htop _ IH]; intros pre; simpl.
  - reflexivity.
  - destruct top as [r|ss]; simpl.
    + specialize (IH (pre ++ [F r])).
      rewrite length_app, Nat.add_1_r, <- !app_assoc in IH. exact IH.
    + destruct ss as [|s0 ss']; [now simpl in Htop|].
      rewrite map_app.
      set (R := map F (format_obj_input rest)).
      set (X := np_sum_slices m n (map F (s0 :: ss'))).
      assert (Hlt : (length pre <? length (pre ++ map F (s0 :: ss') ++ R))
                    = true).
      { apply Nat.ltb_lt. rewrite length_app. simpl. lia. }
      rewrite Hlt.
      rewrite drop_app_length.
      rewrite take_app_length' by (now rewrite length_map).
      fold X.
      assert (Hins : <[length pre := X]> (pre ++ map F (s0 :: ss') ++ R)
                     = (pre ++ [X]) ++ map F ss' ++ R).
      { simpl. rewrite insert_app_r_alt by lia. rewrite Nat.sub_diag. simpl.
        now rewrite <- app_assoc. }
      rewrite Hins.
      replace (Nat.max (S (length pre)) (length pre + length (s0 :: ss')))
        with (length (pre ++ [X]) + length (map F ss'))
        by (rewrite length_app, length_map; simpl; lia).
      replace (S (length pre)) with (length (pre ++ [X]))
        by (rewrite length_app; simpl; lia).
      rewrite take_app_length.
      rewrite <- drop_drop, drop_app_length, drop_app_length.
      subst R. rewrite (IH (pre ++ [X])), <- app_assoc. reflexivity.
Qed.

Lemma row_add_zeros `{!AddZero N} (row : list vec) :
  zip_with vadd row (replicate (length row) vzero) = row.
Proof.
  induction row as [|v row IH]; simpl; [reflexivity|].
  now rewrite vadd_zero_r, IH.
Qed.

Lemma slice_add_zeros `{!AddZero N} m n (sl : Slice) :
  slice_shape m n sl -> slice_add sl (zeros m n) = sl.
Proof.
  intros [Hm Hn]. subst m. unfold slice_add, zeros.
  induction Hn as [|row sl Hrow _ IH]; simpl; [reflexivity|].
  f_equal; [|exact IH]. rewrite <- Hrow. apply row_add_zeros.
Qed.

(** When no Collection has more than one member the tensor is left as it
    is: every Collection is its only member. *)
Lemma no_sum_needed `{!AddZero N} m n (F : ref -> Slice) (sources : list TopSrc) :
  Forall nonempty_top sources ->
  Forall (fun r => slice_shape m n (F r)) (format_obj_input sources) ->
  length (format_obj_input sources) <= length sources ->
  map F (format_obj_input sources) = map (top_field m n F) sources.
Proof.
  intros Hne. induction Hne as [|top rest Htop Hrest IH]; simpl;
    [reflexivity|].
  assert (Hge : length rest <= length (format_obj_input rest)).
  { clear - Hrest. induction Hrest as [|t r Ht _ IH]; simpl; [lia|].
    rewrite length_app. destruct t as [|[|]]; simpl in *; try lia.
    congruence. }
  rewrite length_app. intros HF Hle.
  apply Forall_app in HF as [HF1 HF2].
  destruct top as [r|ss]; simpl in *.
  - f_equal. apply IH; [exact HF2 | lia].
  - destruct ss as [|s0 [|s1 ss']]; simpl in *; try congruence; try lia.
    f_equal; [|apply IH; [exact HF2 | lia]].
    symmetry. apply slice_add_zeros. now apply Forall_inv in HF1.
Qed.

End CollectionLemmas.

(** ** The three ways of rotating into the frame of a sensor *)

Section RotationLemmas.
Context {N : Numerics}.

Lemma steps_slice_length g js sl : length (steps_slice g js sl) = length sl.
Proof.
  unfold steps_slice. revert sl.
  induction js as [|j js IH]; intros sl; simpl; [reflexivity|].
  rewrite IH. apply length_alter.
Qed.

Lemma steps_slice_lookup g js : forall sl j,
  NoDup js ->
  steps_slice g js sl !! j
  = if bool_decide (j ∈ js) then g j <$> sl !! j else sl !! j.
Proof.
  unfold steps_slice.
  induction js as [|j0 js IH]; intros sl j Hnd; simpl.
  - reflexivity.
  - apply NoDup_cons in Hnd as [Hnotin Hnd].
    rewrite IH by exact Hnd.
    destruct (decide (j = j0)) as [->|Hne].
    + rewrite (bool_decide_eq_false_2 _ Hnotin).
      rewrite bool_decide_eq_true_2 by (left).
      apply list_lookup_alter_eq.
    + rewrite list_lookup_alter_ne by congruence.
      destruct (bool_decide (j ∈ js)) eqn:E.
      * apply bool_decide_eq_true in E.
        rewrite bool_decide_eq_true_2 by (now right). reflexivity.
      * apply bool_decide_eq_false in E.
        rewrite bool_decide_eq_false_2; [reflexivity|].
        intros Hin. apply elem_of_cons in Hin. tauto.
Qed.

Lemma steps_slice_seq g sl :
  steps_slice g (seq 0 (length sl)) sl = imap g sl.
Proof.
  apply list_eq. intros j.
  rewrite steps_slice_lookup by apply NoDup_seq.
  rewrite list_lookup_imap.
  destruct (sl !! j) as [row|] eqn:E; simpl.
  - rewrite bool_decide_eq_true_2; [reflexivity|].
    apply elem_of_seq. apply lookup_lt_Some in E. lia.
  - now destruct (bool_decide _).
Qed.

Lemma rotate_steps_ok l0 n k_pixel i sens js :
  forall B : Tensor,
  part_fits l0 n k_pixel i B = true ->
  Forall (fun j => j < length (_rot sens)) js ->
  rotate_steps l0 n k_pixel i sens js B
  = Return (map (steps_slice (step_frame k_pixel i sens) js) B).
Proof.
  induction js as [|j js IH]; intros B Hfit Hjs; simpl.
  - unfold steps_slice. simpl. now rewrite map_id.
  - rewrite Hfit.
    apply Forall_cons in Hjs as [Hj Hjs].
    destruct (_rot sens !! j) as [q|] eqn:Eq.
    2:{ apply lookup_ge_None in Eq. lia. }
    rewrite IH; auto.
    + rewrite map_map. f_equal. apply map_ext. intros sl.
      unfold steps_slice. simpl. f_equal.
      apply list_alter_ext; [|reflexivity]. intros row _.
      unfold step_frame. now rewrite Eq.
    + unfold part_fits in *. now rewrite length_map.
Qed.

Lemma imap_ext_lookup {A B} (f g : nat -> A -> B) (l : list A) :
  (forall j x, l !! j = Some x -> f j x = g j x) -> imap f l = imap g l.
Proof.
  intros H. apply list_eq. intros j. rewrite !list_lookup_imap.
  destruct (l !! j) as [x|] eqn:E; simpl; [|reflexivity].
  f_equal. now apply H.
Qed.

Lemma imap_id_lookup {A} (f : nat -> A -> A) (l : list A) :
  (forall j x, l !! j = Some x -> f j x = x) -> imap f l = l.
Proof.
  intros H. apply list_eq. intros j. rewrite list_lookup_imap.
  destruct (l !! j) as [x|] eqn:E; simpl; [|reflexivity].
  f_equal. now apply H.
Qed.

(** Skipping an unrotated sensor, rotating a statically oriented one in one
    batch, and rotating step by step all take the part of the sensor into
    the frame the sensor has at each step. *)
Lemma rotate_sensor_ok `{!QuatEq N} `{!UnitRotation N}
    l0 m n k_pixel i sens unrot static (B : Tensor) :
  flags_sound unrot static sens ->
  length (_rot sens) = m -> 0 < m ->
  part_fits l0 n k_pixel i B = true ->
  Forall (fun sl => length sl = m) B ->
  rotate_sensor l0 m n k_pixel i sens unrot static B
  = Return (sensor_frame k_pixel i sens B).
Proof.
  intros [Hun Hst] Hrot Hm Hfit HB. unfold rotate_sensor, sensor_frame.
  destruct unrot; simpl.
  - f_equal. symmetry. rewrite <- (map_id B) at 2.
    apply map_ext. intros sl. apply imap_id_lookup. intros j row _.
    unfold step_frame. destruct (_rot sens !! j) as [q|] eqn:Eq; [|reflexivity].
    specialize (Hun eq_refl). rewrite Forall_forall in Hun.
    rewrite (Hun q) by (eapply list_elem_of_lookup_2; exact Eq).
    unfold rotate_part.
    rewrite (slice_map_ext _ (fun x => x)) by apply rot_apply_unit.
    apply slice_map_id.
  - destruct static.
    + rewrite Hfit. destruct (_rot sens) as [|q0 rots] eqn:Er.
      { simpl in Hrot. lia. }
      f_equal. apply map_ext_Forall. eapply Forall_impl; [exact HB|].
      intros sl Hsl. cbn beta.
      change (map (rotate_part q0 i k_pixel) sl)
        with (rotate_part q0 i k_pixel <$> sl).
      rewrite <- (imap_const (rotate_part q0 i k_pixel)).
      apply imap_ext_lookup. intros j row Hj.
      unfold step_frame. rewrite Er.
      destruct ((q0 :: rots) !! j) as [q|] eqn:Eq.
      * destruct (Hst eq_refl) as [q' Hq']. rewrite Forall_forall in Hq'.
        rewrite (Hq' q) by (eapply list_elem_of_lookup_2; exact Eq).
        rewrite (Hq' q0) by left. reflexivity.
      * apply lookup_ge_None in Eq. apply lookup_lt_Some in Hj.
        simpl in *. lia.
    + rewrite rotate_steps_ok; auto.
      * f_equal. apply map_ext_Forall. eapply Forall_impl; [exact HB|].
        intros sl Hsl. cbn beta. rewrite <- Hsl. apply steps_slice_seq.
      * apply Forall_forall. intros j Hj. apply elem_of_seq in Hj. lia.
Qed.

Lemma sensor_frame_unrotated `{!UnitRotation N} k_pixel i sens (B : Tensor) :
  Forall (fun q => q = unitQ) (_rot sens) ->
  sensor_frame k_pixel i sens B = B.
Proof.
  intros Hun. unfold sensor_frame. rewrite <- (map_id B) at 2.
  apply map_ext. intros sl. apply imap_id_lookup. intros j row _.
  unfold step_frame. destruct (_rot sens !! j) as [q|] eqn:Eq; [|reflexivity].
  rewrite Forall_forall in Hun.
  rewrite (Hun q) by (eapply list_elem_of_lookup_2; exact Eq).
  unfold rotate_part.
  rewrite (slice_map_ext _ (fun x => x)) by apply rot_apply_unit.
  apply slice_map_id.
Qed.

Lemma sensor_frame_shape k_pixel i sens m n (B : Tensor) :
  Forall (slice_shape m n) B ->
  Forall (slice_shape m n) (sensor_frame k_pixel i sens B).
Proof.
  intros HB. unfold sensor_frame. apply Forall_map.
  eapply Forall_impl; [exact HB|]. intros sl [Hm Hn]. cbn beta. split.
  - now rewrite length_imap.
  - apply Forall_forall. intros row Hin.
    apply list_elem_of_lookup in Hin. destruct Hin as [j Hj].
    rewrite list_lookup_imap in Hj.
    destruct (sl !! j) as [row0|] eqn:E; simpl in Hj; [|discriminate].
    injection Hj as <-.
    rewrite Forall_forall in Hn.
    specialize (Hn row0 (list_elem_of_lookup_2 _ _ _ E)).
    unfold step_frame. destruct (_rot sens !! j); [|exact Hn].
    unfold rotate_part. now rewrite slice_map_length.
Qed.

Lemma sensors_frame_shape k_pixel m n sensors : forall i (B : Tensor),
  Forall (slice_shape m n) B ->
  Forall (slice_shape m n) (sensors_frame k_pixel i sensors B)
  /\ length (sensors_frame k_pixel i sensors B) = length B.
Proof.
  induction sensors as [|sens rest IH]; intros i B HB; simpl; [auto|].
  destruct (IH (S i) (sensor_frame k_pixel i sens B)) as [H1 H2].
  { now apply sensor_frame_shape. }
  split; [exact H1|]. rewrite H2. unfold sensor_frame. apply length_map.
Qed.

Lemma apply_sensor_rotations_ok `{!QuatEq N} `{!UnitRotation N}
    l0 m n k_pixel unrots statics sensors :
  forall i (B : Tensor),
  (forall p sens, sensors !! p = Some sens ->
     flags_sound (default false (unrots !! (i + p)))
                 (default false (statics !! (i + p))) sens
     /\ length (_rot sens) = m) ->
  0 < m -> length B = l0 -> (i + length sensors) * k_pixel <= n ->
  Forall (slice_shape m n) B ->
  apply_sensor_rotations l0 m n k_pixel i sensors unrots statics B
  = Return (sensors_frame k_pixel i sensors B).
Proof.
  induction sensors as [|sens rest IH]; intros i B Hfl Hm Hl Hn HB; simpl.
  - reflexivity.
  - destruct (Hfl 0 sens eq_refl) as [Hsound Hrot].
    rewrite Nat.add_0_r in Hsound.
    rewrite (rotate_sensor_ok l0 m n k_pixel i sens _ _ B Hsound Hrot Hm).
    + apply IH; auto.
      * intros p s Hp. specialize (Hfl (S p) s Hp).
        now replace (i + S p) with (S i + p) in Hfl by lia.
      * unfold sensor_frame. now rewrite length_map.
      * simpl in Hn. lia.
      * now apply sensor_frame_shape.
    + unfold part_fits. rewrite Hl, Nat.eqb_refl. simpl.
      apply Nat.leb_le. simpl in Hn. nia.
    + eapply Forall_impl; [exact HB|]. now intros sl [H _].
Qed.

End RotationLemmas.

(** ** Tiling the paths and undoing it *)

Section StoreLemmas.
Context {N : Numerics}.

Lemma deref_insert (st : list Obj) r r' o :
  r < length st ->
  deref (<[r := o]> st) r' = if decide (r = r') then o else deref st r'.
Proof.
  intros Hr. unfold deref. destruct (decide (r = r')) as [<-|Hne].
  - now rewrite list_lookup_insert_eq.
  - now rewrite list_lookup_insert_ne.
Qed.

Lemma insert_deref (st : list Obj) r : <[r := deref st r]> st = st.
Proof.
  unfold deref. destruct (st !! r) as [o|] eqn:E; simpl.
  - now apply list_insert_id.
  - apply list_insert_ge. now apply lookup_ge_None.
Qed.

Lemma update_all_lookup (f : Obj -> Obj) rs :
  (forall o, f (f o) = f o) ->
  forall (st : list Obj) r,
  update_all f rs st !! r
  = (if bool_decide (r ∈ rs) then f else fun o => o) <$> st !! r.
Proof.
  intros Hf. unfold update_all.
  induction rs as [|r0 rs IH]; intros st r; simpl.
  - now destruct (st !! r).
  - rewrite IH. destruct (decide (r = r0)) as [->|Hne].
    + rewrite (bool_decide_eq_true_2 (r0 ∈ r0 :: rs)) by left.
      unfold deref. destruct (st !! r0) as [o|] eqn:E; simpl.
      * rewrite list_lookup_insert_eq by (eapply lookup_lt_Some; exact E).
        rewrite ?E. simpl. destruct (bool_decide _); now rewrite ?Hf.
      * rewrite list_insert_ge by (now apply lookup_ge_None).
        now rewrite ?E.
    + rewrite list_lookup_insert_ne by congruence.
      destruct (bool_decide (r ∈ rs)) eqn:E.
      * apply bool_decide_eq_true in E.
        rewrite bool_decide_eq_true_2 by (now right). reflexivity.
      * apply bool_decide_eq_false in E.
        rewrite bool_decide_eq_false_2; [reflexivity|].
        intros Hin. apply elem_of_cons in Hin. tauto.
Qed.

Lemma tile_obj_length m o : length (_pos (tile_obj m o)) = m * length (_pos o).
Proof. apply np_tile_rows_length. Qed.

Lemma tiled_idem m o : 1 < m -> tiled m (tiled m o) = tiled m o.
Proof.
  intros Hm.
  assert (Hlt : (1 <? m) = true) by now apply Nat.ltb_lt.
  destruct (length (_pos o) =? 1) eqn:E.
  - assert (Ht : tiled m o = tile_obj m o).
    { unfold tiled. now rewrite Hlt, E. }
    rewrite Ht. unfold tiled. rewrite tile_obj_length.
    apply Nat.eqb_eq in E. rewrite E.
    assert (Hne : (m * 1 =? 1) = false) by (apply Nat.eqb_neq; lia).
    now rewrite Hne, andb_false_r.
  - assert (Ht : tiled m o = o).
    { unfold tiled. now rewrite E, andb_false_r. }
    now rewrite !Ht.
Qed.

Lemma reset_obj_idem o : reset_obj (reset_obj o) = reset_obj o.
Proof. unfold reset_obj. simpl. now rewrite !take_take. Qed.

Lemma reset_tile_obj m o :
  0 < m -> length (_pos o) = 1 -> length (_rot o) = 1 ->
  reset_obj (tile_obj m o) = o.
Proof.
  intros Hm Hp Hr. destruct o as [a [|p [|? ?]] [|q [|? ?]]]; try discriminate.
  unfold reset_obj, tile_obj. simpl. rewrite !np_tile_rows_single.
  destruct m; [lia|]. reflexivity.
Qed.

(** The loop tiles every object of [obj_list] with a path of length 1, and
    remembers exactly these objects. *)
Lemma tile_up_ok m obj_list :
  1 < m ->
  forall (st : list Obj) log,
  exists rs,
    tile_up m obj_list (mkState st log)
    = (Return rs, mkState (update_all (tiled m) obj_list st) log)
    /\ forall r, r ∈ rs <-> r ∈ obj_list /\ length (_pos (deref st r)) = 1.
Proof.
  intros Hm. induction obj_list as [|r0 l IH]; intros st log; simpl.
  - exists []. split; [reflexivity|]. intros r. split.
    + intros H. inversion H.
    + intros [H _]. inversion H.
  - unfold bind at 1, get_store. simpl.
    assert (Htiled : tiled m (deref st r0)
                     = if length (_pos (deref st r0)) =? 1
                       then tile_obj m (deref st r0) else deref st r0).
    { unfold tiled. now rewrite (proj2 (Nat.ltb_lt 1 m) Hm). }
    rewrite Htiled.
    destruct (length (_pos (deref st r0)) =? 1) eqn:E.
    + apply Nat.eqb_eq in E.
      assert (Hr0 : r0 < length st).
      { unfold deref in E. destruct (st !! r0) eqn:El; [|discriminate].
        eapply lookup_lt_Some. exact El. }
      unfold bind, set_obj. simpl.
      destruct (IH (<[r0 := tile_obj m (deref st r0)]> st) log)
        as (rs & Hrun & Hrs).
      rewrite Hrun. exists (r0 :: rs). split; [reflexivity|].
      intros r. rewrite !elem_of_cons, Hrs, deref_insert by exact Hr0.
      destruct (decide (r0 = r)) as [<-|Hne].
      * rewrite tile_obj_length, E. split; [intros _|intros _]; auto.
      * split; [intros [->|[? ?]]|intros [[->|?] ?]]; auto; congruence.
    + rewrite insert_deref.
      destruct (IH st log) as (rs & Hrun & Hrs).
      rewrite Hrun. exists rs. split; [reflexivity|].
      intros r. rewrite elem_of_cons, Hrs. apply Nat.eqb_neq in E.
      split; [intros [? ?]|intros [[->|?] ?]]; auto; congruence.
Qed.

Lemma reset_tiled_ok rs : forall (st : list Obj) log,
  reset_tiled rs (mkState st log)
  = (Return tt, mkState (update_all reset_obj rs st) log).
Proof.
  induction rs as [|r rs IH]; intros st log; simpl; [reflexivity|].
  unfold bind, get_store, set_obj. simpl. apply IH.
Qed.

(** Resetting the remembered objects undoes the tiling. *)
Lemma reset_undoes_tiling m obj_list rs (st : list Obj) :
  1 < m ->
  (forall r, r ∈ rs <-> r ∈ obj_list /\ length (_pos (deref st r)) = 1) ->
  Forall (fun r => length (_rot (deref st r)) = length (_pos (deref st r)))
         obj_list ->
  update_all reset_obj rs (update_all (tiled m) obj_list st) = st.
Proof.
  intros Hm Hrs Hlen. apply list_eq. intros r.
  rewrite update_all_lookup by apply reset_obj_idem.
  rewrite update_all_lookup by (intros; now apply tiled_idem).
  destruct (st !! r) as [o|] eqn:E; simpl; [|reflexivity]. f_equal.
  assert (Hd : deref st r = o) by (unfold deref; now rewrite E).
  destruct (bool_decide (r ∈ rs)) eqn:Ers.
  - apply bool_decide_eq_true in Ers. apply Hrs in Ers as [Hin Hp].
    rewrite bool_decide_eq_true_2 by exact Hin.
    rewrite Forall_forall in Hlen. specialize (Hlen r Hin).
    rewrite Hd in *. unfold tiled.
    rewrite (proj2 (Nat.ltb_lt 1 m) Hm), Hp. simpl.
    apply reset_tile_obj; lia.
  - apply bool_decide_eq_false in Ers.
    destruct (bool_decide (r ∈ obj_list)) eqn:Ein; [|reflexivity].
    apply bool_decide_eq_true in Ein. unfold tiled.
    destruct (length (_pos o) =? 1) eqn:Ep; [|now rewrite andb_false_r].
    apply Nat.eqb_eq in Ep. exfalso. apply Ers, Hrs. now rewrite Hd.
Qed.

End StoreLemmas.

(** ** Shapes *)

Section ShapeLemmas.
Context {N : Numerics}.

Lemma zeros_shape m n : slice_shape m n (zeros m n).
Proof.
  unfold zeros. split; [apply length_replicate|].
  apply Forall_replicate. apply length_replicate.
Qed.

Lemma source_field_shape bh st poso m n r :
  length (_pos (deref st r)) = m -> length (_rot (deref st r)) = m ->
  length poso = m * n ->
  slice_shape m n (source_field bh st poso m n r).
Proof.
  intros Hp Hr Ho. unfold source_field.
  destruct (src_type_of (deref st r)); [|apply zeros_shape].
  now apply world_field_rows.
Qed.

Lemma slice_add_shape m n (a b : Slice) :
  slice_shape m n a -> slice_shape m n b -> slice_shape m n (slice_add a b).
Proof.
  intros [Ha Han] [Hb Hbn]. unfold slice_add. split.
  - rewrite length_zip_with. lia.
  - clear Ha Hb. revert b Hbn.
    induction Han as [|x a Hx _ IH]; intros [|y b] Hbn; simpl;
      try constructor.
    + rewrite length_zip_with. apply Forall_cons in Hbn as [Hy _]. lia.
    + apply IH. now apply Forall_cons in Hbn as [_ ?].
Qed.

Lemma np_sum_slices_shape m n (l : list Slice) :
  Forall (slice_shape m n) l -> slice_shape m n (np_sum_slices m n l).
Proof.
  induction 1 as [|a l Ha _ IH]; simpl; [apply zeros_shape|].
  now apply slice_add_shape.
Qed.

Lemma top_field_shape m n (F : ref -> Slice) top :
  (forall r, slice_shape m n (F r)) -> slice_shape m n (top_field m n F top).
Proof.
  intros HF. destruct top as [r|ss]; simpl; [apply HF|].
  apply np_sum_slices_shape, Forall_map, Forall_forall. intros r _. apply HF.
Qed.

Lemma top_fields_shape m n (F : ref -> Slice) (sources : list TopSrc) :
  Forall (fun r => slice_shape m n (F r)) (format_obj_input sources) ->
  Forall (slice_shape m n) (map (top_field m n F) sources).
Proof.
  induction sources as [|top rest IH]; simpl; intros HF; [constructor|].
  apply Forall_app in HF as [HF1 HF2]. constructor; [|now apply IH].
  destruct top as [r|ss]; simpl.
  - now apply Forall_inv in HF1.
  - apply np_sum_slices_shape, Forall_map. exact HF1.
Qed.

Lemma concat_axis1_shape m w (xs : list Slice) :
  xs <> [] -> Forall (slice_shape m w) xs ->
  slice_shape m (length xs * w) (concat_axis1 xs).
Proof.
  intros Hne HF. induction HF as [|x r Hx Hr IH]; [congruence|].
  destruct r as [|y r'].
  - simpl. rewrite Nat.add_0_r. exact Hx.
  - specialize (IH ltac:(discriminate)).
    change (concat_axis1 (x :: y :: r'))
      with (zip_with app x (concat_axis1 (y :: r'))).
    change (length (x :: y :: r') * w) with (w + length (y :: r') * w).
    destruct Hx as [Hxm Hxw], IH as [Hm Hw]. split.
    + rewrite length_zip_with. lia.
    + clear Hxm Hm Hne. revert Hw. generalize (concat_axis1 (y :: r')).
      generalize (length (y :: r') * w). intros t.
      induction Hxw as [|a x Ha _ IHx]; intros [|b c] Hw; simpl;
        try constructor.
      * rewrite length_app. apply Forall_cons in Hw as [Hb _]. lia.
      * apply IHx. now apply Forall_cons in Hw as [_ ?].
Qed.

Lemma sensor_positions_shape m sens :
  length (_pos sens) = m -> length (_rot sens) = m ->
  slice_shape m (length (pa_data (pos_pix_of sens))) (sensor_positions sens).
Proof.
  intros Hp Hr. unfold sensor_positions. split.
  - rewrite length_zip_with. lia.
  - clear Hp Hr. generalize (_pos sens).
    induction (_rot sens) as [|q rots IH];
      intros [|p ps]; simpl; try constructor.
    + now rewrite length_map.
    + apply IH.
Qed.

Lemma poso_of_length m w (sensors : list Obj) :
  sensors <> [] ->
  Forall (fun sens => length (_pos sens) = m /\ length (_rot sens) = m
                      /\ length (pa_data (pos_pix_of sens)) = w) sensors ->
  length (poso_of sensors) = m * (length sensors * w).
Proof.
  intros Hne HF. unfold poso_of.
  destruct (concat_axis1_shape m w (map sensor_positions sensors))
    as [Hm Hw].
  - now destruct sensors.
  - apply Forall_map. eapply Forall_impl; [exact HF|].
    intros sens (Hp & Hr & Hx). cbn beta. rewrite <- Hx.
    now apply sensor_positions_shape.
  - rewrite length_map in Hw.
    rewrite (concat_length_const (length sensors * w)) by exact Hw.
    now rewrite Hm.
Qed.

Lemma prod_list_app a b : prod_list (a ++ b) = prod_list a * prod_list b.
Proof.
  unfold prod_list. induction a as [|x a IH]; simpl; [lia|].
  rewrite IH. lia.
Qed.

Lemma tensor_size l m n (B : Tensor) :
  length B = l -> Forall (slice_shape m n) B ->
  length (concat (concat B)) = l * m * n.
Proof.
  intros Hl HB. subst l.
  assert (Hrows : Forall (fun row => length row = n) (concat B)).
  { apply Forall_concat. eapply Forall_impl; [exact HB|]. now intros sl [_ ?]. }
  rewrite (concat_length_const n) by exact Hrows.
  rewrite (concat_length_const m); [reflexivity|].
  eapply Forall_impl; [exact HB|]. now intros sl [? _].
Qed.

Lemma np_reshape_ok l0 m k dims n (B : Tensor) :
  length B = l0 -> Forall (slice_shape m n) B -> n = k * prod_list dims ->
  np_reshape B ([l0; m] ++ k :: dims ++ [3])
  = Return (mkArr ([l0; m] ++ k :: dims ++ [3]) (concat (concat B))).
Proof.
  intros Hl HB Hn. unfold np_reshape.
  rewrite (tensor_size l0 m n) by assumption.
  replace (prod_list ([l0; m] ++ k :: dims ++ [3])) with (3 * (l0 * m * n)).
  - now rewrite Nat.eqb_refl.
  - change ([l0; m] ++ k :: dims ++ [3]) with ([l0; m; k] ++ dims ++ [3]).
    rewrite !prod_list_app. simpl. subst n. lia.
Qed.

Lemma get_good_path_length_inv (objs : list Obj) m :
  get_good_path_length objs = Return m ->
  Forall (fun o => length (_pos o) = 1 \/ length (_pos o) = m) objs
  /\ m = max_list (map (fun o => length (_pos o)) objs).
Proof.
  unfold get_good_path_length.
  destruct (forallb _ _) eqn:E; [|discriminate].
  intros [= <-]. split; [|reflexivity].
  rewrite forallb_forall in E. apply Forall_forall. intros o Ho.
  specialize (E (length (_pos o))).
  rewrite orb_true_iff, !Nat.eqb_eq in E. apply E.
  apply in_map_iff. exists o. split; [reflexivity|].
  now apply list_elem_of_In.
Qed.

End ShapeLemmas.

(** ** The whole call *)

Section CallLemmas.
Context {N : Numerics}.

Lemma bind_Return {A B} (c : M A) (f : A -> M B) s a s' :
  c s = (Return a, s') -> bind c f s = f a s'.
Proof. intros H. unfold bind. now rewrite H. Qed.

Lemma bind_Raise {A B} (c : M A) (f : A -> M B) s e s' :
  c s = (Raise e, s') -> bind c f s = (Raise e, s').
Proof. intros H. unfold bind. now rewrite H. Qed.

Lemma wrap_items_extends l : forall s,
  exists sensors extra,
    wrap_items l s
    = (Return sensors, mkState (store s ++ extra) (level1_calls s)).
Proof.
  induction l as [|[r|a] l IH]; intros s; simpl.
  - exists [], []. unfold ret. rewrite app_nil_r. now destruct s.
  - destruct (IH s) as (rs & extra & H). exists (r :: rs), extra.
    unfold bind. now rewrite H.
  - unfold bind at 1, alloc.
    destruct (IH (mkState (store s ++ [new_Sensor a]) (level1_calls s)))
      as (rs & extra & H).
    exists (length (store s) :: rs), ([new_Sensor a] ++ extra).
    unfold bind. rewrite H. simpl. now rewrite <- app_assoc.
Qed.

(** Wrapping the observers never raises; it only adds sensors to the store. *)
Lemma make_sensors_extends observers s :
  exists sensors extra,
    make_sensors observers s
    = (Return sensors, mkState (store s ++ extra) (level1_calls s)).
Proof.
  destruct observers as [r|a|l]; simpl.
  - exists [r], []. unfold ret. rewrite app_nil_r. now destruct s.
  - exists [length (store s)], [new_Sensor a]. reflexivity.
  - destruct (existsb is_ItemSensor l).
    + apply wrap_items_extends.
    + exists [length (store s)], [new_Sensor (np_array (bare_arrays l))].
      reflexivity.
Qed.

Lemma tiled_attrs m o : attrs (tiled m o) = attrs o.
Proof. unfold tiled. now destruct (_ && _). Qed.

Lemma tiled_no_obj m : tiled m no_obj = no_obj.
Proof. unfold tiled. simpl. now rewrite andb_false_r. Qed.

Lemma deref_map_tiled m (st : list Obj) r :
  deref (map (tiled m) st) r = tiled m (deref st r).
Proof.
  unfold deref. change (map (tiled m) st) with (tiled m <$> st).
  rewrite list_lookup_fmap. destruct (st !! r); simpl; [reflexivity|].
  symmetry. apply tiled_no_obj.
Qed.

Lemma deref_update_all m obj_list (st : list Obj) r :
  1 < m -> r ∈ obj_list ->
  deref (update_all (tiled m) obj_list st) r = tiled m (deref st r).
Proof.
  intros Hm Hin. unfold deref.
  rewrite update_all_lookup by (intros; now apply tiled_idem).
  rewrite bool_decide_eq_true_2 by exact Hin.
  destruct (st !! r); simpl; [reflexivity|]. symmetry. apply tiled_no_obj.
Qed.

Lemma tiled_lengths m o :
  0 < m -> 0 < length (_pos o) -> length (_rot o) = length (_pos o) ->
  length (_pos o) = 1 \/ length (_pos o) = m ->
  length (_pos (tiled m o)) = m /\ length (_rot (tiled m o)) = m.
Proof.
  intros Hm Hp Hr Hor. unfold tiled.
  destruct (1 <? m) eqn:E1; simpl.
  - apply Nat.ltb_lt in E1. destruct (length (_pos o) =? 1) eqn:E2.
    + apply Nat.eqb_eq in E2. simpl.
      rewrite !np_tile_rows_length. lia.
    + apply Nat.eqb_neq in E2. lia.
  - apply Nat.ltb_ge in E1. lia.
Qed.

Lemma flags_sound_tiled `{!QuatEq N} m o :
  length (_rot o) = length (_pos o) ->
  flags_sound (unrotated o) (static_rot o) (tiled m o).
Proof.
  intros Hlen.
  assert (Htile : forall (P : quat -> Prop),
            Forall P (_rot o) -> Forall P (_rot (tiled m o))).
  { intros P HP. unfold tiled. destruct (_ && _); [|exact HP]. simpl.
    unfold np_tile_rows. apply Forall_concat, Forall_replicate, HP. }
  split.
  - intros Hun. apply Htile. unfold unrotated in Hun.
    rewrite forallb_forall in Hun. apply Forall_forall. intros q Hq.
    apply quat_eqb_eq, Hun. now apply list_elem_of_In.
  - intros Hst. unfold static_rot in Hst.
    destruct (_rot o) as [|q0 rots] eqn:Er.
    { exists unitQ. apply Htile. rewrite ?Er. constructor. }
    exists q0. apply Htile. rewrite ?Er.
    destruct (length (_pos o) =? 1) eqn:E.
    + apply Nat.eqb_eq in E. rewrite E in Hlen.
      destruct rots; [|discriminate]. now constructor.
    + rewrite forallb_forall in Hst. apply Forall_forall. intros q Hq.
      apply quat_eqb_eq, Hst. now apply list_elem_of_In.
Qed.

Lemma source_field_ext bh (st st' : list Obj) poso m n r :
  deref st r = deref st' r ->
  source_field bh st poso m n r = source_field bh st' poso m n r.
Proof. intros H. unfold source_field. now rewrite H. Qed.

Lemma typed_entries_ext (st st' : list Obj) ty src_list :
  Forall (fun r => src_type_of (deref st r) = src_type_of (deref st' r))
         src_list ->
  forall i, typed_entries st ty i src_list = typed_entries st' ty i src_list.
Proof.
  induction 1 as [|r l Hr _ IH]; intros i; simpl; [reflexivity|].
  rewrite Hr, !IH. reflexivity.
Qed.

End CallLemmas.

Section Master.
Context {N : Numerics} `{!QuatEq N} `{!UnitRotation N} `{!AddZero N}.

Lemma pa_shape_inj (a b : PosArray) :
  pa_shape a = pa_shape b -> pa_dims a = pa_dims b.
Proof. unfold pa_shape. intros H. now apply app_inj_tail in H as [? _]. Qed.

Lemma all_same_head (l : list (list nat)) x :
  all_same (x :: l) = true -> Forall (fun y => y = x) l.
Proof.
  simpl. rewrite forallb_forall. intros H. apply Forall_forall. intros y Hy.
  specialize (H y). rewrite bool_decide_eq_true in H. apply H.
  now apply list_elem_of_In.
Qed.

(** What the tiling stage leaves behind, whether it runs or not. *)
Lemma tiling_stage m obj_list s1 :
  0 < m ->
  Forall (fun r => length (_rot (deref (store s1) r))
                   = length (_pos (deref (store s1) r))) obj_list ->
  exists rs st2,
    (if 1 <? m then tile_up m obj_list else ret []) s1
    = (Return rs, mkState st2 (level1_calls s1))
    /\ (forall r, r ∈ obj_list -> deref st2 r = tiled m (deref (store s1) r))
    /\ (forall log, reset_tiled rs (mkState st2 log)
                    = (Return tt, mkState (store s1) log)).
Proof.
  intros Hm Hlen. destruct s1 as [st1 log1]. simpl in *.
  destruct (1 <? m) eqn:E.
  - apply Nat.ltb_lt in E.
    destruct (tile_up_ok m obj_list E st1 log1) as (rs & Hrun & Hrs).
    exists rs, (update_all (tiled m) obj_list st1). split; [exact Hrun|].
    split.
    + intros r Hr. now apply deref_update_all.
    + intros log. rewrite reset_tiled_ok. f_equal. f_equal.
      now apply (reset_undoes_tiling m obj_list).
  - exists [], st1. split; [reflexivity|]. split; [|reflexivity].
    intros r _. unfold tiled. now rewrite E.
Qed.

(** A call that passes the input checks returns the expected tensor in the
    documented shape, makes one call of [getBH_level1] per family that
    occurs, and leaves the objects as they were. *)
Lemma getBH_level2_ok bh sources observers sumup squeeze s sensors s1 m :
  make_sensors observers s = (Return sensors, s1) ->
  call_ok (store s1) (sources_list sources) sensors m ->
  getBH_level2 bh sources observers sumup squeeze s
  = (Return (finish sumup squeeze
       (mkArr (full_shape (store s1) (sources_list sources) sensors m)
          (concat (concat (expected_tensor bh (store s1)
                             (sources_list sources) sensors m))))),
     logged s1 (used_types (store s1)
                  (format_obj_input (sources_list sources))))
  /\ length (expected_tensor bh (store s1) (sources_list sources) sensors m)
     = length (sources_list sources)
  /\ Forall (slice_shape m (length sensors * k_pixel_of (store s1) sensors))
            (expected_tensor bh (store s1) (sources_list sources) sensors m)
  /\ 0 < m
  /\ length (poso_of (map (deref (map (tiled m) (store s1))) sensors))
     = m * (length sensors * k_pixel_of (store s1) sensors).
Proof.
  intros Hmk (Hne & Hsame & Hgood & Hpaths & Hrec & Hnonempty & Hpix).
  unfold getBH_level2. fold (sources_list sources).
  set (srcs := sources_list sources) in *.
  set (src_list := format_obj_input srcs) in *.
  set (st1 := store s1) in *.
  destruct (get_good_path_length_inv _ _ Hgood) as [Hlens Hmax].
  rewrite Forall_map in Hlens.
  destruct sensors as [|r0 rest]; [congruence|].
  remember (r0 :: rest) as sensors eqn:Esens.
  assert (Hr0 : r0 ∈ sensors) by (subst sensors; left).
  (* the common path length is positive *)
  assert (Hm : 0 < m).
  { assert (Hin : r0 ∈ src_list ++ sensors) by (apply elem_of_app; now right).
    rewrite Forall_forall in Hpaths, Hlens.
    destruct (Hpaths r0 Hin) as [Hpos _].
    destruct (Hlens r0 Hin) as [H1|H1]; [|lia].
    assert (length (_pos (deref st1 r0)) <= m); [|lia].
    rewrite Hmax. apply max_list_elem_of_le.
    apply list_elem_of_fmap. exists (deref st1 r0). split; [reflexivity|].
    apply list_elem_of_fmap. exists r0. auto. }
  (* the sensors have one pixel shape *)
  set (dims := pa_dims (pos_pix_of (deref st1 r0))).
  assert (Hdims : Forall (fun r => pa_dims (pos_pix_of (deref st1 r)) = dims
                    /\ length (pa_data (pos_pix_of (deref st1 r)))
                       = prod_list dims) sensors).
  { subst sensors. simpl in Hsame. apply all_same_head in Hsame.
    rewrite Forall_map in Hsame.
    constructor.
    - split; [reflexivity|]. symmetry. now apply Forall_inv in Hpix.
    - apply Forall_inv_tail in Hpix.
      rewrite Forall_forall in Hsame, Hpix. apply Forall_forall.
      intros r Hr. assert (Hd : pa_dims (pos_pix_of (deref st1 r)) = dims).
      { apply pa_shape_inj. now apply Hsame. }
      split; [exact Hd|]. rewrite <- Hd. symmetry. now apply Hpix. }
  rewrite (bind_Return _ _ _ _ _ Hmk).
  rewrite (bind_Return get_store _ s1 st1 s1 eq_refl).
  cbv zeta. fold st1. rewrite Hsame. cbn [negb].
  assert (Hhead : map (fun r => pa_shape (pos_pix_of (deref st1 r))) sensors
                  = (dims ++ [3])
                    :: map (fun r => pa_shape (pos_pix_of (deref st1 r))) rest)
    by (subst sensors; reflexivity).
  rewrite Hhead.
  rewrite (bind_Return (lift _) _ s1 _ s1 eq_refl).
  rewrite Hgood.
  rewrite (bind_Return (lift _) _ s1 _ s1 eq_refl).
  (* tiling *)
  destruct (tiling_stage m (src_list ++ sensors) s1 Hm) as (rs & st2 & Hrun & Hst2 & Hreset).
  { eapply Forall_impl; [exact Hpaths|]. now intros r [_ ?]. }
  rewrite (bind_Return _ _ _ _ _ Hrun).
  rewrite (bind_Return get_store _ (mkState st2 (level1_calls s1)) st2 _ eq_refl).
  set (stT := map (tiled m) st1).
  assert (Hobj : Forall (fun r => deref st2 r = deref stT r
                    /\ length (_pos (deref stT r)) = m
                    /\ length (_rot (deref stT r)) = m
                    /\ attrs (deref stT r) = attrs (deref st1 r))
                  (src_list ++ sensors)).
  { rewrite Forall_forall in Hpaths, Hlens. apply Forall_forall. intros r Hr.
    subst stT. rewrite deref_map_tiled, (Hst2 r Hr).
    destruct (Hpaths r Hr) as [Hp0 Hrl].
    destruct (tiled_lengths m (deref st1 r) Hm Hp0 Hrl (Hlens r Hr)).
    repeat split; auto. apply tiled_attrs. }
  apply Forall_app in Hobj as [Hobj_src Hobj_sens].
  assert (Esens2 : map (deref st2) sensors = map (deref stT) sensors).
  { apply map_ext_Forall. eapply Forall_impl; [exact Hobj_sens|].
    now intros r [? _]. }
  rewrite Esens2.
  set (sens := map (deref stT) sensors).
  set (poso := poso_of sens).
  set (k := length sensors).
  set (kp := prod_list dims).
  assert (Hposo : length poso = m * (k * kp)).
  { subst poso k. rewrite <- (length_map (deref stT) sensors). fold sens.
    apply poso_of_length.
    - subst sens sensors. discriminate.
    - subst sens. apply Forall_map.
      rewrite Forall_forall in Hobj_sens, Hdims. apply Forall_forall.
      intros r Hr. destruct (Hobj_sens r Hr) as (_ & Hp & Hq & Ha).
      destruct (Hdims r Hr) as [_ Hd].
      repeat split; auto. unfold pos_pix_of in *. now rewrite Ha. }
  assert (Hn : length poso / m = k * kp).
  { rewrite Hposo, Nat.mul_comm. apply Nat.div_mul. lia. }
  rewrite Hn. set (n := k * kp) in *.
  (* grouping and batched evaluation *)
  assert (Htypes : Forall (fun r => src_type_of (deref st2 r)
                                    = src_type_of (deref st1 r)) src_list).
  { eapply Forall_impl; [exact Hobj_src|]. intros r (E2 & _ & _ & Ha).
    unfold src_type_of. now rewrite E2, Ha. }
  assert (Hrec2 : Forall (recognized st2) src_list).
  { rewrite Forall_forall in Htypes, Hrec. apply Forall_forall. intros r Hr.
    unfold recognized. rewrite (Htypes r Hr). now apply Hrec. }
  destruct (group_sources_ok st2 src_list Hrec2 0 no_groups eq_refl eq_refl)
    as (g & Hg & _).
  rewrite Hg.
  rewrite (bind_Return (lift _) _ _ _ _ eq_refl).
  rewrite (bind_Return _ _ _ _ _
             (eval_groups_ok bh st2 src_list g poso m n _ _ Hrec2
                ltac:(eapply Forall_impl; [exact Hobj_src|];
                      intros r (E2 & Hp & Hq & _); cbn beta; now rewrite E2)
                Hg Hposo Hm ltac:(apply length_replicate))).
  set (F := source_field bh stT poso m n).
  assert (HB2 : map (source_field bh st2 poso m n) src_list = map F src_list).
  { apply map_ext_Forall. eapply Forall_impl; [exact Hobj_src|].
    intros r (E2 & _). now apply source_field_ext. }
  rewrite HB2.
  assert (Hused : used_types st2 src_list = used_types st1 src_list).
  { unfold used_types. cbn [flat_map].
    now rewrite !(typed_entries_ext st2 st1 _ _ Htypes). }
  rewrite Hused.
  assert (HF : Forall (fun r => slice_shape m n (F r)) src_list).
  { eapply Forall_impl; [exact Hobj_src|]. intros r (_ & Hp & Hq & _).
    now apply source_field_shape. }
  (* the members of the Collections are summed *)
  assert (Hsum : (if length srcs <? length src_list
                  then sum_collections m n 0 srcs (map F src_list)
                  else Return (map F src_list))
                 = Return (map (top_field m n F) srcs)).
  { destruct (length srcs <? length src_list) eqn:E.
    - apply (sum_collections_ok m n F srcs Hnonempty []).
    - f_equal. apply no_sum_needed; auto. now apply Nat.ltb_ge. }
  rewrite Hsum.
  rewrite (bind_Return (lift _) _ _ _ _ eq_refl).
  set (Btop := map (top_field m n F) srcs).
  assert (HBtop : Forall (slice_shape m n) Btop)
    by now apply top_fields_shape.
  (* the result is taken into the frame of every sensor *)
  rewrite removelast_last. fold kp.
  rewrite (apply_sensor_rotations_ok (length srcs) m n kp _ _ sens 0 Btop);
    auto.
  2:{ intros p o Hp. subst sens. simpl. rewrite !list_lookup_fmap.
      change (map (deref stT) sensors) with (deref stT <$> sensors) in Hp.
      rewrite list_lookup_fmap in Hp.
      destruct (sensors !! p) as [r|] eqn:Er; [|discriminate].
      injection Hp as <-. simpl.
      assert (Hin : r ∈ src_list ++ sensors).
      { apply elem_of_app. right. eapply list_elem_of_lookup_2. exact Er. }
      rewrite Forall_forall in Hpaths. destruct (Hpaths r Hin) as [_ Hrl].
      subst stT. rewrite deref_map_tiled. split.
      - now apply flags_sound_tiled.
      - rewrite Forall_forall in Hobj_sens.
        destruct (Hobj_sens r (list_elem_of_lookup_2 _ _ _ Er))
          as (_ & _ & Hq & _).
        now rewrite deref_map_tiled in Hq. }
  2:{ subst Btop. apply length_map. }
  2:{ subst sens n k. rewrite length_map. simpl. lia. }
  rewrite (bind_Return (lift _) _ _ _ _ eq_refl).
  destruct (sensors_frame_shape kp m n sens 0 Btop HBtop) as [HR1 HR2].
  rewrite (np_reshape_ok (length srcs) m k dims n); auto.
  2:{ rewrite HR2. subst Btop. apply length_map. }
  rewrite (bind_Return (lift _) _ _ _ _ eq_refl).
  unfold logged. cbn [store level1_calls].
  rewrite (bind_Return _ _ _ _ _ (Hreset _)).
  unfold ret, finish.
  assert (Hfull : full_shape st1 srcs sensors m
                  = [length srcs; m] ++ k :: dims ++ [3])
    by (subst k sensors; reflexivity).
  assert (Hexp : expected_tensor bh st1 srcs sensors m
                 = sensors_frame kp 0 sens Btop).
  { unfold expected_tensor. fold stT. fold sens. fold poso. rewrite Hn.
    subst kp dims. rewrite Esens at 1. reflexivity. }
  rewrite Hfull, Hexp.
  replace (k_pixel_of st1 sensors) with kp
    by (subst kp dims; rewrite Esens; reflexivity).
  split; [reflexivity|]. split; [|split; [|split]].
  - rewrite HR2. subst Btop. apply length_map.
  - exact HR1.
  - exact Hm.
  - exact Hposo.
Qed.

End Master.

(** ** Rotations and sums commute *)

Section LinearLemmas.
Context {N : Numerics}.

Lemma slice_map_imap {A} (f : A -> A) (l : list A) : forall a w,
  slice_map f a w l
  = imap (fun j x => if bool_decide (a <= j < a + w) then f x else x) l.
Proof.
  unfold slice_map.
  induction l as [|x l IH]; intros a w.
  - now rewrite take_nil, !drop_nil, take_nil.
  - destruct a as [|a].
    + destruct w as [|w].
      * cbn [firstn skipn app map Nat.add imap].
        rewrite bool_decide_eq_false_2 by lia. f_equal.
        symmetry. apply imap_id_lookup. intros j y _. unfold compose.
        rewrite bool_decide_eq_false_2 by lia. reflexivity.
      * cbn [firstn skipn app map Nat.add imap].
        rewrite bool_decide_eq_true_2 by lia. f_equal.
        specialize (IH 0 w). change (take 0 l) with (@nil A) in IH.
        change (drop 0 l) with l in IH. cbn [app Nat.add] in IH.
        rewrite IH. apply imap_ext_lookup. intros j y _. unfold compose.
        replace (bool_decide (0 <= S j < S w)) with (bool_decide (0 <= j < w));
          [reflexivity|]. apply bool_decide_ext. lia.
    + cbn [firstn skipn app map Nat.add imap].
      rewrite bool_decide_eq_false_2 by lia. f_equal.
      rewrite IH. apply imap_ext_lookup. intros j y _. unfold compose.
      replace (bool_decide (S a <= S j < S (a + w)))
        with (bool_decide (a <= j < a + w)); [reflexivity|].
      apply bool_decide_ext. lia.
Qed.

Lemma imap_zip_with {A} (g : nat -> A -> A) (h : A -> A -> A) (x y : list A) :
  (forall j u v, g j (h u v) = h (g j u) (g j v)) ->
  imap g (zip_with h x y) = zip_with h (imap g x) (imap g y).
Proof.
  intros Hg. apply list_eq. intros j.
  rewrite list_lookup_imap, !lookup_zip_with, !list_lookup_imap.
  destruct (x !! j); simpl; [|reflexivity].
  destruct (y !! j); simpl; [|reflexivity].
  now rewrite Hg.
Qed.

Lemma imap_replicate_fix {A} (g : nat -> A -> A) n (x : A) :
  (forall j, g j x = x) -> imap g (replicate n x) = replicate n x.
Proof.
  intros Hg. apply imap_id_lookup. intros j y Hj.
  apply lookup_replicate in Hj as [-> _]. apply Hg.
Qed.

Lemma step_frame_add `{!LinearRotation N} k_pixel i sens j (r1 r2 : list vec) :
  step_frame k_pixel i sens j (zip_with vadd r1 r2)
  = zip_with vadd (step_frame k_pixel i sens j r1)
                  (step_frame k_pixel i sens j r2).
Proof.
  unfold step_frame. destruct (_rot sens !! j) as [q|]; [|reflexivity].
  unfold rotate_part. rewrite !slice_map_imap. apply imap_zip_with.
  intros p u v. destruct (bool_decide _); [apply rot_apply_add | reflexivity].
Qed.

Lemma step_frame_zero `{!LinearRotation N} k_pixel i sens j n :
  step_frame k_pixel i sens j (replicate n vzero) = replicate n vzero.
Proof.
  unfold step_frame. destruct (_rot sens !! j) as [q|]; [|reflexivity].
  unfold rotate_part. rewrite slice_map_imap. apply imap_replicate_fix.
  intros p. destruct (bool_decide _); [apply rot_apply_zero | reflexivity].
Qed.

Lemma slice_frames_add `{!LinearRotation N} k_pixel sensors : forall i a b,
  slice_frames k_pixel i sensors (slice_add a b)
  = slice_add (slice_frames k_pixel i sensors a)
              (slice_frames k_pixel i sensors b).
Proof.
  induction sensors as [|sens rest IH]; intros i a b; simpl; [reflexivity|].
  rewrite <- IH. f_equal. unfold slice_add. apply imap_zip_with.
  intros j u v. apply step_frame_add.
Qed.

Lemma slice_frames_zeros `{!LinearRotation N} k_pixel sensors m n : forall i,
  slice_frames k_pixel i sensors (zeros m n) = zeros m n.
Proof.
  induction sensors as [|sens rest IH]; intros i; simpl; [reflexivity|].
  unfold zeros at 1. rewrite imap_replicate_fix; [apply IH|].
  intros j. apply step_frame_zero.
Qed.

Lemma slice_frames_sum `{!LinearRotation N} k_pixel sensors m n
    (l : list Slice) :
  slice_frames k_pixel 0 sensors (np_sum_slices m n l)
  = np_sum_slices m n (map (slice_frames k_pixel 0 sensors) l).
Proof.
  induction l as [|a l IH]; simpl.
  - apply slice_frames_zeros.
  - now rewrite slice_frames_add, IH.
Qed.

Lemma concat_slice_add m n (a b : Slice) :
  slice_shape m n a -> slice_shape m n b ->
  concat (slice_add a b) = zip_with vadd (concat a) (concat b).
Proof.
  intros [Ha Han] [Hb Hbn]. unfold slice_add. clear Ha Hb. revert b Hbn.
  induction Han as [|x a Hx _ IH]; intros [|y b] Hbn; simpl.
  - reflexivity.
  - reflexivity.
  - now rewrite zip_with_nil_r.
  - apply Forall_cons in Hbn as [Hy Hbn].
    rewrite zip_with_app by congruence. now rewrite IH.
Qed.

Lemma concat_zeros m n : concat (zeros m n) = replicate (m * n) vzero.
Proof.
  unfold zeros. induction m as [|m IH]; simpl; [reflexivity|].
  now rewrite IH, replicate_add.
Qed.

Lemma concat_np_sum_slices m n (l : list Slice) :
  Forall (slice_shape m n) l ->
  concat (np_sum_slices m n l)
  = fold_right (zip_with vadd) (replicate (m * n) vzero)
               (map (fun sl => concat sl) l).
Proof.
  induction 1 as [|a l Ha Hl IH]; simpl.
  - apply concat_zeros.
  - rewrite (concat_slice_add m n); auto; [now rewrite IH|].
    now apply np_sum_slices_shape.
Qed.

End LinearLemmas.

(** ** A static object is the same at every step of a path *)

Section BroadcastLemmas.
Context {N : Numerics}.

Lemma max_list_upper (l : list nat) m :
  Forall (fun n => n <= m) l -> max_list l <= m.
Proof. induction 1; simpl; lia. Qed.

(** A part of the objects of a good call is good as well: its common path
    length is the one of the call, or 1 when all its paths have length 1. *)
Lemma get_good_path_length_sub (objs : list Obj) m :
  objs <> [] ->
  Forall (fun o => 0 < length (_pos o)
                   /\ (length (_pos o) = 1 \/ length (_pos o) = m)) objs ->
  get_good_path_length objs = Return m
  \/ (get_good_path_length objs = Return 1
      /\ Forall (fun o => length (_pos o) = 1) objs).
Proof.
  intros Hne Hall. unfold get_good_path_length.
  set (lens := map (fun o => length (_pos o)) objs).
  assert (Hpass : forall M, max_list lens = M -> (M = 1 \/ M = m) ->
            (M = 1 -> Forall (fun o => length (_pos o) = 1) objs) ->
            forallb (fun n => (n =? 1) || (n =? M)) lens = true).
  { intros M _ HM H1. apply forallb_forall. intros n Hn.
    apply in_map_iff in Hn as (o & <- & Ho). apply list_elem_of_In in Ho.
    rewrite Forall_forall in Hall. destruct (Hall o Ho) as [_ [Hl|Hl]].
    - now rewrite Hl.
    - destruct HM as [->| ->].
      + rewrite Forall_forall in H1. now rewrite (H1 eq_refl o Ho).
      + now rewrite Hl, Nat.eqb_refl, orb_true_r. }
  destruct (decide (Forall (fun o => length (_pos o) = 1) objs)) as [H1|Hn1].
  - right. split; [|exact H1].
    assert (HM : max_list lens = 1).
    { apply Nat.le_antisymm.
      - apply max_list_upper. subst lens. apply Forall_map.
        eapply Forall_impl; [exact H1|]. intros o Ho. cbn in *. lia.
      - destruct objs as [|o objs]; [congruence|].
        apply Forall_inv in H1. subst lens. simpl. lia. }
    rewrite HM. rewrite (Hpass 1 HM); auto.
  - left. apply not_Forall_Exists in Hn1; [|apply _].
    apply Exists_exists in Hn1 as (o & Ho & Hno). cbn in Hno.
    rewrite Forall_forall in Hall. destruct (Hall o Ho) as [Hp [Hl|Hl]];
      [congruence|].
    assert (HM : max_list lens = m).
    { apply Nat.le_antisymm.
      - apply max_list_upper. subst lens. apply Forall_map.
        apply Forall_forall. intros o' Ho'.
        destruct (Hall o' Ho') as [_ [H|H]]; cbn; lia.
      - rewrite <- Hl. apply max_list_elem_of_le. subst lens.
        apply list_elem_of_fmap. exists o. auto. }
    rewrite HM. rewrite (Hpass m HM); auto.
    intros ->. exfalso. lia.
Qed.

Lemma tiled_single m o :
  0 < m -> single o ->
  exists p q, _pos o = [p] /\ _rot o = [q]
    /\ _pos (tiled m o) = replicate m p /\ _rot (tiled m o) = replicate m q.
Proof.
  intros Hm [Hp Hq].
  destruct (_pos o) as [|p [|? ?]] eqn:Ep; try discriminate.
  destruct (_rot o) as [|q [|? ?]] eqn:Eq; try discriminate.
  exists p, q. split; [reflexivity|]. split; [reflexivity|].
  unfold tiled. rewrite Ep. cbn [length Nat.eqb]. rewrite andb_true_r.
  destruct (1 <? m) eqn:E.
  - cbn [tile_obj _pos _rot]. rewrite Ep, Eq, !np_tile_rows_single. auto.
  - apply Nat.ltb_ge in E. assert (m = 1) by lia. subst m.
    rewrite Ep, Eq. auto.
Qed.

Lemma imap_replicate_const {A B} (g : nat -> A -> B) m (x : A) (z : B) :
  (forall j, j < m -> g j x = z) -> imap g (replicate m x) = replicate m z.
Proof.
  intros Hg. apply list_eq. intros j. rewrite list_lookup_imap.
  destruct (decide (j < m)) as [Hj|Hj].
  - rewrite !lookup_replicate_2 by exact Hj. simpl. now rewrite Hg.
  - rewrite !(proj1 (lookup_replicate_None _ _ _)) by lia. reflexivity.
Qed.

Lemma sensor_positions_single m o :
  0 < m -> single o ->
  sensor_positions (tiled m o) = replicate m (hd [] (sensor_positions o)).
Proof.
  intros Hm Hs. destruct (tiled_single m o Hm Hs) as (p & q & Ep & Eq & Tp & Tq).
  unfold sensor_positions, pos_pix_of. rewrite tiled_attrs, Tp, Tq, Ep, Eq.
  now rewrite zip_with_replicate.
Qed.

Lemma concat_axis1_replicate (xs : list (list vec)) :
  xs <> [] ->
  exists prow, forall m,
    concat_axis1 (map (fun x => replicate m x) xs) = replicate m prow.
Proof.
  induction xs as [|x r IH]; intros Hne; [congruence|].
  destruct r as [|y r'].
  - exists x. reflexivity.
  - destruct (IH ltac:(discriminate)) as (prow & Hprow).
    exists (x ++ prow). intros m.
    change (concat_axis1 (map (fun x => replicate m x) (x :: y :: r')))
      with (zip_with app (replicate m x)
              (concat_axis1 (map (fun x => replicate m x) (y :: r')))).
    now rewrite Hprow, zip_with_replicate.
Qed.

Lemma poso_of_single (os : list Obj) :
  os <> [] -> Forall single os ->
  exists prow, forall m, 0 < m ->
    poso_of (map (tiled m) os) = concat (replicate m prow).
Proof.
  intros Hne Hs.
  destruct (concat_axis1_replicate
              (map (fun o => hd [] (sensor_positions o)) os))
    as (prow & Hprow).
  { now destruct os. }
  exists prow. intros m Hm. unfold poso_of. rewrite <- Hprow. f_equal. f_equal.
  rewrite !map_map. apply map_ext_Forall.
  eapply Forall_impl; [exact Hs|]. intros o Ho. cbn beta.
  now apply sensor_positions_single.
Qed.

Lemma source_field_single bh (st : list Obj) prow r :
  single (deref st r) ->
  exists X, forall m, 0 < m ->
    source_field bh (map (tiled m) st) (concat (replicate m prow)) m
                 (length prow) r
    = replicate m X.
Proof.
  intros Hs. unfold source_field.
  destruct (src_type_of (deref st r)) as [ty|] eqn:Et.
  - destruct (tiled_single 1 (deref st r) ltac:(lia) Hs)
      as (p & q & Ep & Eq & _).
    exists (map (fun po => level1_row bh ty (excitation (deref st r))
                             (dim_of (deref st r)) p po q) prow).
    intros m Hm. rewrite deref_map_tiled.
    destruct (tiled_single m (deref st r) Hm Hs)
      as (p' & q' & Ep' & Eq' & Tp & Tq).
    assert (p' = p) by congruence. assert (q' = q) by congruence. subst p' q'.
    unfold src_type_of. rewrite tiled_attrs. fold (src_type_of (deref st r)).
    rewrite Et. unfold world_field, excitation, dim_of.
    rewrite tiled_attrs, Tp, Tq.
    assert (Hch : chunks m (length prow) (concat (replicate m prow))
                  = replicate m prow).
    { rewrite <- (length_replicate m prow) at 1.
      apply chunks_concat. apply Forall_replicate. reflexivity. }
    rewrite Hch. now rewrite !zip_with_replicate.
  - exists (replicate (length prow) vzero). intros m Hm.
    rewrite deref_map_tiled. unfold src_type_of. rewrite tiled_attrs.
    fold (src_type_of (deref st r)). now rewrite Et.
Qed.

Lemma slice_frames_single k_pixel (os : list Obj) :
  Forall single os ->
  forall i X, exists Y, forall m, 0 < m ->
    slice_frames k_pixel i (map (tiled m) os) (replicate m X) = replicate m Y.
Proof.
  induction 1 as [|o os Ho _ IH]; intros i X.
  - exists X. reflexivity.
  - destruct (tiled_single 1 o ltac:(lia) Ho) as (p & q & Ep & Eq & _).
    destruct (IH (S i) (rotate_part q i k_pixel X)) as (Y & HY).
    exists Y. intros m Hm. cbn [map slice_frames].
    destruct (tiled_single m o Hm Ho) as (p' & q' & Ep' & Eq' & Tp & Tq).
    assert (q' = q) by congruence. subst q'.
    rewrite (imap_replicate_const _ m X (rotate_part q i k_pixel X)).
    + now apply HY.
    + intros j Hj. unfold step_frame.
      now rewrite Tq, lookup_replicate_2 by exact Hj.
Qed.

Lemma np_tile_rows_as_broadcast m n (d : list vec) :
  0 < m -> length d = n -> np_tile_rows m d = broadcast_to (m * n) d.
Proof.
  intros Hm Hd. unfold broadcast_to. rewrite Hd.
  destruct n as [|n].
  - destruct d; [|discriminate]. unfold np_tile_rows.
    assert (Hnil : forall k, concat (replicate k (@nil vec)) = [])
      by (induction k; simpl; auto).
    now rewrite !Hnil.
  - now rewrite Nat.div_mul by lia.
Qed.

(** Static sources seen by static sensors give, along a path of [m] steps,
    [m] times what they give without a path. *)
Lemma static_member_broadcasts bh k_pixel (st : list Obj) sensors r :
  sensors <> [] -> Forall (fun x => single (deref st x)) (r :: sensors) ->
  exists Y, forall m, 0 < m ->
    let stT := map (tiled m) st in
    let sens := map (deref stT) sensors in
    let poso := poso_of sens in
    slice_frames k_pixel 0 sens
      (source_field bh stT poso m (length poso / m) r)
    = replicate m Y.
Proof.
  intros Hne Hs. apply Forall_cons in Hs as [Hr Hsens].
  set (os := map (deref st) sensors).
  assert (Hos : Forall single os) by (subst os; now apply Forall_map).
  destruct (poso_of_single os) as (prow & Hprow); auto.
  { subst os. now destruct sensors. }
  destruct (source_field_single bh st prow r Hr) as (X & HX).
  destruct (slice_frames_single k_pixel os Hos 0 X) as (Y & HY).
  exists Y. intros m Hm stT sens poso.
  assert (Esens : sens = map (tiled m) os).
  { subst sens os stT. rewrite map_map. apply map_ext. intros x.
    apply deref_map_tiled. }
  assert (Eposo : poso = concat (replicate m prow)).
  { subst poso. rewrite Esens. now apply Hprow. }
  assert (En : length poso / m = length prow).
  { rewrite Eposo.
    change (concat (replicate m prow)) with (np_tile_rows m prow).
    rewrite np_tile_rows_length. rewrite Nat.mul_comm.
    apply Nat.div_mul. lia. }
  rewrite En, Eposo, Esens. subst stT. rewrite (HX m Hm). now apply HY.
Qed.

End BroadcastLemmas.

(** ** The claims *)

Section Claims.
Context {N : Numerics}.

Lemma sensors_frame_map k_pixel sensors : forall i (B : Tensor),
  sensors_frame k_pixel i sensors B = map (slice_frames k_pixel i sensors) B.
Proof.
  induction sensors as [|sens rest IH]; intros i B; simpl.
  - now rewrite map_id.
  - rewrite IH. unfold sensor_frame. now rewrite map_map.
Qed.

Lemma tiled_rot_length m o :
  length (_rot o) = length (_pos o) ->
  length (_rot (tiled m o)) = length (_pos (tiled m o)).
Proof.
  intros H. unfold tiled. destruct (_ && _); [|exact H]. simpl.
  rewrite !np_tile_rows_length. now rewrite H.
Qed.

(** C8: after the sources are grouped by family and every group is
    evaluated in one batch, row [i] of the (L, M, n, 3) tensor is the field
    of source [i] of the flattened input list, whatever the mix of
    families. *)
Theorem C8_scatter_restores_source_order bh st src_list poso m n s :
  Forall (recognized st) src_list ->
  Forall (fun r => length (_pos (deref st r)) = m
                   /\ length (_rot (deref st r)) = m) src_list ->
  length poso = m * n -> 0 < m ->
  exists g B s',
    group_sources st 0 src_list no_groups = Return g
    /\ eval_groups bh st g poso m n
         (replicate (length src_list) (zeros m n)) s = (Return B, s')
    /\ length B = length src_list
    /\ forall i r ty,
         src_list !! i = Some r -> src_type_of (deref st r) = Some ty ->
         B !! i = Some (world_field bh ty (deref st r) poso m n).
Proof.
  intros Hrec Hlen Ho Hm.
  destruct (group_sources_ok st src_list Hrec 0 no_groups eq_refl eq_refl)
    as (g & Hg & _).
  exists g, (map (source_field bh st poso m n) src_list),
         (logged s (used_types st src_list)).
  split; [exact Hg|]. split.
  - apply (eval_groups_ok bh st src_list g poso m n); auto.
    apply length_replicate.
  - split; [apply length_map|]. intros i r ty Hi Ht.
    change (map (source_field bh st poso m n) src_list)
      with (source_field bh st poso m n <$> src_list).
    rewrite list_lookup_fmap, Hi. simpl. unfold source_field. now rewrite Ht.
Qed.

(** C9: skipping the back-rotation of a sensor whose orientation is the
    unit rotation at every step, rotating the whole part at once when the
    orientation is constant, and rotating step by step all give what the
    step-by-step inverse rotation gives. *)
Theorem C9_back_rotation_paths_agree `{!QuatEq N} `{!UnitRotation N}
    l0 m n k_pixel i o (B : Tensor) :
  length (_rot o) = length (_pos o) ->
  length (_pos (tiled m o)) = m -> 0 < m ->
  part_fits l0 n k_pixel i B = true ->
  Forall (fun sl => length sl = m) B ->
  rotate_sensor l0 m n k_pixel i (tiled m o) (unrotated o) (static_rot o) B
  = rotate_sensor l0 m n k_pixel i (tiled m o) false false B
  /\ rotate_sensor l0 m n k_pixel i (tiled m o) false false B
     = Return (sensor_frame k_pixel i (tiled m o) B)
  /\ forall unrot static,
       flags_sound unrot static (tiled m o) ->
       rotate_sensor l0 m n k_pixel i (tiled m o) unrot static B
       = rotate_sensor l0 m n k_pixel i (tiled m o) false false B.
Proof.
  intros Hlen Hpos Hm Hfit HB.
  assert (Hrot : length (_rot (tiled m o)) = m).
  { rewrite tiled_rot_length; auto. }
  assert (Hgen : forall unrot static,
            flags_sound unrot static (tiled m o) ->
            rotate_sensor l0 m n k_pixel i (tiled m o) unrot static B
            = Return (sensor_frame k_pixel i (tiled m o) B)).
  { intros u st Hs. now apply rotate_sensor_ok. }
  assert (Hff : flags_sound false false (tiled m o)).
  { split; discriminate. }
  split; [|split].
  - rewrite (Hgen _ _ (flags_sound_tiled m o Hlen)). symmetry. now apply Hgen.
  - now apply Hgen.
  - intros u st Hs. rewrite (Hgen _ _ Hs). symmetry. now apply Hgen.
Qed.

(** C4: for L top-level sources, M path steps and K sensors of pixel shape
    (N1, N2, 3) the call returns shape (L, M, K, N1, N2, 3) without
    squeezing, (M, K, N1, N2, 3) when it sums over the sources, and a bare
    3-vector when it squeezes and L = M = K = N1 = N2 = 1. *)
Theorem C4_output_shape `{!QuatEq N} `{!UnitRotation N} `{!AddZero N}
    bh sources observers s sensors s1 m r0 rest N1 N2 :
  make_sensors observers s = (Return sensors, s1) ->
  call_ok (store s1) (sources_list sources) sensors m ->
  sensors = r0 :: rest ->
  pa_dims (pos_pix_of (deref (store s1) r0)) = [N1; N2] ->
  let L := length (sources_list sources) in
  let K := length sensors in
  (exists a, (getBH_level2 bh sources observers false false s).1 = Return a
             /\ shape a = [L; m; K; N1; N2; 3])
  /\ (exists a, (getBH_level2 bh sources observers true false s).1 = Return a
                /\ shape a = [m; K; N1; N2; 3])
  /\ (L = 1 -> m = 1 -> K = 1 -> N1 = 1 -> N2 = 1 ->
      forall sumup,
      exists a v, (getBH_level2 bh sources observers sumup true s).1 = Return a
                  /\ shape a = [3] /\ data a = [v]).
Proof.
  intros Hmk Hok Hs Hd L K.
  assert (Hfull : full_shape (store s1) (sources_list sources) sensors m
                  = [L; m; K; N1; N2; 3]).
  { unfold full_shape, pa_shape. subst sensors. now rewrite Hd. }
  split; [|split].
  - destruct (getBH_level2_ok bh sources observers false false s sensors s1 m
                Hmk Hok) as (Hrun & _).
    rewrite Hrun. eexists. split; [reflexivity|]. exact Hfull.
  - destruct (getBH_level2_ok bh sources observers true false s sensors s1 m
                Hmk Hok) as (Hrun & _).
    rewrite Hrun. eexists. split; [reflexivity|].
    unfold finish, np_sum0. cbn [shape]. now rewrite Hfull.
  - intros HL Hm HK HN1 HN2 sumup.
    destruct (getBH_level2_ok bh sources observers sumup true s sensors s1 m
                Hmk Hok) as (Hrun & Hlen & Hsh & _).
    rewrite Hrun, Hfull. unfold L, K in *.
    assert (Hsize : length (concat (concat
              (expected_tensor bh (store s1) (sources_list sources) sensors m)))
              = 1).
    { rewrite (tensor_size _ _ _ _ Hlen Hsh), HL, HK, Hm.
      unfold k_pixel_of. rewrite Hs, Hd, HN1, HN2. reflexivity. }
    destruct (concat (concat (expected_tensor bh (store s1)
                (sources_list sources) sensors m))) as [|v [|? ?]];
      try discriminate.
    rewrite HL, Hm, HK, HN1, HN2.
    destruct sumup.
    + exists (mkArr [3] [vadd v vzero]), (vadd v vzero). split; [reflexivity|].
      split; reflexivity.
    + exists (mkArr [3] [v]), v. split; [reflexivity|]. split; reflexivity.
Qed.

(** C10: a bare position, or a list of bare positions, is wrapped as one
    sensor with unit orientation and a path of length 1 whose pixels are all
    the given positions; that sensor counts as unrotated, nothing is rotated
    back, and the result is the world-frame field with a sensor axis of
    length 1. *)
Theorem C10_bare_positions_one_unrotated_sensor
    `{!QuatEq N} `{!UnitRotation N} `{!AddZero N}
    bh sources observers px sumup squeeze s m :
  bare_positions observers = Some px ->
  let r := length (store s) in
  let s1 := mkState (store s ++ [new_Sensor px]) (level1_calls s) in
  let srcs := sources_list sources in
  let stT := map (tiled m) (store s1) in
  let poso := poso_of [deref stT r] in
  let n := length poso / m in
  make_sensors observers s = (Return [r], s1)
  /\ deref (store s1) r = mkObj (SensorA px) [vzero] [unitQ]
  /\ (match observers with
      | ObsList l => pa_data px = flat_map pa_data (bare_arrays l)
      | _ => observers = ObsArray px
      end)
  /\ unrotated (deref (store s1) r) = true
  /\ (forall l0 n' k_pixel st (B : Tensor),
        rotate_sensor l0 m n' k_pixel 0 (deref stT r) true st B = Return B)
  /\ (call_ok (store s1) srcs [r] m ->
      (getBH_level2 bh sources observers sumup squeeze s).1
      = Return (finish sumup squeeze
          (mkArr ([length srcs; m; 1] ++ pa_shape px)
             (concat (concat
                (map (top_field m n (source_field bh stT poso m n)) srcs)))))).
Proof.
  intros Hbare r s1 srcs stT poso n.
  assert (Hmk : make_sensors observers s = (Return [r], s1)).
  { destruct observers as [?|a|l]; simpl in Hbare; try discriminate.
    - now injection Hbare as ->.
    - simpl. destruct (existsb is_ItemSensor l); [discriminate|].
      now injection Hbare as <-. }
  assert (Hd : deref (store s1) r = new_Sensor px).
  { unfold deref, s1, r. simpl.
    rewrite lookup_app_r by lia. now rewrite Nat.sub_diag. }
  split; [exact Hmk|]. split; [exact Hd|]. split.
  { destruct observers as [?|a|l]; simpl in Hbare; try discriminate.
    - now injection Hbare as ->.
    - destruct (existsb is_ItemSensor l); [discriminate|].
      now injection Hbare as <-. }
  split.
  { rewrite Hd. unfold unrotated. simpl. rewrite andb_true_r.
    now apply quat_eqb_eq. }
  split; [reflexivity|].
  intros Hok.
  destruct (getBH_level2_ok bh sources observers sumup squeeze s [r] s1 m
              Hmk Hok) as (Hrun & _).
  rewrite Hrun. cbn [fst]. f_equal. f_equal. unfold full_shape.
  rewrite Hd. cbn [length new_Sensor pos_pix_of attrs]. f_equal.
  unfold expected_tensor. fold stT. cbn [map sensors_frame].
  fold poso. fold n. rewrite sensor_frame_unrotated; [reflexivity|].
  unfold stT. rewrite deref_map_tiled, Hd. unfold tiled, new_Sensor.
  destruct (_ && _); cbn [_rot tile_obj].
  - rewrite np_tile_rows_single. now apply Forall_replicate.
  - now constructor.
Qed.

Lemma make_sensors_nonempty observers s sensors s1 :
  make_sensors observers s = (Return sensors, s1) -> sensors <> [].
Proof.
  destruct observers as [r|a|l]; simpl.
  - intros [= <- _]. discriminate.
  - intros [= <- _]. discriminate.
  - destruct (existsb is_ItemSensor l) eqn:E.
    + destruct l as [|[r|a] l]; [discriminate| |]; simpl.
      * destruct (wrap_items_extends l s) as (rs & extra & H).
        unfold bind. rewrite H. intros [= <- _]. discriminate.
      * unfold bind at 1, alloc.
        destruct (wrap_items_extends l
                    (mkState (store s ++ [new_Sensor a]) (level1_calls s)))
          as (rs & extra & H).
        unfold bind. rewrite H. intros [= <- _]. discriminate.
    + intros [= <- _]. discriminate.
Qed.

Lemma make_sensors_calls observers s sensors s1 :
  make_sensors observers s = (Return sensors, s1) ->
  level1_calls s1 = level1_calls s.
Proof.
  destruct (make_sensors_extends observers s) as (rs & extra & H).
  rewrite H. now intros [= _ <-].
Qed.

(** Tiling never raises, makes no call of [getBH_level1] and keeps the
    class of every object. *)
Lemma tiling_keeps_classes m obj_list s1 :
  exists rs st2,
    (if 1 <? m then tile_up m obj_list else ret []) s1
    = (Return rs, mkState st2 (level1_calls s1))
    /\ forall r, src_type_of (deref st2 r) = src_type_of (deref (store s1) r).
Proof.
  destruct s1 as [st1 log1]. simpl. destruct (1 <? m) eqn:E.
  - apply Nat.ltb_lt in E.
    destruct (tile_up_ok m obj_list E st1 log1) as (rs & Hrun & _).
    exists rs, (update_all (tiled m) obj_list st1). split; [exact Hrun|].
    intros r. unfold deref.
    rewrite update_all_lookup by (intros; now apply tiled_idem).
    destruct (st1 !! r) as [o|]; simpl; [|reflexivity].
    unfold src_type_of. destruct (bool_decide _); [|reflexivity].
    now rewrite tiled_attrs.
  - exists [], st1. split; reflexivity.
Qed.

Lemma group_sources_raises st src_list :
  Exists (fun r => ~ recognized st r) src_list ->
  forall i g,
  group_sources st i src_list g = Raise (MagpylibBadUserInput UnrecognizedObject).
Proof.
  induction 1 as [r rest Hr|r rest _ IH]; intros i g; simpl.
  - unfold recognized in Hr.
    destruct (src_type_of (deref st r)); [|reflexivity].
    exfalso. apply Hr. discriminate.
  - destruct (src_type_of (deref st r)); [apply IH | reflexivity].
Qed.

Lemma shape_check_raises bh sources observers sumup squeeze s sensors s1 :
  make_sensors observers s = (Return sensors, s1) ->
  all_same (map (fun r => pa_shape (pos_pix_of (deref (store s1) r))) sensors)
  = false ->
  getBH_level2 bh sources observers sumup squeeze s
  = (Raise (MagpylibBadUserInput DifferentObserverShapes), s1).
Proof.
  intros Hmk Hsame. unfold getBH_level2.
  rewrite (bind_Return _ _ _ _ _ Hmk).
  rewrite (bind_Return get_store _ s1 (store s1) s1 eq_refl).
  cbv zeta. now rewrite Hsame.
Qed.

Lemma path_check_raises bh sources observers sumup squeeze s sensors s1 e :
  make_sensors observers s = (Return sensors, s1) ->
  all_same (map (fun r => pa_shape (pos_pix_of (deref (store s1) r))) sensors)
  = true ->
  get_good_path_length
    (map (deref (store s1))
         (format_obj_input (sources_list sources) ++ sensors)) = Raise e ->
  getBH_level2 bh sources observers sumup squeeze s = (Raise e, s1).
Proof.
  intros Hmk Hsame Hbad.
  pose proof (make_sensors_nonempty _ _ _ _ Hmk) as Hne.
  unfold getBH_level2. fold (sources_list sources).
  rewrite (bind_Return _ _ _ _ _ Hmk).
  rewrite (bind_Return get_store _ s1 (store s1) s1 eq_refl).
  cbv zeta. rewrite Hsame. cbn [negb].
  destruct sensors as [|r0 rest]; [congruence|].
  cbn [map]. rewrite (bind_Return (lift _) _ s1 _ s1 eq_refl).
  apply bind_Raise. unfold lift. f_equal. exact Hbad.
Qed.

Lemma get_good_path_length_raises (objs : list Obj) :
  Exists (fun o => length (_pos o) <> 1
                   /\ length (_pos o)
                      <> max_list (map (fun o => length (_pos o)) objs)) objs ->
  get_good_path_length objs = Raise (MagpylibBadUserInput BadPathLength).
Proof.
  intros Hbad. unfold get_good_path_length.
  destruct (forallb _ _) eqn:Hall; [|reflexivity]. exfalso.
  rewrite forallb_forall in Hall.
  apply Exists_exists in Hbad. destruct Hbad as (o & Ho & H1 & HM).
  specialize (Hall (length (_pos o))).
  rewrite orb_true_iff, !Nat.eqb_eq in Hall.
  destruct Hall; [|tauto|tauto].
  apply in_map_iff. exists o. split; [reflexivity|].
  now apply list_elem_of_In.
Qed.

Lemma get_good_path_length_cases (objs : list Obj) :
  (exists m, get_good_path_length objs = Return m)
  \/ get_good_path_length objs = Raise (MagpylibBadUserInput BadPathLength).
Proof.
  unfold get_good_path_length. destruct (forallb _ _); eauto.
Qed.

(** C5: when the observers differ in pixel shape, or the path length of
    some object is neither 1 nor the maximum M of all path lengths, the call
    raises a bad-input error, and no field formula has been evaluated by
    then. *)
Theorem C5_bad_shapes_raise_before_any_formula
    bh sources observers sumup squeeze s sensors s1 :
  make_sensors observers s = (Return sensors, s1) ->
  let objs := map (deref (store s1))
                  (format_obj_input (sources_list sources) ++ sensors) in
  let M := max_list (map (fun o => length (_pos o)) objs) in
  all_same (map (fun r => pa_shape (pos_pix_of (deref (store s1) r))) sensors)
  = false
  \/ Exists (fun o => length (_pos o) <> 1 /\ length (_pos o) <> M) objs ->
  exists why,
    getBH_level2 bh sources observers sumup squeeze s
    = (Raise (MagpylibBadUserInput why), s1)
    /\ (why = DifferentObserverShapes \/ why = BadPathLength)
    /\ level1_calls s1 = level1_calls s.
Proof.
  intros Hmk objs M Hbad.
  pose proof (make_sensors_calls _ _ _ _ Hmk) as Hcalls.
  destruct (all_same (map (fun r => pa_shape (pos_pix_of (deref (store s1) r)))
                          sensors)) eqn:Esame.
  - destruct Hbad as [Hbad|Hbad]; [discriminate|].
    exists BadPathLength. split; [|auto].
    eapply path_check_raises; eauto.
    now apply get_good_path_length_raises.
  - exists DifferentObserverShapes. split; [|auto].
    eapply shape_check_raises; eauto.
Qed.

(** C6, amended: a call with a flattened source of no recognized family
    raises a bad-input error before the first call of [getBH_level1]; when
    the call passes the pixel-shape and the path-length check, it is the
    unrecognized-object error, raised while grouping. *)
Theorem C6_unrecognized_source_raises_before_dispatch
    bh sources observers sumup squeeze s sensors s1 :
  make_sensors observers s = (Return sensors, s1) ->
  Exists (fun r => ~ recognized (store s1) r)
         (format_obj_input (sources_list sources)) ->
  exists why s2,
    getBH_level2 bh sources observers sumup squeeze s
    = (Raise (MagpylibBadUserInput why), s2)
    /\ level1_calls s2 = level1_calls s
    /\ (all_same (map (fun r => pa_shape (pos_pix_of (deref (store s1) r)))
                      sensors) = true ->
        (exists m, get_good_path_length
                     (map (deref (store s1))
                          (format_obj_input (sources_list sources) ++ sensors))
                   = Return m) ->
        why = UnrecognizedObject).
Proof.
  intros Hmk Hun.
  pose proof (make_sensors_calls _ _ _ _ Hmk) as Hcalls.
  pose proof (make_sensors_nonempty _ _ _ _ Hmk) as Hne.
  destruct (all_same (map (fun r => pa_shape (pos_pix_of (deref (store s1) r)))
                          sensors)) eqn:Hsame.
  2:{ exists DifferentObserverShapes, s1. split; [|split; [auto|discriminate]].
      eapply shape_check_raises; eauto. }
  destruct (get_good_path_length_cases
              (map (deref (store s1))
                   (format_obj_input (sources_list sources) ++ sensors)))
    as [[m Hgood]|Hbad].
  2:{ exists BadPathLength, s1. split; [|split; [auto|]].
      - eapply path_check_raises; eauto.
      - intros _ [m Hm]. congruence. }
  unfold getBH_level2. fold (sources_list sources).
  rewrite (bind_Return _ _ _ _ _ Hmk).
  rewrite (bind_Return get_store _ s1 (store s1) s1 eq_refl).
  cbv zeta. rewrite Hsame. cbn [negb].
  destruct sensors as [|r0 rest]; [congruence|].
  remember (r0 :: rest) as sensors eqn:Es.
  assert (Hhead : map (fun r => pa_shape (pos_pix_of (deref (store s1) r)))
                      sensors
                  = pa_shape (pos_pix_of (deref (store s1) r0))
                    :: map (fun r => pa_shape (pos_pix_of (deref (store s1) r)))
                           rest) by (subst sensors; reflexivity).
  rewrite Hhead.
  rewrite (bind_Return (lift _) _ s1 _ s1 eq_refl).
  rewrite Hgood.
  rewrite (bind_Return (lift _) _ s1 _ s1 eq_refl).
  destruct (tiling_keeps_classes m
              (format_obj_input (sources_list sources) ++ sensors) s1)
    as (rs & st2 & Hrun & Hcls).
  rewrite (bind_Return _ _ _ _ _ Hrun).
  rewrite (bind_Return get_store _ (mkState st2 (level1_calls s1)) st2 _
             eq_refl).
  exists UnrecognizedObject, (mkState st2 (level1_calls s1)).
  split; [|split; [exact Hcalls | reflexivity]].
  apply bind_Raise. unfold lift. f_equal.
  apply group_sources_raises.
  eapply Exists_impl; [exact Hun|]. intros r Hr. cbn beta.
  unfold recognized in *. now rewrite Hcls.
Qed.

Lemma finish_one_entry `{!AddZero N} sumup squeeze m k dims (d : list vec) :
  length d = m * (k * prod_list dims) ->
  data (finish sumup squeeze (mkArr ([1; m] ++ k :: dims ++ [3]) d)) = d
  /\ shape (finish sumup squeeze (mkArr ([1; m] ++ k :: dims ++ [3]) d))
     = shape (finish sumup squeeze (mkArr ([1; m] ++ k :: dims ++ [3]) [])).
Proof.
  intros Hd.
  assert (Hc : prod_list (m :: k :: dims ++ [3]) / 3 = length d).
  { assert (Hp : prod_list (m :: k :: dims ++ [3]) = length d * 3).
    { change (m :: k :: dims ++ [3]) with ([m; k] ++ dims ++ [3]).
      rewrite !prod_list_app, Hd. unfold prod_list. simpl. lia. }
    rewrite Hp. apply Nat.div_mul. lia. }
  assert (Hsum : data (np_sum0 (mkArr ([1; m] ++ k :: dims ++ [3]) d)) = d).
  { unfold np_sum0. cbn [shape app data chunks fold_right].
    rewrite Hc, firstn_all. apply row_add_zeros. }
  unfold finish. destruct sumup, squeeze; cbn [np_squeeze data shape];
    auto.
Qed.

Lemma Forall_exists_Forall2 {A B} (P : A -> B -> Prop) (l : list A) :
  Forall (fun x => exists y, P x y) l -> exists k, Forall2 P l k.
Proof.
  induction 1 as [|x l [y Hy] _ [k Hk]].
  - exists []. constructor.
  - exists (y :: k). now constructor.
Qed.

Lemma slice_frames_shape k_pixel sensors m n (sl : Slice) :
  slice_shape m n sl -> slice_shape m n (slice_frames k_pixel 0 sensors sl).
Proof.
  intros Hsl.
  destruct (sensors_frame_shape k_pixel m n sensors 0 [sl]) as [H _].
  { now constructor. }
  rewrite sensors_frame_map in H. now apply Forall_inv in H.
Qed.

(** C3: the field of a Collection is the element-wise sum of the fields of
    its members, each evaluated alone at the same observers (a member that
    alone has no path repeats along the path of the Collection, as numpy
    broadcasts it); so is what [Collection.getB] returns. *)
Theorem C3_collection_is_sum
    `{!QuatEq N} `{!UnitRotation N} `{!AddZero N} `{!LinearRotation N}
    bh ss observers sumup squeeze s sensors s1 m :
  make_sensors observers s = (Return sensors, s1) ->
  call_ok (store s1) [Coll ss] sensors m ->
  exists total parts,
    (getBH_level2 bh (OneSource (Coll ss)) observers sumup squeeze s).1
    = Return total
    /\ Forall2 (fun r part =>
                  (getBH_level2 bh (OneSource (Elem r)) observers sumup
                                squeeze s).1 = Return part
                  /\ (get_good_path_length
                        (map (deref (store s1)) ([r] ++ sensors)) = Return m ->
                      shape part = shape total)) ss parts
    /\ data total
       = fold_right (zip_with vadd) (replicate (length (data total)) vzero)
           (map (fun part => broadcast_to (length (data total)) (data part))
                parts)
    /\ (bh = true -> sumup = true ->
        (Collection_getB ss observers squeeze s).1 = Return total).
Proof.
  intros Hmk Hok.
  pose proof Hok as (Hne & Hsame & Hgood & Hpaths & Hrec & Hnonempty & Hpix).
  destruct (get_good_path_length_inv _ _ Hgood) as [Hlens _].
  rewrite Forall_map in Hlens.
  destruct sensors as [|r0 rest]; [congruence|].
  remember (r0 :: rest) as sensors eqn:Esens.
  cbn [format_obj_input flat_map] in Hpaths, Hrec, Hlens.
  rewrite app_nil_r in *.
  set (st1 := store s1) in *.
  set (kp := k_pixel_of st1 sensors).
  set (dims := pa_dims (pos_pix_of (deref st1 r0))).
  set (K := length sensors).
  assert (Hkp : kp = prod_list dims).
  { subst kp dims. rewrite Esens. reflexivity. }
  set (n := K * kp).
  set (G := fun m' r =>
              let stT := map (tiled m') st1 in
              let sens := map (deref stT) sensors in
              let poso := poso_of sens in
              slice_frames kp 0 sens
                (source_field bh stT poso m' (length poso / m') r)).
  set (sh := fun m' => [1; m'] ++ K :: dims ++ [3]).
  assert (Hfull : forall srcs m', length srcs = 1 ->
            full_shape st1 srcs sensors m' = sh m').
  { intros srcs m' Hl. unfold full_shape, sh, dims, K. rewrite Hl, Esens.
    reflexivity. }
  (* one source alone, at a path length that suits it *)
  assert (Halone : forall r m' su sq,
            call_ok st1 [Elem r] sensors m' ->
            (getBH_level2 bh (OneSource (Elem r)) observers su sq s).1
            = Return (finish su sq (mkArr (sh m') (concat (G m' r))))
            /\ slice_shape m' n (G m' r)).
  { intros r m' su sq Hok_r.
    destruct (getBH_level2_ok bh (OneSource (Elem r)) observers su sq s
                sensors s1 m' Hmk Hok_r) as (Hrun & _ & Hsh & _).
    cbn [sources_list] in *. fold st1 in Hrun, Hsh.
    rewrite (Hfull [Elem r] m' eq_refl) in Hrun.
    unfold expected_tensor in Hrun, Hsh. fold kp in Hrun, Hsh.
    rewrite sensors_frame_map in Hrun, Hsh.
    cbn [map top_field concat] in Hrun, Hsh. rewrite app_nil_r in Hrun.
    split; [now rewrite Hrun|]. now apply Forall_inv in Hsh. }
  assert (Hok_at : forall r m', r ∈ ss ->
            get_good_path_length (map (deref st1) ([r] ++ sensors))
            = Return m' ->
            call_ok st1 [Elem r] sensors m').
  { intros r m' Hr Hgr. unfold call_ok. cbn [format_obj_input flat_map app].
    split; [exact Hne|]. split; [exact Hsame|]. split; [exact Hgr|]. split.
    - rewrite Forall_forall in Hpaths. apply Forall_forall. intros x Hx.
      apply Hpaths. apply elem_of_cons in Hx as [->|Hx];
        apply elem_of_app; auto.
    - rewrite Forall_forall in Hrec.
      split; [constructor; [now apply Hrec | constructor]|].
      split; [repeat constructor | exact Hpix]. }
  (* the Collection *)
  destruct (getBH_level2_ok bh (OneSource (Coll ss)) observers sumup squeeze s
              sensors s1 m Hmk Hok) as (HrunC & HlenC & HshC & Hm & Hposo).
  cbn [sources_list] in *. fold st1 kp K in HrunC, HshC, Hposo. fold n in HshC.
  assert (Hn : length (poso_of (map (deref (map (tiled m) st1)) sensors)) / m
               = n).
  { rewrite Hposo, Nat.mul_comm. apply Nat.div_mul. lia. }
  rewrite (Hfull [Coll ss] m eq_refl) in HrunC.
  assert (HexpC : expected_tensor bh st1 [Coll ss] sensors m
                  = [np_sum_slices m n (map (G m) ss)]).
  { unfold expected_tensor. fold kp. rewrite sensors_frame_map.
    cbn [map top_field]. rewrite Hn, slice_frames_sum, map_map.
    f_equal. f_equal. apply map_ext. intros r. unfold G. cbv zeta.
    now rewrite Hn. }
  rewrite HexpC in HrunC, HshC. cbn [concat] in HrunC.
  rewrite app_nil_r in HrunC.
  set (dC := concat (np_sum_slices m n (map (G m) ss))) in *.
  assert (HlendC : length dC = m * n).
  { apply Forall_inv in HshC. destruct HshC as [Hm' Hr].
    subst dC. rewrite (concat_length_const n) by exact Hr.
    now rewrite Hm'. }
  assert (Hfin : forall m' su sq d, length d = m' * n ->
            data (finish su sq (mkArr (sh m') d)) = d
            /\ shape (finish su sq (mkArr (sh m') d))
               = shape (finish su sq (mkArr (sh m') []))).
  { intros m' su sq d Hd. apply finish_one_entry. rewrite Hd. unfold n.
    now rewrite Hkp. }
  (* every member *)
  assert (Hmember : Forall (fun r => exists part,
            ((getBH_level2 bh (OneSource (Elem r)) observers sumup squeeze
                           s).1 = Return part
             /\ (get_good_path_length (map (deref st1) ([r] ++ sensors))
                 = Return m ->
                 shape part = shape (finish sumup squeeze (mkArr (sh m) dC))))
            /\ slice_shape m n (G m r)
            /\ concat (G m r) = broadcast_to (m * n) (data part)) ss).
  { apply Forall_forall. intros r Hr.
    assert (Hsub : Forall (fun o => 0 < length (_pos o)
                     /\ (length (_pos o) = 1 \/ length (_pos o) = m))
                     (map (deref st1) ([r] ++ sensors))).
    { apply Forall_map. rewrite Forall_forall in Hpaths, Hlens.
      apply Forall_forall. intros x Hx.
      assert (Hin : x ∈ ss ++ sensors).
      { apply elem_of_cons in Hx as [->|Hx]; apply elem_of_app; auto. }
      split; [apply (Hpaths x Hin) | apply (Hlens x Hin)]. }
    assert (Hobjs : map (deref st1) ([r] ++ sensors) <> [])
      by discriminate.
    destruct (get_good_path_length_sub _ m Hobjs Hsub) as [Hgm|[Hg1 Hall1]].
    - (* the member has the path length of the Collection *)
      destruct (Halone r m sumup squeeze (Hok_at r m Hr Hgm)) as [Hrun Hsl].
      exists (finish sumup squeeze (mkArr (sh m) (concat (G m r)))).
      assert (Hlen : length (concat (G m r)) = m * n).
      { destruct Hsl as [Hm' Hrows].
        rewrite (concat_length_const n) by exact Hrows. now rewrite Hm'. }
      split; [split; [exact Hrun|]|split; [exact Hsl|]].
      + intros _. rewrite (proj2 (Hfin m _ _ _ Hlen)). symmetry.
        apply (proj2 (Hfin m _ _ _ HlendC)).
      + rewrite (proj1 (Hfin m _ _ _ Hlen)).
        pose proof (np_tile_rows_as_broadcast 1 (m * n) (concat (G m r))
                      Nat.lt_0_1 Hlen) as Hb.
        rewrite Nat.mul_1_l in Hb. rewrite <- Hb.
        unfold np_tile_rows. simpl. now rewrite app_nil_r.
    - (* the member and the sensors have no path *)
      destruct (Halone r 1 sumup squeeze (Hok_at r 1 Hr Hg1)) as [Hrun Hsl].
      destruct (static_member_broadcasts bh kp st1 sensors r Hne)
        as (Y & HY).
      { rewrite Forall_map in Hall1. rewrite Forall_forall in Hall1, Hpaths.
        apply Forall_forall. intros x Hx. split; [now apply Hall1|].
        assert (Hin : x ∈ ss ++ sensors).
        { apply elem_of_cons in Hx as [->|Hx]; apply elem_of_app; auto. }
        destruct (Hpaths x Hin) as [_ ->]. now apply Hall1. }
      assert (HG1 : G 1 r = [Y]) by (apply (HY 1); lia).
      assert (HGm : G m r = replicate m Y) by (apply (HY m); exact Hm).
      assert (HlenY : length Y = n).
      { destruct Hsl as [_ Hrows]. rewrite HG1 in Hrows.
        now apply Forall_inv in Hrows. }
      assert (Hd1 : concat (G 1 r) = Y).
      { rewrite HG1. simpl. now rewrite app_nil_r. }
      rewrite Hd1 in Hrun.
      exists (finish sumup squeeze (mkArr (sh 1) Y)).
      assert (HlenY1 : length Y = 1 * n) by lia.
      split; [split; [exact Hrun|]|split].
      + intros Hgm. assert (m = 1) by congruence. subst m.
        rewrite (proj2 (Hfin 1 _ _ _ HlenY1)). symmetry.
        apply (proj2 (Hfin 1 _ _ _ HlendC)).
      + rewrite HGm. split; [apply length_replicate|].
        now apply Forall_replicate.
      + rewrite (proj1 (Hfin 1 _ _ _ HlenY1)), HGm.
        now apply np_tile_rows_as_broadcast. }
  apply Forall_exists_Forall2 in Hmember. destruct Hmember as [parts Hparts].
  assert (HG : Forall (slice_shape m n) (map (G m) ss)).
  { apply Forall_map. clear - Hparts.
    induction Hparts as [|r part l k (_ & Hsl & _) _ IH];
      constructor; auto. }
  assert (HdC : dC = fold_right (zip_with vadd) (replicate (m * n) vzero)
                       (map (fun part => broadcast_to (m * n) (data part))
                            parts)).
  { subst dC. rewrite (concat_np_sum_slices m n) by exact HG.
    rewrite map_map. f_equal. clear - Hparts.
    induction Hparts as [|r part l k (_ & _ & Hb) _ IH]; simpl;
      [reflexivity|]. now rewrite Hb, IH. }
  exists (finish sumup squeeze (mkArr (sh m) dC)), parts.
  split; [now rewrite HrunC|]. split; [|split].
  - eapply Forall2_impl; [exact Hparts|]. intros r part (H1 & _). exact H1.
  - rewrite (proj1 (Hfin m _ _ _ HlendC)), HlendC. exact HdC.
  - intros -> ->. unfold Collection_getB. now rewrite HrunC.
Qed.

End Claims.

Section MagnetClaims.
Context {MM : MagnetMath}.
Import Magnets.

(** The rotation about the negated axis is the inverse of the orientation:
    it agrees with every map that undoes the orientation. *)
Lemma negated_axis_is_the_inverse `{!NegatedAxis MM} (self : Magnet)
    (inv : mvec -> mvec) :
  (forall v, inv (orientation self v) = v) ->
  forall w, angleAxisRotation (angle self) (mneg (axis self)) w = inv w.
Proof.
  intros Hinv w.
  transitivity
    (inv (orientation self
            (angleAxisRotation (angle self) (mneg (axis self)) w))).
  - symmetry. apply Hinv.
  - unfold orientation. now rewrite rotation_after_negated_axis.
Qed.

(** C7: every magnet class computes its field by the same sequence.  With
    [inv] the inverse of the orientation of the source (any map that undoes
    the rotation by its angle about its axis): the source position is
    subtracted from the observer position, the difference is taken into the
    frame of the source by [inv], the closed-form formula is evaluated
    there, and the field is rotated back out by the orientation itself; so
    the field seen from the frame of the source is the formula at the
    position seen from that frame. *)
Theorem C7_frame_transform_sequence `{!NegatedAxis MM} (self : Magnet)
    (inv : mvec -> mvec) (pos : mvec) :
  (forall v, inv (orientation self v) = v) ->
  let in_source_frame := inv (msub pos (position self)) in
  (Cube_getB self pos
   = frame_transform_field (position self) inv (orientation self)
       (fun p => Bfield_Cube (magnetization self) p (dimension self)) pos
   /\ inv (Cube_getB self pos)
      = Bfield_Cube (magnetization self) in_source_frame (dimension self))
  /\ (Cylinder_getB self pos
      = frame_transform_field (position self) inv (orientation self)
          (fun p => Bfield_Cylinder (magnetization self) p (dimension self)
                                    (iterDia self)) pos
      /\ inv (Cylinder_getB self pos)
         = Bfield_Cylinder (magnetization self) in_source_frame
                           (dimension self) (iterDia self))
  /\ (Sphere_getB self pos
      = frame_transform_field (position self) inv (orientation self)
          (fun p => Bfield_Sphere (magnetization self) p (dimension self)) pos
      /\ inv (Sphere_getB self pos)
         = Bfield_Sphere (magnetization self) in_source_frame
                         (dimension self)).
Proof.
  intros Hinv in_source_frame.
  pose proof (negated_axis_is_the_inverse self inv Hinv) as Hneg.
  unfold Cube_getB, Cylinder_getB, Sphere_getB, frame_transform_field.
  cbv zeta. rewrite !Hneg. fold (orientation self). rewrite !Hinv.
  repeat split.
Qed.

End MagnetClaims.

(** ** The claims at the scene *)

Module SceneChecks.
Import ZNum ZNumLaws Scene.

Ltac forall_now :=
  repeat (first [ apply Forall_nil | apply Forall_cons; split ]);
  cbv; try tauto; try lia; try discriminate; auto.

(** A box, a dipole and a second box, tiled to two steps, at two observer
    positions per step. *)
Lemma C8_witness :
  exists g B s',
    group_sources (map (tiled 2) objects) 0 [0; 1; 2] no_groups = Return g
    /\ eval_groups true (map (tiled 2) objects) g
         [(1, 0, 1); (0, 1, 0); (1, 0, 2); (0, 1, 1)]%Z 2 2
         (replicate 3 (zeros 2 2)) start = (Return B, s')
    /\ length B = 3
    /\ forall i r ty,
         [0; 1; 2] !! i = Some r ->
         src_type_of (deref (map (tiled 2) objects) r) = Some ty ->
         B !! i = Some (world_field true ty (deref (map (tiled 2) objects) r)
                          [(1, 0, 1); (0, 1, 0); (1, 0, 2); (0, 1, 1)]%Z 2 2).
Proof.
  apply (C8_scatter_restores_source_order true (map (tiled 2) objects)
           [0; 1; 2] [(1, 0, 1); (0, 1, 0); (1, 0, 2); (0, 1, 1)]%Z 2 2 start).
  - forall_now.
  - forall_now.
  - reflexivity.
  - lia.
Defined.

(** The three paths on a tensor of one entry: the sensor without rotation
    is skipped, the static sensor is turned in one batch, the sensor that
    turns along its path step by step. *)
Lemma C9_witness :
  let B : Tensor := [[[(1, 2, 3); (4, 5, 6)]; [(7, 8, 9); (1, 1, 1)]]]%Z in
  let agree := fun (k_pixel : nat) (o : Obj) =>
    rotate_sensor 1 2 2 k_pixel 0 (tiled 2 o) (unrotated o) (static_rot o) B
    = rotate_sensor 1 2 2 k_pixel 0 (tiled 2 o) false false B
    /\ rotate_sensor 1 2 2 k_pixel 0 (tiled 2 o) false false B
       = Return (sensor_frame k_pixel 0 (tiled 2 o) B)
    /\ forall unrot static,
         flags_sound unrot static (tiled 2 o) ->
         rotate_sensor 1 2 2 k_pixel 0 (tiled 2 o) unrot static B
         = rotate_sensor 1 2 2 k_pixel 0 (tiled 2 o) false false B in
  (unrotated (deref objects 8) = true /\ agree 1 (deref objects 8))
  /\ (unrotated (deref objects 3) = false
      /\ static_rot (deref objects 3) = true /\ agree 2 (deref objects 3))
  /\ (unrotated (deref objects 4) = false
      /\ static_rot (deref objects 4) = false /\ agree 2 (deref objects 4)).
Proof.
  intros B agree.
  split; [split; [reflexivity|]|split; (split; [reflexivity|split; [reflexivity|]])].
  - apply (C9_back_rotation_paths_agree 1 2 2 1 0 (deref objects 8) B).
    + reflexivity.
    + reflexivity.
    + lia.
    + reflexivity.
    + forall_now.
  - apply (C9_back_rotation_paths_agree 1 2 2 2 0 (deref objects 3) B).
    + reflexivity.
    + reflexivity.
    + lia.
    + reflexivity.
    + forall_now.
  - apply (C9_back_rotation_paths_agree 1 2 2 2 0 (deref objects 4) B).
    + reflexivity.
    + reflexivity.
    + lia.
    + reflexivity.
    + forall_now.
Defined.

Ltac call_ok_now :=
  unfold call_ok;
  split; [discriminate|]; split; [reflexivity|]; split; [reflexivity|];
  split; [forall_now|]; split; [forall_now|]; split; forall_now.

(** C1: an empty Collection before the Collection of the box, the dipole
    and the rotated box, seen by the rotated sensor: the entry of the
    second Collection is the one the Collection of the dipole and the
    rotated box has alone, the field of the box is not in the sum, and
    the entry of the empty Collection is zero. *)
Lemma C1_empty_collection_drops_a_member :
  let observers := ObsList [ItemSensor 3] in
  let call := fun sources =>
    (getBH_level2 true sources observers false false start).1 in
  let rest : list zvec :=
    [(39, 18, -983); (39, 28, -988); (53, 19, -985); (53, 31, -990)]%Z in
  let whole : list zvec :=
    [(39, 17, 16); (39, 28, 12); (53, 18, 14); (53, 31, 10)]%Z in
  call (OneSource (Coll [0; 1; 2])) = Return (mkArr [1; 2; 1; 2; 1; 3] whole)
  /\ call (OneSource (Coll [1; 2])) = Return (mkArr [1; 2; 1; 2; 1; 3] rest)
  /\ call (SourceList [Coll []; Coll [0; 1; 2]])
     = Return (mkArr [2; 2; 1; 2; 1; 3] (replicate 4 vzero ++ rest))
  /\ rest <> whole.
Proof.
  intros observers call rest whole.
  split; [reflexivity|]. split; [reflexivity|]. split; [reflexivity|].
  discriminate.
Qed.

(** A box and a Collection of a dipole and a box, seen by the two sensors. *)
Lemma C4_witness :
  let sources := SourceList [Elem 0; Coll [1; 2]] in
  let observers := ObsList [ItemSensor 3; ItemSensor 4] in
  (exists a, (getBH_level2 true sources observers false false start).1
             = Return a /\ shape a = [2; 2; 2; 2; 1; 3])
  /\ (exists a, (getBH_level2 true sources observers true false start).1
                = Return a /\ shape a = [2; 2; 2; 1; 3]).
Proof.
  intros sources observers.
  destruct (C4_output_shape true sources observers start [3; 4] start 2
              3 [4] 2 1) as (H1 & H2 & _).
  - reflexivity.
  - call_ok_now.
  - reflexivity.
  - reflexivity.
  - split; [exact H1 | exact H2].
Defined.

(** Two bare positions, given as a list, and the box with the Collection. *)
Lemma C10_witness :
  let sources := SourceList [Elem 0; Coll [1; 2]] in
  let observers := ObsList [ItemBare (mkPosArray [] [(1, 0, 1)%Z]);
                            ItemBare (mkPosArray [] [(0, 1, 0)%Z])] in
  let px := mkPosArray [2] [(1, 0, 1); (0, 1, 0)]%Z in
  let s1 := mkState (objects ++ [new_Sensor px]) [] in
  let stT := map (tiled 2) (store s1) in
  let poso := poso_of [deref stT 9] in
  make_sensors observers start = (Return [9], s1)
  /\ unrotated (deref (store s1) 9) = true
  /\ (getBH_level2 true sources observers false false start).1
     = Return (mkArr [2; 2; 1; 2; 3]
          (concat (concat
             (map (top_field 2 2 (source_field true stT poso 2 2))
                  (sources_list sources))))).
Proof.
  intros sources observers px s1 stT poso.
  destruct (C10_bare_positions_one_unrotated_sensor true sources observers px
              false false start 2 eq_refl) as (H1 & _ & _ & H4 & _ & H6).
  split; [exact H1|]. split; [exact H4|].
  apply H6. call_ok_now.
Defined.

(** Two sources with paths of 3 and of 5 steps. *)
Lemma C5_witness :
  exists why,
    getBH_level2 true (SourceList [Elem 6; Elem 7]) (ObsSensor 3) false true
                 start
    = (Raise (MagpylibBadUserInput why), start)
    /\ (why = DifferentObserverShapes \/ why = BadPathLength)
    /\ level1_calls start = level1_calls start.
Proof.
  apply (C5_bad_shapes_raise_before_any_formula true
           (SourceList [Elem 6; Elem 7]) (ObsSensor 3) false true start
           [3] start).
  - reflexivity.
  - right. apply Exists_cons_hd. cbv. split; lia.
Defined.

(** A sensor listed among the sources. *)
Lemma C6_witness :
  exists why s2,
    getBH_level2 true (SourceList [Elem 0; Elem 3]) (ObsSensor 4) false true
                 start
    = (Raise (MagpylibBadUserInput why), s2)
    /\ level1_calls s2 = level1_calls start
    /\ why = UnrecognizedObject.
Proof.
  destruct (C6_unrecognized_source_raises_before_dispatch true
              (SourceList [Elem 0; Elem 3]) (ObsSensor 4) false true start
              [4] start) as (why & s2 & H1 & H2 & H3).
  - reflexivity.
  - apply Exists_cons_tl, Exists_cons_hd. intros H. now apply H.
  - exists why, s2. split; [exact H1|]. split; [exact H2|].
    apply H3; [reflexivity|]. exists 2. reflexivity.
Defined.

(** An object of no source class, seen by observers of two pixel shapes:
    the error is the one of the shape check. *)
Lemma C6_counterexample :
  let out := getBH_level2 true (SourceList [Elem 5])
               (ObsList [ItemSensor 3; ItemSensor 8]) false true start in
  Exists (fun r => ~ recognized objects r) (format_obj_input [Elem 5])
  /\ out.1 = Raise (MagpylibBadUserInput DifferentObserverShapes)
  /\ out.1 <> Raise (MagpylibBadUserInput UnrecognizedObject).
Proof.
  split; [|split].
  - apply Exists_cons_hd. intros H. now apply H.
  - reflexivity.
  - discriminate.
Qed.

(** C2 at a call that raises: the box of path length 1 was tiled to the two
    steps of the sensor before the grouping raised, and it stays tiled. *)
Lemma C2_error_leaves_paths_tiled :
  let out := getBH_level2 true (SourceList [Elem 0; Elem 3]) (ObsSensor 4)
               false true start in
  out.1 = Raise (MagpylibBadUserInput UnrecognizedObject)
  /\ _pos (deref objects 0) = [(0, 0, 0)%Z]
  /\ _pos (deref (store out.2) 0) = [(0, 0, 0); (0, 0, 0)]%Z
  /\ store out.2 <> objects.
Proof.
  split; [reflexivity|]. split; [reflexivity|]. split; [reflexivity|].
  discriminate.
Qed.

(** A half turn about the negated axis is undone by the half turn about
    the axis. *)
Lemma half_turn_negated_axis : NegatedAxis Magnets.zmath.
Proof.
  intros ang [[a b] c] [[x y] z]. cbn.
  destruct ang; cbn; [|reflexivity].
  replace (0 - a =? 0)%Z with (a =? 0)%Z
    by (destruct (Z.eqb_spec a 0), (Z.eqb_spec (0 - a) 0); lia).
  replace (0 - b =? 0)%Z with (b =? 0)%Z
    by (destruct (Z.eqb_spec b 0), (Z.eqb_spec (0 - b) 0); lia).
  destruct (a =? 0)%Z, (b =? 0)%Z; cbn;
    now rewrite ?Z.opp_involutive.
Qed.

(** The cube turned by half a turn about the z axis: the half turn undoes
    itself. *)
Lemma C7_witness :
  let self := Magnets.a_cube in
  let inv := Magnets.half_turn true (0, 0, 1)%Z in
  (forall v, inv (Magnets.orientation self v) = v)
  /\ Magnets.Cube_getB self (1, 0, 1)%Z
     = Magnets.frame_transform_field (Magnets.position self) inv
         (Magnets.orientation self)
         (fun p => @Bfield_Cube Magnets.zmath (Magnets.magnetization self) p
                     (Magnets.dimension self)) (1, 0, 1)%Z
  /\ inv (Magnets.Cube_getB self (1, 0, 1)%Z)
     = @Bfield_Cube Magnets.zmath (Magnets.magnetization self)
         (inv (@msub Magnets.zmath (1, 0, 1)%Z (Magnets.position self)))
         (Magnets.dimension self).
Proof.
  intros self inv.
  assert (Hinv : forall v, inv (Magnets.orientation self v) = v).
  { intros [[x y] z]. cbn. now rewrite !Z.opp_involutive. }
  split; [exact Hinv|].
  destruct (@C7_frame_transform_sequence Magnets.zmath
              half_turn_negated_axis self inv (1, 0, 1)%Z Hinv)
    as ((H1 & H2) & _).
  split; [exact H1 | exact H2].
Defined.

(** The Collection of the static box and the moving dipole, seen by the
    static sensor: alone the box has no path, in the Collection it has the
    two steps of the dipole. *)
Lemma C3_witness :
  let observers := ObsList [ItemSensor 3] in
  exists total parts,
    (getBH_level2 true (OneSource (Coll [0; 1])) observers true true start).1
    = Return total
    /\ Forall2 (fun r part =>
                  (getBH_level2 true (OneSource (Elem r)) observers true true
                                start).1 = Return part
                  /\ (get_good_path_length
                        (map (deref (store start)) ([r] ++ [3])) = Return 2 ->
                      shape part = shape total)) [0; 1] parts
    /\ data total
       = fold_right (zip_with vadd) (replicate (length (data total)) vzero)
           (map (fun part => broadcast_to (length (data total)) (data part))
                parts)
    /\ (true = true -> true = true ->
        (Collection_getB [0; 1] observers true start).1 = Return total).
Proof.
  intros observers.
  apply (C3_collection_is_sum true [0; 1] observers true true start
           [3] start 2).
  - reflexivity.
  - call_ok_now.
Defined.

End SceneChecks.

(** ** Layouts, edge cases and the state of the objects *)

Section LayoutLemmas.
Context {N : Numerics}.

Lemma concat_lookup_const {A} n (ll : list (list A)) : forall j p row,
  Forall (fun r => length r = n) ll -> ll !! j = Some row -> p < n ->
  concat ll !! (j * n + p) = row !! p.
Proof.
  induction ll as [|r ll IH]; intros j p row Hall Hj Hp; [discriminate|].
  apply Forall_cons in Hall as [Hr Hall]. destruct j as [|j]; simpl in *.
  - injection Hj as ->. apply lookup_app_l. lia.
  - rewrite lookup_app_r by lia.
    replace (n + j * n + p - length r) with (j * n + p) by lia. now apply IH.
Qed.

Lemma flat_map_lookup_const {A B} (f : A -> list B) c (l : list A) i q x :
  Forall (fun y => length (f y) = c) l -> l !! i = Some x -> q < c ->
  flat_map f l !! (i * c + q) = f x !! q.
Proof.
  intros Hall Hi Hq. rewrite flat_map_concat_map.
  apply concat_lookup_const; auto.
  - now apply Forall_map.
  - change (map f l) with (f <$> l). now rewrite list_lookup_fmap, Hi.
Qed.

Lemma np_tile_each_lookup {A} n (a : list A) j p :
  p < n -> np_tile_each n a !! (j * n + p) = a !! j.
Proof.
  intros Hp. unfold np_tile_each.
  destruct (a !! j) as [x|] eqn:E.
  - rewrite (flat_map_lookup_const _ n a j p x); auto.
    + now apply lookup_replicate_2.
    + apply Forall_forall. intros y _. apply length_replicate.
  - apply lookup_ge_None. apply lookup_ge_None in E.
    rewrite flat_map_concat_map.
    rewrite (concat_length_const n).
    + rewrite length_map. nia.
    + apply Forall_map, Forall_forall. intros y _. apply length_replicate.
Qed.

Lemma np_tile_rows_lookup {A} k (a : list A) i q :
  i < k -> q < length a -> np_tile_rows k a !! (i * length a + q) = a !! q.
Proof.
  intros Hi Hq. unfold np_tile_rows.
  apply concat_lookup_const; auto.
  - apply Forall_forall. intros r Hr. now apply elem_of_replicate in Hr as [-> _].
  - now apply lookup_replicate_2.
Qed.

End LayoutLemmas.

Section DictLayout.
Context {N : Numerics}.

Lemma flat_map_blocks_length {A B} (f : A -> list B) c (l : list A) :
  Forall (fun y => length (f y) = c) l ->
  length (flat_map f l) = length l * c.
Proof.
  intros Hf. rewrite flat_map_concat_map, (concat_length_const c).
  - now rewrite length_map.
  - now apply Forall_map.
Qed.

(** What the rows of the arrays both helpers fill hold: the excitation of
    source [i], its position and orientation at step [j], and observer
    [j*n+p]. *)
Lemma dict_rows (group : list Obj) (poso : list vec) m n :
  Forall (fun src => length (_pos src) = m /\ length (_rot src) = m) group ->
  length poso = m * n ->
  let exc := flat_map (fun src => replicate (m * n) (excitation src)) group in
  let pos := flat_map (fun src => np_tile_each n (_pos src)) group in
  let pos_obs := np_tile_rows (length group) poso in
  let rot := flat_map (fun src => np_tile_each n (_rot src)) group in
  (length exc = length group * (m * n)
   /\ length pos = length group * (m * n)
   /\ length pos_obs = length group * (m * n)
   /\ length rot = length group * (m * n))
  /\ forall i j p src,
       group !! i = Some src -> j < m -> p < n ->
       let row := i * (m * n) + (j * n + p) in
       exc !! row = Some (excitation src)
       /\ pos !! row = _pos src !! j
       /\ pos_obs !! row = poso !! (j * n + p)
       /\ rot !! row = _rot src !! j.
Proof.
  intros Hall Hposo exc pos pos_obs rot.
  assert (Hpos : Forall (fun y => length (np_tile_each n (_pos y)) = m * n) group).
  { eapply Forall_impl; [exact Hall|]. intros y [Hy _]. cbn beta.
    now rewrite np_tile_each_length, Hy. }
  assert (Hrot : Forall (fun y => length (np_tile_each n (_rot y)) = m * n) group).
  { eapply Forall_impl; [exact Hall|]. intros y [_ Hy]. cbn beta.
    now rewrite np_tile_each_length, Hy. }
  assert (Hexc : Forall (fun y => length (replicate (m * n) (excitation y))
                                  = m * n) group).
  { apply Forall_forall. intros y _. apply length_replicate. }
  split.
  - subst exc pos pos_obs rot.
    rewrite !(flat_map_blocks_length _ (m * n)) by assumption.
    now rewrite np_tile_rows_length, Hposo.
  - intros i j p src Hi Hj Hp row. subst row.
    assert (Hq : j * n + p < m * n) by nia.
    subst exc pos pos_obs rot.
    rewrite !(flat_map_lookup_const _ (m * n) group i _ src) by assumption.
    split; [now apply lookup_replicate_2|].
    split; [now apply np_tile_each_lookup|].
    split; [|now apply np_tile_each_lookup].
    rewrite <- Hposo. apply np_tile_rows_lookup; [|lia].
    eapply lookup_lt_Some. exact Hi.
Qed.

(** X1: for a non-empty group of magnets of one class (boxes, cylinders or
    spheres, as [getBH_level2] groups them) on paths of one length m and
    m*n observer rows, [scr_dict_homo_mag] returns arrays of l_group*m*n
    rows laid out as (source, path step, observer): row i*m*n + j*n + p
    holds the magnetization and the dimension of source i, its position
    and orientation at step j, and observer row j*n + p. *)
Theorem X1_scr_dict_homo_mag_layout (ty : SrcType) (group : list Obj)
    (poso : list vec) m n :
  group <> [] ->
  ty <> Dipole ->
  Forall (fun src => src_type_of src = Some ty) group ->
  Forall (fun src => length (_pos src) = m /\ length (_rot src) = m) group ->
  length poso = m * n -> 0 < m ->
  exists mag dim pos pos_obs rot,
    scr_dict_homo_mag group poso = Return (HomoMagDict mag dim pos pos_obs rot)
    /\ length mag = length group * (m * n)
    /\ length dim = length group * (m * n)
    /\ length pos = length group * (m * n)
    /\ length pos_obs = length group * (m * n)
    /\ length rot = length group * (m * n)
    /\ forall i j p src,
         group !! i = Some src -> j < m -> p < n ->
         let row := i * (m * n) + (j * n + p) in
         mag !! row = Some (excitation src)
         /\ dim !! row = dim_of src
         /\ pos !! row = _pos src !! j
         /\ pos_obs !! row = poso !! (j * n + p)
         /\ rot !! row = _rot src !! j.
Proof.
  intros Hne Hty Hclass Hall Hposo Hm.
  assert (Hdims : Forall (fun src => dim_of src <> None) group).
  { eapply Forall_impl; [exact Hclass|]. intros y Hy. cbn beta in Hy.
    unfold src_type_of in Hy. unfold dim_of.
    destruct (attrs y); try discriminate; congruence. }
  destruct group as [|g0 group']; [congruence|].
  destruct (scr_dict_ok m n g0 group' poso Hall Hposo Hm) as [Hrun _].
  cbv zeta in Hrun.
  set (group := g0 :: group') in *.
  destruct (dict_rows group poso m n Hall Hposo)
    as ((L1 & L2 & L3 & L4) & Hrows).
  assert (Hdim : Forall (fun y => length (flat_map (replicate (m * n))
                                            (dim_list y)) = m * n) group).
  { eapply Forall_impl; [exact Hdims|]. intros y Hy. cbn beta in *.
    unfold dim_list. destruct (dim_of y); [|congruence].
    simpl. rewrite app_nil_r. apply length_replicate. }
  eexists _, _, _, _, _. split; [exact Hrun|].
  split; [exact L1|]. split; [now apply flat_map_blocks_length|].
  split; [exact L2|]. split; [exact L3|]. split; [exact L4|].
  intros i j p src Hi Hj Hp row.
  destruct (Hrows i j p src Hi Hj Hp) as (R1 & R2 & R3 & R4).
  split; [exact R1|]. split; [|split; [exact R2|split; [exact R3|exact R4]]].
  subst row.
  rewrite (flat_map_lookup_const _ (m * n) group i _ src) by (auto; nia).
  rewrite Forall_forall in Hdims.
  assert (Hs : dim_of src <> None).
  { apply Hdims. eapply list_elem_of_lookup_2. exact Hi. }
  unfold dim_list. destruct (dim_of src) as [d|]; [|congruence].
  simpl. rewrite app_nil_r. apply lookup_replicate_2. nia.
Qed.

(** X2: the same layout for the dict of a group of dipoles: row
    i*m*n + j*n + p holds the moment of dipole i, its position and
    orientation at step j, and observer row j*n + p. *)
Theorem X2_scr_dict_dipole_layout (group : list Obj) (poso : list vec) m n :
  group <> [] ->
  Forall (fun src => length (_pos src) = m /\ length (_rot src) = m) group ->
  length poso = m * n -> 0 < m ->
  exists moment pos pos_obs rot,
    scr_dict_dipole group poso = Return (DipoleDict moment pos pos_obs rot)
    /\ length moment = length group * (m * n)
    /\ length pos = length group * (m * n)
    /\ length pos_obs = length group * (m * n)
    /\ length rot = length group * (m * n)
    /\ forall i j p src,
         group !! i = Some src -> j < m -> p < n ->
         let row := i * (m * n) + (j * n + p) in
         moment !! row = Some (excitation src)
         /\ pos !! row = _pos src !! j
         /\ pos_obs !! row = poso !! (j * n + p)
         /\ rot !! row = _rot src !! j.
Proof.
  intros Hne Hall Hposo Hm.
  destruct group as [|g0 group']; [congruence|].
  destruct (scr_dict_ok m n g0 group' poso Hall Hposo Hm) as [_ Hrun].
  cbv zeta in Hrun.
  destruct (dict_rows (g0 :: group') poso m n Hall Hposo)
    as ((L1 & L2 & L3 & L4) & Hrows).
  eexists _, _, _, _. split; [exact Hrun|].
  split; [exact L1|]. split; [exact L2|]. split; [exact L3|].
  split; [exact L4|]. exact Hrows.
Qed.

(** X3: the helper of a class takes the path length from the first source
    of the group: with observers to evaluate, a group of one class in
    which a source has a path or an orientation path of another length, or
    a number of observer rows that is no multiple of that length, makes
    the helper of that class ([scr_dict_dipole] for dipoles,
    [scr_dict_homo_mag] for boxes, cylinders and spheres) end in a
    ValueError of numpy. *)
Theorem X3_scr_dict_needs_one_path_length (ty : SrcType) (g0 : Obj)
    (group' : list Obj) (poso : list vec) :
  let group := g0 :: group' in
  let m := length (_pos g0) in
  Forall (fun src => src_type_of src = Some ty) group ->
  0 < m -> 0 < length poso ->
  length poso mod m <> 0
  \/ Exists (fun src => length (_pos src) <> m \/ length (_rot src) <> m) group ->
  match ty with
  | Dipole => scr_dict_dipole group poso
  | _ => scr_dict_homo_mag group poso
  end = Raise ValueError.
Proof.
  intros group m _ Hm Hmn Hbad.
  assert (Hfit : tile_fits (length poso / m) (length poso) group = false).
  { apply not_true_is_false. intros Hfit. unfold tile_fits in Hfit.
    rewrite forallb_forall in Hfit.
    assert (H0 : m * (length poso / m) = length poso).
    { specialize (Hfit g0 (or_introl eq_refl)).
      apply andb_true_iff in Hfit as [H1 _]. now apply Nat.eqb_eq in H1. }
    destruct Hbad as [Hmod|Hex].
    - apply Hmod. apply Nat.Div0.mod_divides. exists (length poso / m).
      now rewrite H0.
    - apply Exists_exists in Hex as (src & Hin & Hsrc).
      specialize (Hfit src (proj1 (list_elem_of_In _ _) Hin)).
      apply andb_true_iff in Hfit as [H1 H2].
      apply Nat.eqb_eq in H1, H2. fold m in H1, H2. nia. }
  unfold scr_dict_homo_mag, scr_dict_dipole. cbv zeta.
  subst group. cbn [length] in *. fold m. rewrite Hfit. now destruct ty.
Qed.

End DictLayout.

Section Observers.
Context {N : Numerics}.

Lemma wrap_items_spec (l : list ObsItem) : forall s,
  exists sensors,
    wrap_items l s
    = (Return sensors,
       mkState (store s ++ map new_Sensor (bare_arrays l)) (level1_calls s))
    /\ length sensors = length l
    /\ forall i item r,
         l !! i = Some item -> sensors !! i = Some r ->
         match item with
         | ItemSensor r0 => r = r0
         | ItemBare a =>
             length (store s) <= r
             /\ (store s ++ map new_Sensor (bare_arrays l)) !! r
                = Some (new_Sensor a)
         end.
Proof.
  induction l as [|[r0|a] rest IH]; intros s.
  - exists []. simpl. rewrite app_nil_r. destruct s. repeat split.
    intros i item r Hi. discriminate.
  - destruct (IH s) as (rs & Hrun & Hlen & Hat).
    exists (r0 :: rs). cbn [wrap_items].
    rewrite (bind_Return _ _ _ _ _ Hrun). split; [reflexivity|].
    split; [simpl; now rewrite Hlen|].
    intros [|i] item r Hi Hr; simpl in *.
    + injection Hi as <-. now injection Hr as <-.
    + apply (Hat i item r Hi Hr).
  - set (s' := mkState (store s ++ [new_Sensor a]) (level1_calls s)).
    destruct (IH s') as (rs & Hrun & Hlen & Hat).
    exists (length (store s) :: rs). cbn [wrap_items].
    rewrite (bind_Return (alloc _) _ s (length (store s)) s' eq_refl).
    rewrite (bind_Return _ _ _ _ _ Hrun).
    cbn [bare_arrays flat_map app map store level1_calls s'] in *.
    rewrite <- app_assoc in *. cbn [app] in *.
    split; [reflexivity|]. split; [simpl; now rewrite Hlen|].
    intros [|i] item r Hi Hr; simpl in Hi, Hr.
    + injection Hi as <-. injection Hr as <-. split; [lia|].
      rewrite lookup_app_r by lia. now rewrite Nat.sub_diag.
    + specialize (Hat i item r Hi Hr). destruct item as [r1|b]; [exact Hat|].
      destruct Hat as [Hle Hlook]. rewrite length_app in Hle. simpl in Hle.
      split; [lia|exact Hlook].
Qed.

(** X4: a list of observers with at least one Sensor in it gives one sensor
    per item, in the order of the list: a Sensor is taken as it is, every
    other item becomes a new Sensor of its own with that item as pixel
    array; the objects there were are left as they are. *)
Theorem X4_mixed_observers_one_sensor_per_item (l : list ObsItem) (s : State) :
  existsb is_ItemSensor l = true ->
  exists sensors s1,
    make_sensors (ObsList l) s = (Return sensors, s1)
    /\ length sensors = length l
    /\ level1_calls s1 = level1_calls s
    /\ store s1 = store s ++ map new_Sensor (bare_arrays l)
    /\ forall i item r,
         l !! i = Some item -> sensors !! i = Some r ->
         match item with
         | ItemSensor r0 => r = r0
         | ItemBare a =>
             length (store s) <= r /\ store s1 !! r = Some (new_Sensor a)
         end.
Proof.
  intros Hex. unfold make_sensors. rewrite Hex.
  destruct (wrap_items_spec l s) as (sensors & Hrun & Hlen & Hat).
  exists sensors, (mkState (store s ++ map new_Sensor (bare_arrays l))
                           (level1_calls s)).
  split; [exact Hrun|]. split; [exact Hlen|]. split; [reflexivity|].
  split; [reflexivity|]. exact Hat.
Qed.

(** ** The observer positions *)

Lemma concat_axis1_lookup m w (xs : list Slice) : 
  Forall (slice_shape m w) xs ->
  forall j i x row, 
  xs !! i = Some x -> x !! j = Some row ->
  exists big, concat_axis1 xs !! j = Some big
    /\ forall p, p < w -> big !! (i * w + p) = row !! p.
Proof.
  induction xs as [|x0 xs IH]; intros Hall j i x row Hi Hj; [discriminate|].
  apply Forall_cons in Hall as [[Hm0 Hrows0] Hall].
  assert (Hjm : j < m).
  { destruct i; simpl in Hi.
    - injection Hi as <-. rewrite <- Hm0. eapply lookup_lt_Some. exact Hj.
    - rewrite Forall_forall in Hall.
      destruct (Hall x (list_elem_of_lookup_2 _ _ _ Hi)) as [Hm _].
      rewrite <- Hm. eapply lookup_lt_Some. exact Hj. }
  destruct (lookup_lt_is_Some_2 x0 j ltac:(lia)) as [row0 Hrow0].
  assert (Hw0 : length row0 = w).
  { rewrite Forall_forall in Hrows0. apply Hrows0.
    eapply list_elem_of_lookup_2. exact Hrow0. }
  destruct xs as [|x1 xs'].
  - destruct i; [|discriminate]. simpl in Hi. injection Hi as <-.
    exists row. simpl. split; [exact Hj|]. intros p _. reflexivity.
  - remember (x1 :: xs') as tl eqn:Etl.
    assert (Hcat : concat_axis1 (x0 :: tl) = zip_with app x0 (concat_axis1 tl))
      by (subst tl; reflexivity).
    rewrite Hcat.
    destruct (concat_axis1_shape m w tl ltac:(subst tl; discriminate) Hall)
      as [Hlen _].
    destruct (lookup_lt_is_Some_2 (concat_axis1 tl) j ltac:(lia))
      as [big' Hbig'].
    exists (row0 ++ big'). split.
    { rewrite lookup_zip_with, Hrow0. simpl. now rewrite Hbig'. }
    intros p Hp. destruct i as [|i]; simpl in Hi.
    + injection Hi as <-. rewrite Hrow0 in Hj. injection Hj as <-.
      rewrite lookup_app_l by lia. f_equal.
    + destruct (IH Hall j i x row Hi Hj) as (big2 & Hb2 & Hat).
      rewrite Hbig' in Hb2. injection Hb2 as <-.
      rewrite lookup_app_r by lia.
      replace (S i * w + p - length row0) with (i * w + p) by lia.
      now apply Hat.
Qed.

Lemma poso_of_lookup (sensors : list Obj) m w :
  Forall (fun sens => length (_pos sens) = m /\ length (_rot sens) = m
                      /\ length (pa_data (pos_pix_of sens)) = w) sensors ->
  forall j i p sens q pos px,
    sensors !! i = Some sens ->
    _rot sens !! j = Some q -> _pos sens !! j = Some pos ->
    pa_data (pos_pix_of sens) !! p = Some px ->
    poso_of sensors !! (j * (length sensors * w) + (i * w + p))
    = Some (vadd (rot_apply q px) pos).
Proof.
  intros Hall j i p sens q pos px Hi Hq Hpos Hpx.
  assert (Hne : sensors <> []) by (intros ->; discriminate).
  assert (Hshapes : Forall (slice_shape m w) (map sensor_positions sensors)).
  { apply Forall_map. eapply Forall_impl; [exact Hall|].
    intros o (Hp & Hr & Hw). cbn beta. rewrite <- Hw.
    now apply sensor_positions_shape. }
  rewrite Forall_forall in Hall.
  destruct (Hall sens (list_elem_of_lookup_2 _ _ _ Hi)) as (Hlp & Hlr & Hlw).
  assert (Hp : p < w).
  { rewrite <- Hlw. eapply lookup_lt_Some. exact Hpx. }
  assert (Hj : j < m).
  { rewrite <- Hlp. eapply lookup_lt_Some. exact Hpos. }
  set (row := map (fun px => vadd (rot_apply q px) pos)
                  (pa_data (pos_pix_of sens))).
  assert (Hrow : sensor_positions sens !! j = Some row).
  { unfold sensor_positions. rewrite lookup_zip_with, Hq. simpl.
    now rewrite Hpos. }
  destruct (concat_axis1_lookup m w (map sensor_positions sensors) Hshapes
              j i (sensor_positions sens) row) as (big & Hbig & Hat).
  { change (map sensor_positions sensors) with (sensor_positions <$> sensors).
    now rewrite list_lookup_fmap, Hi. }
  { exact Hrow. }
  unfold poso_of.
  destruct (concat_axis1_shape m w (map sensor_positions sensors)) as [_ Hw].
  { intros E. apply Hne. now apply map_eq_nil in E. }
  { exact Hshapes. }
  rewrite length_map in Hw.
  assert (Hip : i * w + p < length sensors * w).
  { pose proof (lookup_lt_Some _ _ _ Hi). nia. }
  rewrite (concat_lookup_const (length sensors * w) _ j (i * w + p) big Hw Hbig Hip).
  rewrite (Hat p Hp). subst row.
  change (map ?f ?l) with (f <$> l). now rewrite list_lookup_fmap, Hpx.
Qed.

(** X5: the observer rows [poso] are laid out as (path step, sensor,
    pixel): for K sensors of w pixels each on paths of m steps, row
    j*K*w + i*w + p is pixel p of sensor i, rotated by the orientation the
    sensor has at step j and shifted by its position at that step. *)
Theorem X5_observer_positions_layout (sensors : list Obj) m w :
  Forall (fun sens => length (_pos sens) = m /\ length (_rot sens) = m
                      /\ length (pa_data (pos_pix_of sens)) = w) sensors ->
  forall j i p sens q pos px,
    sensors !! i = Some sens ->
    _rot sens !! j = Some q -> _pos sens !! j = Some pos ->
    pa_data (pos_pix_of sens) !! p = Some px ->
    length (poso_of sensors) = m * (length sensors * w)
    /\ poso_of sensors !! (j * (length sensors * w) + (i * w + p))
       = Some (vadd (rot_apply q px) pos).
Proof.
  intros Hall j i p sens q pos px Hi Hq Hpos Hpx. split.
  - apply poso_of_length; [|exact Hall]. intros ->. discriminate.
  - now apply (poso_of_lookup sensors m w Hall j i p sens).
Qed.

End Observers.

Section Calls.
Context {N : Numerics} `{!QuatEq N} `{!UnitRotation N} `{!AddZero N}.

Lemma typed_entries_nonempty st ty src_list :
  typed_entries st ty 0 src_list <> []
  <-> exists r, r ∈ src_list /\ src_type_of (deref st r) = Some ty.
Proof.
  split.
  - destruct (typed_entries st ty 0 src_list) as [|[j r] E] eqn:HE;
      [congruence|]. intros _.
    assert (Hin : In (j, r) (typed_entries st ty 0 src_list))
      by (rewrite HE; now left).
    apply typed_entries_spec in Hin as (_ & Hj & Hty).
    exists r. split; [|exact Hty]. eapply list_elem_of_lookup_2. exact Hj.
  - intros (r & Hr & Hty) HE.
    apply list_elem_of_lookup_1 in Hr as [j Hj].
    assert (Hin : In (j, r) (typed_entries st ty 0 src_list)).
    { apply typed_entries_spec. rewrite Nat.sub_0_r. repeat split; auto. lia. }
    now rewrite HE in Hin.
Qed.

Lemma used_types_spec st src_list :
  used_types st src_list `sublist_of` [Box; Cylinder; Sphere; Dipole]
  /\ forall ty, ty ∈ used_types st src_list
                <-> typed_entries st ty 0 src_list <> [].
Proof.
  unfold used_types. cbn [flat_map]. rewrite app_nil_r. split.
  - destruct (typed_entries st Box 0 src_list),
             (typed_entries st Cylinder 0 src_list),
             (typed_entries st Sphere 0 src_list),
             (typed_entries st Dipole 0 src_list); cbn [app];
      repeat (first [apply sublist_nil | apply sublist_skip | apply sublist_cons]).
  - intros ty.
    destruct (typed_entries st Box 0 src_list) eqn:E1,
             (typed_entries st Cylinder 0 src_list) eqn:E2,
             (typed_entries st Sphere 0 src_list) eqn:E3,
             (typed_entries st Dipole 0 src_list) eqn:E4; cbn [app];
      destruct ty; rewrite ?E1, ?E2, ?E3, ?E4;
      (split; [intros Hin; try congruence;
               repeat (apply elem_of_cons in Hin as [Hin|Hin];
                       [discriminate|]);
               now apply elem_of_nil in Hin
              | intros Hne; try congruence;
                rewrite ?elem_of_cons; auto 10]).
Qed.

(** X6: a call that passes the input checks calls [getBH_level1] once for
    every source family that occurs among the flattened sources, in the
    order Box, Cylinder, Sphere, Dipole, and for no other family: at most
    four calls, however many sources there are. *)
Theorem X6_one_level1_call_per_family
    bh sources observers sumup squeeze s sensors s1 m :
  make_sensors observers s = (Return sensors, s1) ->
  call_ok (store s1) (sources_list sources) sensors m ->
  exists calls,
    level1_calls (getBH_level2 bh sources observers sumup squeeze s).2
    = level1_calls s ++ calls
    /\ calls `sublist_of` [Box; Cylinder; Sphere; Dipole]
    /\ forall ty,
         ty ∈ calls
         <-> exists r, r ∈ format_obj_input (sources_list sources)
                       /\ src_type_of (deref (store s1) r) = Some ty.
Proof.
  intros Hmk Hok.
  destruct (getBH_level2_ok bh sources observers sumup squeeze s sensors s1 m
              Hmk Hok) as (Hrun & _).
  exists (used_types (store s1) (format_obj_input (sources_list sources))).
  rewrite Hrun. cbn [snd logged level1_calls].
  rewrite (make_sensors_calls _ _ _ _ Hmk).
  split; [reflexivity|].
  destruct (used_types_spec (store s1)
              (format_obj_input (sources_list sources))) as [Hsub Hmem].
  split; [exact Hsub|]. intros ty. rewrite Hmem.
  apply typed_entries_nonempty.
Qed.

(** X10: on return from a call that passes the input checks every object
    has the path it had before the call: the store is the one the formatting
    of the observers left, which extends the store before the call by the
    new sensors. *)
Theorem X10_objects_restored_on_return
    bh sources observers sumup squeeze s sensors s1 m :
  make_sensors observers s = (Return sensors, s1) ->
  call_ok (store s1) (sources_list sources) sensors m ->
  let out := getBH_level2 bh sources observers sumup squeeze s in
  store out.2 = store s1
  /\ forall r o, store s !! r = Some o -> store out.2 !! r = Some o.
Proof.
  intros Hmk Hok out. subst out.
  destruct (getBH_level2_ok bh sources observers sumup squeeze s sensors s1 m
              Hmk Hok) as (Hrun & _).
  rewrite Hrun. cbn [snd logged store]. split; [reflexivity|].
  destruct (make_sensors_extends observers s) as (sensors' & extra & Hext).
  rewrite Hmk in Hext. injection Hext as _ ->. cbn [store].
  intros r o Hr. now apply lookup_app_l_Some.
Qed.

(** X13: without any source the call makes no call of [getBH_level1]; with
    sumup=False it returns an array without entries of shape
    (0, m, K, N..., 3), with sumup=True the zero field of shape
    (m, K, N..., 3). *)
Theorem X13_no_sources_no_field
    bh observers sumup squeeze s r0 rest s1 m :
  make_sensors observers s = (Return (r0 :: rest), s1) ->
  call_ok (store s1) [] (r0 :: rest) m ->
  let px := pos_pix_of (deref (store s1) r0) in
  let K := length (r0 :: rest) in
  let out := getBH_level2 bh (SourceList []) observers sumup squeeze s in
  out.1 = Return
            ((if squeeze then np_squeeze else fun a => a)
               (if sumup
                then mkArr ([m; K] ++ pa_shape px)
                           (replicate (m * (K * prod_list (pa_dims px))) vzero)
                else mkArr ([0; m; K] ++ pa_shape px) []))
  /\ level1_calls out.2 = level1_calls s.
Proof.
  intros Hmk Hok px K out. subst out.
  destruct (getBH_level2_ok bh (SourceList []) observers sumup squeeze s
              (r0 :: rest) s1 m Hmk Hok) as (Hrun & _).
  rewrite Hrun. cbn [fst snd sources_list]. split.
  - f_equal. unfold expected_tensor. rewrite sensors_frame_map.
    cbn [map concat]. unfold full_shape, finish. cbn [length app].
    fold px. fold K. change (S (length rest)) with K.
    assert (Hc : prod_list (m :: K :: pa_shape px) / 3
                 = m * (K * prod_list (pa_dims px))).
    { unfold pa_shape.
      change (m :: K :: pa_dims px ++ [3]) with ([m; K] ++ pa_dims px ++ [3]).
      rewrite !prod_list_app.
      change (prod_list [m; K]) with (m * (K * 1)).
      change (prod_list [3]) with (3 * 1).
      replace (m * (K * 1) * (prod_list (pa_dims px) * (3 * 1)))
        with (m * (K * prod_list (pa_dims px)) * 3) by lia.
      apply Nat.div_mul. lia. }
    destruct sumup.
    + unfold np_sum0. cbn [shape data chunks fold_right]. rewrite Hc.
      now destruct squeeze.
    + now destruct squeeze.
  - unfold used_types. cbn [format_obj_input flat_map typed_entries app logged
                            level1_calls].
    rewrite app_nil_r. apply (make_sensors_calls _ _ _ _ Hmk).
Qed.

End Calls.

Section Pointwise.
Context {N : Numerics} `{!QuatEq N} `{!UnitRotation N}.

Lemma slice_map_lookup {A} (f : A -> A) a w (row : list A) c :
  slice_map f a w row !! c
  = (if bool_decide (a <= c < a + w) then f else fun x => x) <$> row !! c.
Proof.
  rewrite slice_map_imap, list_lookup_imap.
  destruct (row !! c); simpl; [|reflexivity]. now destruct (bool_decide _).
Qed.

Lemma step_frame_lookup kp i sens j (row : list vec) c :
  step_frame kp i sens j row !! c
  = match _rot sens !! j with
    | Some q => (if bool_decide (i * kp <= c < i * kp + kp)
                 then rot_apply (rot_inv q) else fun x => x) <$> row !! c
    | None => row !! c
    end.
Proof.
  unfold step_frame. destruct (_rot sens !! j); [|reflexivity].
  unfold rotate_part. apply slice_map_lookup.
Qed.

Lemma slice_frames_at kp sensors : forall i0 (sl : Slice) j row,
  sl !! j = Some row ->
  exists row',
    slice_frames kp i0 sensors sl !! j = Some row'
    /\ (forall i p sens q,
          sensors !! i = Some sens -> _rot sens !! j = Some q -> p < kp ->
          row' !! ((i0 + i) * kp + p)
          = rot_apply (rot_inv q) <$> row !! ((i0 + i) * kp + p))
    /\ (forall c, c < i0 * kp \/ (i0 + length sensors) * kp <= c ->
          row' !! c = row !! c).
Proof.
  induction sensors as [|s rest IH]; intros i0 sl j row Hj.
  - exists row. simpl. split; [exact Hj|]. split; [|reflexivity].
    intros i p sens q Hi. discriminate.
  - cbn [slice_frames].
    assert (Hj1 : imap (step_frame kp i0 s) sl !! j
                  = Some (step_frame kp i0 s j row))
      by (now rewrite list_lookup_imap, Hj).
    destruct (IH (S i0) _ j _ Hj1) as (row' & Hrow' & Hin & Hout).
    exists row'. split; [exact Hrow'|]. split.
    + intros [|i] p sens q Hi Hq Hp; simpl in Hi.
      * injection Hi as <-. rewrite Hout by (simpl; nia).
        rewrite step_frame_lookup, Hq.
        rewrite bool_decide_eq_true_2 by nia. reflexivity.
      * replace (i0 + S i) with (S i0 + i) by lia.
        rewrite (Hin i p sens q Hi Hq Hp).
        rewrite step_frame_lookup.
        destruct (_rot s !! j); [|reflexivity].
        rewrite bool_decide_eq_false_2 by (simpl; nia).
        now destruct (row !! _).
    + intros c Hc. cbn [length] in Hc. rewrite Hout by (simpl; nia).
      rewrite step_frame_lookup. destruct (_rot s !! j); [|reflexivity].
      rewrite bool_decide_eq_false_2 by nia. now destruct (row !! c).
Qed.

(** X7: the loop over the sensors turns every field value by the inverse of
    the orientation its own sensor has at its own path step, whichever of
    the three paths (unrotated, static, step by step) the flags select: the
    value in column i*k_pixel + p of step j is turned by the inverse of the
    orientation of sensor i at step j, and the columns beyond the sensors
    are left alone. *)
Theorem X7_each_value_rotated_by_its_sensor
    (os : list Obj) l0 m n kp (B : Tensor) :
  0 < m -> length B = l0 -> length os * kp <= n ->
  Forall (slice_shape m n) B ->
  Forall (fun o => length (_rot o) = length (_pos o)
                   /\ length (_pos (tiled m o)) = m) os ->
  exists R,
    apply_sensor_rotations l0 m n kp 0 (map (tiled m) os)
      (map unrotated os) (map static_rot os) B = Return R
    /\ length R = l0
    /\ Forall (slice_shape m n) R
    /\ (forall l j i p o q v,
          os !! i = Some o -> _rot (tiled m o) !! j = Some q -> p < kp ->
          tensor_at B l j (i * kp + p) = Some v ->
          tensor_at R l j (i * kp + p) = Some (rot_apply (rot_inv q) v))
    /\ (forall l j c, length os * kp <= c ->
          tensor_at R l j c = tensor_at B l j c).
Proof.
  intros Hm HB Hn Hsh Hos.
  set (sens := map (tiled m) os).
  exists (sensors_frame kp 0 sens B).
  destruct (sensors_frame_shape kp m n sens 0 B Hsh) as [HR1 HR2].
  split.
  { apply apply_sensor_rotations_ok; auto.
    - intros p sn Hp. simpl. subst sens.
      change (map ?f ?l) with (f <$> l) in *.
      rewrite !list_lookup_fmap. rewrite list_lookup_fmap in Hp.
      destruct (os !! p) as [o|] eqn:Eo; [|discriminate].
      injection Hp as <-. simpl.
      rewrite Forall_forall in Hos.
      destruct (Hos o (list_elem_of_lookup_2 _ _ _ Eo)) as [Hrl Hpl].
      split; [now apply flags_sound_tiled|].
      now rewrite (tiled_rot_length m o Hrl).
    - subst sens. rewrite length_map. simpl. lia. }
  split; [now rewrite HR2|]. split; [exact HR1|].
  rewrite sensors_frame_map.
  assert (Hat : forall l j c,
            tensor_at (map (slice_frames kp 0 sens) B) l j c
            = match B !! l with
              | Some sl => match slice_frames kp 0 sens sl !! j with
                           | Some row => row !! c
                           | None => None
                           end
              | None => None
              end).
  { intros l j c. unfold tensor_at.
    change (map ?f ?l) with (f <$> l). rewrite list_lookup_fmap.
    now destruct (B !! l). }
  split.
  - intros l j i p o q v Hi Hq Hp Hv. rewrite Hat. unfold tensor_at in Hv.
    destruct (B !! l) as [sl|]; [|discriminate].
    destruct (sl !! j) as [row|] eqn:Ej; [|discriminate].
    destruct (slice_frames_at kp sens 0 sl j row Ej) as (row' & Hrow' & Hin & _).
    rewrite Hrow'.
    assert (Hs : sens !! i = Some (tiled m o)).
    { subst sens. change (map ?f ?l) with (f <$> l).
      now rewrite list_lookup_fmap, Hi. }
    specialize (Hin i p (tiled m o) q Hs Hq Hp).
    rewrite Nat.add_0_l in Hin. rewrite Hin, Hv. reflexivity.
  - intros l j c Hc. rewrite Hat. unfold tensor_at.
    destruct (B !! l) as [sl|]; [|reflexivity].
    destruct (sl !! j) as [row|] eqn:Ej.
    + destruct (slice_frames_at kp sens 0 sl j row Ej)
        as (row' & Hrow' & _ & Hout).
      rewrite Hrow'. apply Hout. right. subst sens. rewrite length_map.
      simpl. lia.
    + assert (Hnone : slice_frames kp 0 sens sl !! j = None).
      { apply lookup_ge_None. apply lookup_ge_None in Ej.
        clear -Ej. revert sl Ej. generalize 0 as i0.
        induction sens as [|s rest IH]; intros i0 sl Ej; simpl; [exact Ej|].
        apply IH. now rewrite length_imap. }
      now rewrite Hnone.
Qed.

End Pointwise.

Section Lists.
Context {N : Numerics} `{!QuatEq N} `{!UnitRotation N} `{!AddZero N}.

Lemma concat_concat_map {A} (T : list (list (list A))) :
  concat (concat T) = concat (map (fun sl => concat sl) T).
Proof.
  induction T as [|x T IH]; simpl; [reflexivity|].
  now rewrite concat_app, IH.
Qed.

Lemma concat_block {A} c (ll : list (list A)) : forall i b,
  Forall (fun r => length r = c) ll -> ll !! i = Some b ->
  take c (drop (i * c) (concat ll)) = b.
Proof.
  induction ll as [|r ll IH]; intros i b Hall Hi; [discriminate|].
  apply Forall_cons in Hall as [Hr Hall]. destruct i as [|i].
  - injection Hi as ->. rewrite Nat.mul_0_l, drop_0. cbn [concat].
    apply take_app_length'. now symmetry.
  - cbn [concat]. rewrite drop_app_ge by lia.
    replace (S i * c - length r) with (i * c) by lia. now apply IH.
Qed.

Lemma format_obj_input_elem top (tops : list TopSrc) r :
  top ∈ tops -> r ∈ format_obj_input [top] -> r ∈ format_obj_input tops.
Proof.
  intros Htop Hr. unfold format_obj_input in *. simpl in Hr.
  rewrite app_nil_r in Hr.
  apply list_elem_of_In, in_flat_map. exists top.
  split; now apply list_elem_of_In.
Qed.

Lemma call_ok_entry (st : list Obj) tops sensors m top :
  call_ok st tops sensors m -> top ∈ tops ->
  get_good_path_length (map (deref st) (format_obj_input [top] ++ sensors))
  = Return m ->
  call_ok st [top] sensors m.
Proof.
  intros (Hne & Hsame & _ & Hpaths & Hrec & Hnonempty & Hpix) Htop Hgood.
  split; [exact Hne|]. split; [exact Hsame|]. split; [exact Hgood|].
  rewrite Forall_forall in Hpaths, Hrec. rewrite Forall_forall in Hnonempty.
  split; [|split; [|split; [|exact Hpix]]].
  - apply Forall_forall. intros r Hr. apply Hpaths.
    apply elem_of_app in Hr as [Hr|Hr]; apply elem_of_app; auto.
    left. now apply (format_obj_input_elem top).
  - apply Forall_forall. intros r Hr. apply Hrec.
    now apply (format_obj_input_elem top).
  - constructor; [now apply Hnonempty | constructor].
Qed.

(** X8: in a call that passes the input checks, where every Collection of
    the list has at least one member, with sumup=False and squeeze=False
    entry i of the result is the result the i-th source (or Collection) of
    the list gives alone at the same observers, when alone it reaches the
    same path length.  (After a Collection without members the entries are
    misplaced, see X15.) *)
Theorem X8_list_entry_is_the_source_alone
    bh tops observers s sensors s1 m i top :
  make_sensors observers s = (Return sensors, s1) ->
  call_ok (store s1) tops sensors m ->
  tops !! i = Some top ->
  get_good_path_length
    (map (deref (store s1)) (format_obj_input [top] ++ sensors)) = Return m ->
  exists all one rest,
    (getBH_level2 bh (SourceList tops) observers false false s).1 = Return all
    /\ (getBH_level2 bh (OneSource top) observers false false s).1 = Return one
    /\ shape all = length tops :: rest
    /\ shape one = 1 :: rest
    /\ take (length (data one)) (drop (i * length (data one)) (data all))
       = data one.
Proof.
  intros Hmk Hok Hi Hgood.
  assert (Htop : top ∈ tops) by (eapply list_elem_of_lookup_2; exact Hi).
  pose proof (call_ok_entry _ _ _ _ _ Hok Htop Hgood) as Hok1.
  destruct (getBH_level2_ok bh (SourceList tops) observers false false s
              sensors s1 m Hmk Hok) as (Hrun & _ & Hsh & Hm & _).
  destruct (getBH_level2_ok bh (OneSource top) observers false false s
              sensors s1 m Hmk Hok1) as (Hrun1 & _ & Hsh1 & _).
  cbn [sources_list] in *.
  set (st1 := store s1) in *.
  set (kp := k_pixel_of st1 sensors) in *.
  set (n := length sensors * kp) in *.
  unfold expected_tensor in *. fold kp in Hrun, Hrun1, Hsh, Hsh1.
  rewrite sensors_frame_map, map_map in Hrun, Hrun1, Hsh, Hsh1.
  cbn [map] in Hrun1, Hsh1.
  set (G := fun x => slice_frames kp 0 _ (top_field m _ _ x)) in *.
  exists (mkArr (full_shape st1 tops sensors m) (concat (concat (map G tops)))),
         (mkArr (full_shape st1 [top] sensors m) (concat (concat [G top]))),
         (m :: length sensors ::
            match sensors with
            | [] => []
            | r :: _ => pa_shape (pos_pix_of (deref st1 r))
            end).
  split; [now rewrite Hrun|]. split; [now rewrite Hrun1|].
  split; [reflexivity|]. split; [reflexivity|].
  cbn [data concat]. rewrite app_nil_r.
  apply Forall_inv in Hsh1. change (slice_shape m n (G top)) in Hsh1.
  destruct Hsh1 as [Hl Hrows].
  rewrite (concat_length_const n _ Hrows), Hl.
  rewrite concat_concat_map. apply concat_block.
  - apply Forall_map. rewrite Forall_map in Hsh. apply Forall_map.
    eapply Forall_impl; [exact Hsh|]. intros x [Hx1 Hx2]. cbn beta.
    now rewrite (concat_length_const n _ Hx2), Hx1.
  - change (map ?f ?l) with (f <$> l). rewrite !list_lookup_fmap, Hi.
    reflexivity.
Qed.

End Lists.

Section Sums.
Context {N : Numerics} `{!QuatEq N} `{!UnitRotation N} `{!AddZero N}
        `{!LinearRotation N}.

Lemma row_count m K dims :
  prod_list (m :: K :: dims ++ [3]) / 3 = m * (K * prod_list dims).
Proof.
  change (m :: K :: dims ++ [3]) with ([m; K] ++ dims ++ [3]).
  rewrite !prod_list_app.
  change (prod_list [m; K]) with (m * (K * 1)).
  change (prod_list [3]) with (3 * 1).
  replace (m * (K * 1) * (prod_list dims * (3 * 1)))
    with (m * (K * prod_list dims) * 3) by lia.
  apply Nat.div_mul. lia.
Qed.

(** X9: [Collection.getB] and [Collection.getH] return what [getBH_level2]
    returns for the list of the members with sumup=True, and leave the same
    state. *)
Theorem X9_collection_is_list_summed
    bh ss observers squeeze s sensors s1 m :
  make_sensors observers s = (Return sensors, s1) ->
  call_ok (store s1) [Coll ss] sensors m ->
  getBH_level2 bh (SourceList (map Elem ss)) observers true squeeze s
  = (if bh then Collection_getB else Collection_getH) ss observers squeeze s.
Proof.
  intros Hmk Hok.
  assert (Hfmt : format_obj_input (map Elem ss) = ss).
  { clear. unfold format_obj_input. induction ss as [|r l IH]; [reflexivity|].
    cbn [map flat_map app]. now rewrite IH. }
  assert (HokL : call_ok (store s1) (map Elem ss) sensors m).
  { destruct Hok as (Hne & Hsame & Hgood & Hpaths & Hrec & _ & Hpix).
    cbn [format_obj_input flat_map] in Hgood, Hpaths, Hrec.
    rewrite app_nil_r in Hgood, Hpaths, Hrec.
    unfold call_ok. rewrite Hfmt. repeat split; auto.
    apply Forall_map, Forall_forall. intros r _. exact I. }
  transitivity (getBH_level2 bh (OneSource (Coll ss)) observers true squeeze s);
    [|now destruct bh].
  destruct (getBH_level2_ok bh (SourceList (map Elem ss)) observers true
              squeeze s sensors s1 m Hmk HokL) as (HrunL & _ & HshL & Hm & Hposo).
  destruct (getBH_level2_ok bh (OneSource (Coll ss)) observers true squeeze s
              sensors s1 m Hmk Hok) as (HrunC & _ & HshC & _).
  rewrite HrunL, HrunC. cbn [sources_list format_obj_input flat_map] in *.
  fold (format_obj_input (map Elem ss)). rewrite Hfmt, app_nil_r.
  f_equal. f_equal. unfold finish. f_equal.
  destruct Hok as (Hne & _).
  destruct sensors as [|r0 rest]; [congruence|].
  remember (r0 :: rest) as sensors eqn:Esens.
  set (st1 := store s1) in *.
  set (dims := pa_dims (pos_pix_of (deref st1 r0))).
  set (K := length sensors) in *.
  set (kp := k_pixel_of st1 sensors) in *.
  assert (Hkp : kp = prod_list dims) by (subst kp dims; now rewrite Esens).
  set (n := K * kp) in *.
  set (sens := map (deref (map (tiled m) st1)) sensors) in *.
  assert (Hn : length (poso_of sens) / m = n).
  { rewrite Hposo, Nat.mul_comm. apply Nat.div_mul. lia. }
  set (G := fun r => slice_frames kp 0 sens
                       (source_field bh (map (tiled m) st1) (poso_of sens)
                          m n r)).
  assert (HexpL : expected_tensor bh st1 (map Elem ss) sensors m = map G ss).
  { unfold expected_tensor. fold kp sens. rewrite Hn, sensors_frame_map.
    rewrite !map_map. reflexivity. }
  assert (HexpC : expected_tensor bh st1 [Coll ss] sensors m
                  = [np_sum_slices m n (map G ss)]).
  { unfold expected_tensor. fold kp sens. rewrite Hn, sensors_frame_map.
    cbn [map top_field]. now rewrite slice_frames_sum, map_map. }
  rewrite HexpL in *. rewrite HexpC in *.
  assert (Hfull : forall srcs, full_shape st1 srcs sensors m
                               = length srcs :: m :: K :: dims ++ [3]).
  { intros srcs. unfold full_shape. subst K dims. now rewrite Esens. }
  rewrite !Hfull.
  apply Forall_inv in HshC.
  unfold np_sum0. cbn [shape data]. rewrite length_map, row_count.
  rewrite <- Hkp. fold n.
  f_equal.
  assert (Hrows : Forall (fun r => length r = m * n)
                    (map (fun sl => concat sl) (map G ss))).
  { apply Forall_map. eapply Forall_impl; [exact HshL|]. intros x [Hx1 Hx2].
    cbn beta. now rewrite (concat_length_const n _ Hx2), Hx1. }
  rewrite concat_concat_map.
  rewrite <- (length_map G ss), <- (length_map (fun sl => concat sl) (map G ss)).
  rewrite (chunks_concat (m * n)) by exact Hrows.
  cbn [length concat chunks fold_right]. rewrite app_nil_r.
  destruct HshC as [Hc1 Hc2].
  assert (Hlen : length (concat (np_sum_slices m n (map G ss))) = m * n).
  { now rewrite (concat_length_const n _ Hc2), Hc1. }
  rewrite firstn_all2 by (rewrite Hlen; lia).
  assert (HdC : zip_with vadd (concat (np_sum_slices m n (map G ss)))
                  (replicate (m * n) vzero)
                = concat (np_sum_slices m n (map G ss))).
  { rewrite <- Hlen. apply row_add_zeros. }
  rewrite HdC, (concat_np_sum_slices m n) by exact HshL.
  reflexivity.
Qed.

End Sums.

Section StoreOnAnyOutcome.
Context {N : Numerics}.

Lemma eval_group_store bh st ty g poso m n (B : Tensor) s :
  store (eval_group bh st ty g poso m n B s).2 = store s.
Proof.
  unfold eval_group.
  destruct (map (deref st) (default [] (src_sorted g !! group_index ty)))
    as [|g0 group]; [reflexivity|].
  unfold bind, lift, log_level1, ret.
  destruct (match ty with
            | Dipole => scr_dict_dipole (g0 :: group) poso
            | _ => scr_dict_homo_mag (g0 :: group) poso
            end); [|reflexivity].
  now destruct (reshape_group _ _ _ _).
Qed.

Lemma eval_groups_store bh st g poso m n (B : Tensor) s :
  store (eval_groups bh st g poso m n B s).2 = store s.
Proof.
  unfold eval_groups, bind.
  pose proof (eval_group_store bh st Box g poso m n B s) as H1.
  destruct (eval_group bh st Box g poso m n B s) as [[B1|e] s1]; [|exact H1].
  pose proof (eval_group_store bh st Cylinder g poso m n B1 s1) as H2.
  destruct (eval_group bh st Cylinder g poso m n B1 s1) as [[B2|e] s2];
    simpl in *; [|congruence].
  pose proof (eval_group_store bh st Sphere g poso m n B2 s2) as H3.
  destruct (eval_group bh st Sphere g poso m n B2 s2) as [[B3|e] s3];
    simpl in *; [|congruence].
  pose proof (eval_group_store bh st Dipole g poso m n B3 s3) as H4.
  destruct (eval_group bh st Dipole g poso m n B3 s3) as [[B4|e] s4];
    simpl in *; congruence.
Qed.

(** The tiling loop returns whatever the objects are. *)
Lemma tiling_runs m obj_list s1 :
  exists rs,
    (if 1 <? m then tile_up m obj_list else ret []) s1
    = (Return rs,
       mkState (if 1 <? m then update_all (tiled m) obj_list (store s1)
                else store s1) (level1_calls s1))
    /\ (m <= 1 -> rs = []).
Proof.
  destruct s1 as [st1 log1]. simpl. destruct (1 <? m) eqn:E.
  - apply Nat.ltb_lt in E.
    destruct (tile_up_ok m obj_list E st1 log1) as (rs & Hrun & _).
    exists rs. split; [exact Hrun|]. lia.
  - exists []. split; reflexivity.
Qed.

(** The state a call ends in once the path check is passed: the store is
    the one the tiling loop left when the call raises, and that store with
    the tiled objects reset when it returns. *)
Lemma getBH_level2_store bh sources observers sumup squeeze s sensors s1 m :
  make_sensors observers s = (Return sensors, s1) ->
  all_same (map (fun r => pa_shape (pos_pix_of (deref (store s1) r))) sensors)
  = true ->
  get_good_path_length
    (map (deref (store s1))
         (format_obj_input (sources_list sources) ++ sensors)) = Return m ->
  sensors <> [] ->
  let obj_list := format_obj_input (sources_list sources) ++ sensors in
  let st2 := if 1 <? m then update_all (tiled m) obj_list (store s1)
             else store s1 in
  exists rs,
    (if 1 <? m then tile_up m obj_list else ret []) s1
    = (Return rs, mkState st2 (level1_calls s1))
    /\ match (getBH_level2 bh sources observers sumup squeeze s).1 with
       | Return _ =>
           store (getBH_level2 bh sources observers sumup squeeze s).2
           = update_all reset_obj rs st2
       | Raise _ =>
           store (getBH_level2 bh sources observers sumup squeeze s).2 = st2
       end.
Proof.
  intros Hmk Hsame Hgood Hne obj_list st2. subst obj_list.
  destruct (tiling_runs m (format_obj_input (sources_list sources) ++ sensors)
              s1) as (rs & Hrun & _).
  exists rs. split; [exact Hrun|].
  unfold getBH_level2. fold (sources_list sources).
  set (srcs := sources_list sources) in *.
  set (src_list := format_obj_input srcs) in *.
  rewrite (bind_Return _ _ _ _ _ Hmk).
  rewrite (bind_Return get_store _ s1 (store s1) s1 eq_refl).
  cbv zeta. rewrite Hsame. cbn [negb].
  destruct sensors as [|r0 rest]; [congruence|].
  remember (r0 :: rest) as sensors eqn:Esens.
  assert (Hhead : map (fun r => pa_shape (pos_pix_of (deref (store s1) r)))
                    sensors
                  = pa_shape (pos_pix_of (deref (store s1) r0))
                    :: map (fun r => pa_shape (pos_pix_of (deref (store s1) r)))
                         rest)
    by (subst sensors; reflexivity).
  rewrite Hhead.
  rewrite (bind_Return (lift _) _ s1 _ s1 eq_refl).
  rewrite Hgood.
  rewrite (bind_Return (lift _) _ s1 _ s1 eq_refl).
  rewrite (bind_Return _ _ _ _ _ Hrun).
  fold st2.
  rewrite (bind_Return get_store _ (mkState st2 (level1_calls s1)) st2 _ eq_refl).
  destruct (group_sources st2 0 src_list no_groups) as [g|e];
    [|reflexivity].
  rewrite (bind_Return (lift _) _ _ _ _ eq_refl).
  match goal with
  | |- context [eval_groups ?x1 ?x2 ?x3 ?x4 ?x5 ?x6 ?x7] =>
      pose proof (eval_groups_store x1 x2 x3 x4 x5 x6 x7
                    (mkState st2 (level1_calls s1))) as Hev;
      destruct (eval_groups x1 x2 x3 x4 x5 x6 x7
                  (mkState st2 (level1_calls s1)))
        as [[B1|e] s3] eqn:Eev
  end; cbn [snd store] in Hev.
  2:{ rewrite (bind_Raise _ _ _ _ _ Eev). exact Hev. }
  rewrite (bind_Return _ _ _ _ _ Eev).
  match goal with
  | |- context [lift ?o] => destruct o as [B2|e2]
  end; [|rewrite (bind_Raise (lift _) _ _ _ _ eq_refl); exact Hev].
  rewrite (bind_Return (lift _) _ _ _ _ eq_refl).
  match goal with
  | |- context [lift ?o] => destruct o as [B3|e3]
  end; [|rewrite (bind_Raise (lift _) _ _ _ _ eq_refl); exact Hev].
  rewrite (bind_Return (lift _) _ _ _ _ eq_refl).
  match goal with
  | |- context [lift ?o] => destruct o as [B4|e4]
  end; [|rewrite (bind_Raise (lift _) _ _ _ _ eq_refl); exact Hev].
  rewrite (bind_Return (lift _) _ _ _ _ eq_refl).
  destruct s3 as [st3 log3]. cbn [store] in Hev. subst st3.
  rewrite (bind_Return _ _ _ _ _ (reset_tiled_ok rs st2 log3)).
  reflexivity.
Qed.

End StoreOnAnyOutcome.

Section ErrorsAndEdges.
Context {N : Numerics}.

(** X11: when no object of a call has a path (every path length is at most
    1), the call changes no object, whether it returns or raises. *)
Theorem X11_no_path_no_mutation
    bh sources observers sumup squeeze s sensors s1 :
  make_sensors observers s = (Return sensors, s1) ->
  Forall (fun r => length (_pos (deref (store s1) r)) <= 1)
         (format_obj_input (sources_list sources) ++ sensors) ->
  store (getBH_level2 bh sources observers sumup squeeze s).2 = store s1.
Proof.
  intros Hmk Hpaths.
  destruct (all_same (map (fun r => pa_shape (pos_pix_of (deref (store s1) r)))
                          sensors)) eqn:Hsame.
  2:{ now rewrite (shape_check_raises _ _ _ _ _ _ _ _ Hmk Hsame). }
  destruct (get_good_path_length
              (map (deref (store s1))
                   (format_obj_input (sources_list sources) ++ sensors)))
    as [m|e] eqn:Hgood.
  2:{ now rewrite (path_check_raises _ _ _ _ _ _ _ _ _ Hmk Hsame Hgood). }
  assert (Hm : m <= 1).
  { destruct (get_good_path_length_inv _ _ Hgood) as [_ ->].
    apply max_list_upper. rewrite map_map. apply Forall_map. exact Hpaths. }
  destruct (getBH_level2_store bh sources observers sumup squeeze s sensors
              s1 m Hmk Hsame Hgood (make_sensors_nonempty _ _ _ _ Hmk))
    as (rs & Hrun & Hout).
  assert (E : (1 <? m) = false) by (apply Nat.ltb_ge; lia).
  rewrite E in Hrun, Hout. injection Hrun as <-.
  now destruct (getBH_level2 bh sources observers sumup squeeze s).1.
Qed.

(** X12: when a call with a common path length m > 1 raises after the path
    check (an unrecognized source, an error of numpy), every source and
    sensor of the call is left as the tiling loop made it: an object that
    had a path of length 1 has a path of length m. *)
Theorem X12_error_after_tiling_leaves_paths_tiled
    bh sources observers sumup squeeze s sensors s1 m e :
  make_sensors observers s = (Return sensors, s1) ->
  all_same (map (fun r => pa_shape (pos_pix_of (deref (store s1) r))) sensors)
  = true ->
  let obj_list := format_obj_input (sources_list sources) ++ sensors in
  get_good_path_length (map (deref (store s1)) obj_list) = Return m ->
  1 < m ->
  (getBH_level2 bh sources observers sumup squeeze s).1 = Raise e ->
  let after := store (getBH_level2 bh sources observers sumup squeeze s).2 in
  forall r, r ∈ obj_list ->
    deref after r = tiled m (deref (store s1) r)
    /\ (length (_pos (deref (store s1) r)) = 1 ->
        length (_pos (deref after r)) = m).
Proof.
  intros Hmk Hsame obj_list Hgood Hm Hraise after r Hr. subst after.
  destruct (getBH_level2_store bh sources observers sumup squeeze s sensors
              s1 m Hmk Hsame Hgood (make_sensors_nonempty _ _ _ _ Hmk))
    as (rs & _ & Hout).
  rewrite Hraise in Hout. rewrite Hout.
  assert (E : (1 <? m) = true) by (apply Nat.ltb_lt; lia).
  rewrite E. rewrite deref_update_all by assumption.
  split; [reflexivity|]. intros H1. unfold tiled. rewrite E, H1. simpl.
  rewrite np_tile_rows_length, H1. lia.
Qed.

Lemma rotations_of_no_entry l0 m n kp (sensors : list Obj) unrots statics :
  0 < l0 -> 0 < m ->
  forall i,
  apply_sensor_rotations l0 m n kp i sensors unrots statics [] = Return []
  \/ apply_sensor_rotations l0 m n kp i sensors unrots statics []
     = Raise ValueError.
Proof.
  intros Hl0 Hm. induction sensors as [|sens rest IH]; intros i.
  - now left.
  - cbn [apply_sensor_rotations].
    assert (Hfit : part_fits l0 n kp i [] = false).
    { unfold part_fits. simpl. destruct l0; [lia|reflexivity]. }
    assert (Hrot : forall u st,
              rotate_sensor l0 m n kp i sens u st [] = Return []
              \/ rotate_sensor l0 m n kp i sens u st [] = Raise ValueError).
    { intros u st. unfold rotate_sensor.
      destruct u; [now left|]. cbn [negb]. destruct st.
      - rewrite Hfit. now right.
      - destruct m as [|m']; [lia|]. cbn [seq rotate_steps].
        rewrite Hfit. now right. }
    destruct (Hrot (default false (unrots !! i))
                   (default false (statics !! i))) as [-> | ->].
    + apply IH.
    + now right.
Qed.

Lemma eval_groups_none bh st poso m n (B : Tensor) s :
  eval_groups bh st no_groups poso m n B s = (Return B, s).
Proof. reflexivity. Qed.

(** X14: a Collection without members as the only source makes the call
    raise a ValueError of numpy (the tensor has no entry for it), when the
    sensors have pixels and paths. *)
Theorem X14_empty_collection_alone_fails
    bh observers sumup squeeze s r0 rest s1 m :
  make_sensors observers s = (Return (r0 :: rest), s1) ->
  all_same (map (fun r => pa_shape (pos_pix_of (deref (store s1) r)))
                (r0 :: rest)) = true ->
  get_good_path_length (map (deref (store s1)) (r0 :: rest)) = Return m ->
  0 < m ->
  0 < prod_list (pa_dims (pos_pix_of (deref (store s1) r0))) ->
  (getBH_level2 bh (OneSource (Coll [])) observers sumup squeeze s).1
  = Raise ValueError.
Proof.
  intros Hmk Hsame Hgood Hm Hkp.
  unfold getBH_level2. cbn [format_obj_input flat_map app length].
  rewrite (bind_Return _ _ _ _ _ Hmk).
  rewrite (bind_Return get_store _ s1 (store s1) s1 eq_refl).
  cbv zeta. rewrite Hsame. cbn [negb].
  assert (Hhead : map (fun r => pa_shape (pos_pix_of (deref (store s1) r)))
                    (r0 :: rest)
                  = pa_shape (pos_pix_of (deref (store s1) r0))
                    :: map (fun r => pa_shape (pos_pix_of (deref (store s1) r)))
                         rest) by reflexivity.
  rewrite Hhead.
  rewrite (bind_Return (lift _) _ s1 _ s1 eq_refl).
  rewrite Hgood.
  rewrite (bind_Return (lift _) _ s1 _ s1 eq_refl).
  destruct (tiling_runs m (r0 :: rest) s1) as (rs & Hrun & _).
  rewrite (bind_Return _ _ _ _ _ Hrun).
  set (st2 := if 1 <? m then _ else _).
  rewrite (bind_Return get_store _ (mkState st2 (level1_calls s1)) st2 _ eq_refl).
  cbn [group_sources].
  rewrite (bind_Return (lift _) _ _ _ _ eq_refl).
  rewrite (bind_Return _ _ _ _ _ (eval_groups_none _ _ _ _ _ _ _)).
  cbn [length replicate].
  cbn [Nat.ltb Nat.leb].
  rewrite (bind_Return (lift _) _ _ _ _ eq_refl).
  unfold pa_shape at 1. rewrite removelast_last.
  match goal with
  | |- context [apply_sensor_rotations ?l0 ?a ?b ?c ?d ?sn ?u ?st []] =>
      destruct (rotations_of_no_entry l0 a b c sn u st Nat.lt_0_1 Hm d)
        as [-> | ->]
  end.
  2:{ now rewrite (bind_Raise (lift _) _ _ _ _ eq_refl). }
  rewrite (bind_Return (lift _) _ _ _ _ eq_refl).
  match goal with
  | |- context [np_reshape [] ?sh] =>
      assert (Hre : np_reshape [] sh = Raise ValueError)
  end.
  { assert (Hcons : forall a l, prod_list (a :: l) = a * prod_list l)
      by reflexivity.
    unfold np_reshape, pa_shape. cbn [concat length app].
    match goal with
    | |- context [prod_list ?sh] => assert (Hsh : 0 < prod_list sh)
    end.
    { rewrite !Hcons, prod_list_app, Hcons. change (prod_list []) with 1.
      nia. }
    match goal with
    | |- context [?a =? ?b] => destruct (Nat.eqb_spec a b) as [E|E]
    end; [exfalso; lia|reflexivity]. }
  rewrite Hre. now rewrite (bind_Raise (lift _) _ _ _ _ eq_refl).
Qed.

End ErrorsAndEdges.

Section Stages.
Context {N : Numerics} `{!QuatEq N} `{!UnitRotation N} `{!AddZero N}.

Lemma format_obj_input_Elem (l : list ref) : format_obj_input (map Elem l) = l.
Proof.
  unfold format_obj_input. induction l as [|r l IH]; [reflexivity|].
  cbn [map flat_map app]. now rewrite IH.
Qed.

(** A call whose flattened sources pass the input checks, with the summing
    loop left open: whatever tensor [Btop] of the right shape the loop
    returns is taken into the frames of the sensors and returned. *)
Lemma getBH_level2_stages bh sources observers sumup squeeze s sensors s1 m
    (Btop : Tensor) :
  make_sensors observers s = (Return sensors, s1) ->
  let srcs := sources_list sources in
  let src_list := format_obj_input srcs in
  call_ok (store s1) (map Elem src_list) sensors m ->
  let stT := map (tiled m) (store s1) in
  let sens := map (deref stT) sensors in
  let poso := poso_of sens in
  let kp := k_pixel_of (store s1) sensors in
  let n := length sensors * kp in
  let F := source_field bh stT poso m n in
  (if length srcs <? length src_list
   then sum_collections m n 0 srcs (map F src_list)
   else Return (map F src_list)) = Return Btop ->
  length Btop = length srcs ->
  Forall (slice_shape m n) Btop ->
  getBH_level2 bh sources observers sumup squeeze s
  = (Return (finish sumup squeeze
       (mkArr (full_shape (store s1) srcs sensors m)
              (concat (concat (sensors_frame kp 0 sens Btop))))),
     logged s1 (used_types (store s1) src_list)).
Proof.
  intros Hmk srcs src_list (Hne & Hsame & Hgood & Hpaths & Hrec & _ & Hpix).
  rewrite format_obj_input_Elem in Hgood, Hpaths, Hrec.
  intros stT sens poso kp n F Hsum HlenB HBtop.
  unfold getBH_level2. fold (sources_list sources). fold srcs. fold src_list.
  set (st1 := store s1) in *.
  destruct (get_good_path_length_inv _ _ Hgood) as [Hlens Hmax].
  rewrite Forall_map in Hlens.
  destruct sensors as [|r0 rest]; [congruence|].
  remember (r0 :: rest) as sensors eqn:Esens.
  assert (Hm : 0 < m).
  { assert (Hin : r0 ∈ src_list ++ sensors)
      by (apply elem_of_app; right; subst sensors; left).
    rewrite Forall_forall in Hpaths, Hlens.
    destruct (Hpaths r0 Hin) as [Hpos _].
    destruct (Hlens r0 Hin) as [H1|H1]; [|lia].
    assert (length (_pos (deref st1 r0)) <= m); [|lia].
    rewrite Hmax. apply max_list_elem_of_le.
    apply list_elem_of_fmap. exists (deref st1 r0). split; [reflexivity|].
    apply list_elem_of_fmap. exists r0. auto. }
  set (dims := pa_dims (pos_pix_of (deref st1 r0))).
  assert (Hkp : kp = prod_list dims) by (subst kp dims; now rewrite Esens).
  assert (Hdims : Forall (fun r => pa_dims (pos_pix_of (deref st1 r)) = dims
                    /\ length (pa_data (pos_pix_of (deref st1 r)))
                       = prod_list dims) sensors).
  { subst sensors. simpl in Hsame. apply all_same_head in Hsame.
    rewrite Forall_map in Hsame.
    constructor.
    - split; [reflexivity|]. symmetry. now apply Forall_inv in Hpix.
    - apply Forall_inv_tail in Hpix.
      rewrite Forall_forall in Hsame, Hpix. apply Forall_forall.
      intros r Hr. assert (Hd : pa_dims (pos_pix_of (deref st1 r)) = dims).
      { apply pa_shape_inj. now apply Hsame. }
      split; [exact Hd|]. rewrite <- Hd. symmetry. now apply Hpix. }
  rewrite (bind_Return _ _ _ _ _ Hmk).
  rewrite (bind_Return get_store _ s1 st1 s1 eq_refl).
  cbv zeta. fold st1. rewrite Hsame. cbn [negb].
  assert (Hhead : map (fun r => pa_shape (pos_pix_of (deref st1 r))) sensors
                  = (dims ++ [3])
                    :: map (fun r => pa_shape (pos_pix_of (deref st1 r))) rest)
    by (subst sensors; reflexivity).
  rewrite Hhead.
  rewrite (bind_Return (lift _) _ s1 _ s1 eq_refl).
  rewrite Hgood.
  rewrite (bind_Return (lift _) _ s1 _ s1 eq_refl).
  destruct (tiling_stage m (src_list ++ sensors) s1 Hm)
    as (rs & st2 & Hrun & Hst2 & Hreset).
  { eapply Forall_impl; [exact Hpaths|]. now intros r [_ ?]. }
  rewrite (bind_Return _ _ _ _ _ Hrun).
  rewrite (bind_Return get_store _ (mkState st2 (level1_calls s1)) st2 _ eq_refl).
  assert (Hobj : Forall (fun r => deref st2 r = deref stT r
                    /\ length (_pos (deref stT r)) = m
                    /\ length (_rot (deref stT r)) = m
                    /\ attrs (deref stT r) = attrs (deref st1 r))
                  (src_list ++ sensors)).
  { rewrite Forall_forall in Hpaths, Hlens. apply Forall_forall. intros r Hr.
    subst stT. rewrite deref_map_tiled, (Hst2 r Hr).
    destruct (Hpaths r Hr) as [Hp0 Hrl].
    destruct (tiled_lengths m (deref st1 r) Hm Hp0 Hrl (Hlens r Hr)).
    repeat split; auto. apply tiled_attrs. }
  apply Forall_app in Hobj as [Hobj_src Hobj_sens].
  assert (Esens2 : map (deref st2) sensors = sens).
  { apply map_ext_Forall. eapply Forall_impl; [exact Hobj_sens|].
    now intros r [? _]. }
  rewrite Esens2. fold poso.
  set (k := length sensors) in *.
  assert (Hposo : length poso = m * (k * kp)).
  { subst poso k. rewrite <- (length_map (deref stT) sensors). fold sens.
    rewrite Hkp. apply poso_of_length.
    - subst sens sensors. discriminate.
    - subst sens. apply Forall_map.
      rewrite Forall_forall in Hobj_sens, Hdims. apply Forall_forall.
      intros r Hr. destruct (Hobj_sens r Hr) as (_ & Hp & Hq & Ha).
      destruct (Hdims r Hr) as [_ Hd].
      repeat split; auto. unfold pos_pix_of in *. now rewrite Ha. }
  assert (Hn : length poso / m = n).
  { rewrite Hposo, Nat.mul_comm. apply Nat.div_mul. lia. }
  rewrite Hn.
  assert (Htypes : Forall (fun r => src_type_of (deref st2 r)
                                    = src_type_of (deref st1 r)) src_list).
  { eapply Forall_impl; [exact Hobj_src|]. intros r (E2 & _ & _ & Ha).
    unfold src_type_of. now rewrite E2, Ha. }
  assert (Hrec2 : Forall (recognized st2) src_list).
  { rewrite Forall_forall in Htypes, Hrec. apply Forall_forall. intros r Hr.
    unfold recognized. rewrite (Htypes r Hr). now apply Hrec. }
  destruct (group_sources_ok st2 src_list Hrec2 0 no_groups eq_refl eq_refl)
    as (g & Hg & _).
  rewrite Hg.
  rewrite (bind_Return (lift _) _ _ _ _ eq_refl).
  assert (Hposo' : length poso = m * n) by exact Hposo.
  rewrite (bind_Return _ _ _ _ _
             (eval_groups_ok bh st2 src_list g poso m n _ _ Hrec2
                ltac:(eapply Forall_impl; [exact Hobj_src|];
                      intros r (E2 & Hp & Hq & _); cbn beta; now rewrite E2)
                Hg Hposo' Hm ltac:(apply length_replicate))).
  assert (HB2 : map (source_field bh st2 poso m n) src_list = map F src_list).
  { apply map_ext_Forall. eapply Forall_impl; [exact Hobj_src|].
    intros r (E2 & _). now apply source_field_ext. }
  rewrite HB2.
  assert (Hused : used_types st2 src_list = used_types st1 src_list).
  { unfold used_types. cbn [flat_map].
    now rewrite !(typed_entries_ext st2 st1 _ _ Htypes). }
  rewrite Hused, Hsum.
  rewrite (bind_Return (lift _) _ _ _ _ eq_refl).
  rewrite removelast_last. rewrite <- Hkp.
  rewrite (apply_sensor_rotations_ok (length srcs) m n kp _ _ sens 0 Btop);
    auto.
  2:{ intros p o Hp. subst sens. simpl. rewrite !list_lookup_fmap.
      change (map (deref stT) sensors) with (deref stT <$> sensors) in Hp.
      rewrite list_lookup_fmap in Hp.
      destruct (sensors !! p) as [r|] eqn:Er; [|discriminate].
      injection Hp as <-. simpl.
      assert (Hin : r ∈ src_list ++ sensors).
      { apply elem_of_app. right. eapply list_elem_of_lookup_2. exact Er. }
      rewrite Forall_forall in Hpaths. destruct (Hpaths r Hin) as [_ Hrl].
      subst stT. rewrite deref_map_tiled. split.
      - now apply flags_sound_tiled.
      - rewrite Forall_forall in Hobj_sens.
        destruct (Hobj_sens r (list_elem_of_lookup_2 _ _ _ Er))
          as (_ & _ & Hq & _).
        now rewrite deref_map_tiled in Hq. }
  2:{ subst sens n k. rewrite length_map. simpl. lia. }
  rewrite (bind_Return (lift _) _ _ _ _ eq_refl).
  destruct (sensors_frame_shape kp m n sens 0 Btop HBtop) as [HR1 HR2].
  rewrite (np_reshape_ok (length srcs) m k dims n); auto.
  2:{ now rewrite HR2. }
  2:{ subst n. now rewrite Hkp. }
  rewrite (bind_Return (lift _) _ _ _ _ eq_refl).
  unfold logged. cbn [store level1_calls].
  rewrite (bind_Return _ _ _ _ _ (Hreset _)).
  unfold ret, finish.
  assert (Hfull : full_shape st1 srcs sensors m
                  = [length srcs; m] ++ k :: dims ++ [3])
    by (subst k sensors; reflexivity).
  now rewrite Hfull.
Qed.

End Stages.

Section EmptyFirst.
Context {N : Numerics} `{!QuatEq N} `{!UnitRotation N} `{!AddZero N}
        `{!LinearRotation N}.

Lemma sum_after_empty_collection m n (F : ref -> Slice) b (rest : list ref) :
  2 <= length rest ->
  (if length [Coll []; Coll (b :: rest)] <? length (b :: rest)
   then sum_collections m n 0 [Coll []; Coll (b :: rest)] (map F (b :: rest))
   else Return (map F (b :: rest)))
  = Return [zeros m n; np_sum_slices m n (map F rest)].
Proof.
  intros Hrest. destruct rest as [|c [|d rest]]; simpl in Hrest; try lia.
  unfold np_sum_slices. simpl.
  rewrite firstn_all2 by (rewrite length_map; lia).
  rewrite skipn_all2 by (rewrite length_map; lia).
  reflexivity.
Qed.

(** X15: after a Collection without members the summing loop misplaces the
    rows: for the sources [Collection(), Collection(b, c1, c2, ...)] the
    entry of the second Collection is the one of Collection(c1, c2, ...),
    the field of its first member b is left out; the entry of the empty
    Collection is zero. *)
Theorem X15_empty_collection_first_drops_a_member
    bh b rest observers s sensors s1 m :
  make_sensors observers s = (Return sensors, s1) ->
  call_ok (store s1) [Coll (b :: rest)] sensors m ->
  call_ok (store s1) [Coll rest] sensors m ->
  2 <= length rest ->
  exists both alone tail,
    (getBH_level2 bh (SourceList [Coll []; Coll (b :: rest)]) observers
                  false false s).1 = Return both
    /\ (getBH_level2 bh (OneSource (Coll rest)) observers false false s).1
       = Return alone
    /\ shape both = 2 :: tail
    /\ shape alone = 1 :: tail
    /\ data both = replicate (length (data alone)) vzero ++ data alone.
Proof.
  intros Hmk Hok Hok' Hrest.
  destruct (getBH_level2_ok bh (OneSource (Coll rest)) observers false false s
              sensors s1 m Hmk Hok') as (Hrun' & _ & Hsh' & Hm & Hposo).
  cbn [sources_list] in *.
  set (st1 := store s1) in *.
  set (stT := map (tiled m) st1) in *.
  set (sens := map (deref stT) sensors) in *.
  set (poso := poso_of sens) in *.
  set (kp := k_pixel_of st1 sensors) in *.
  set (n := length sensors * kp) in *.
  assert (Hn : length poso / m = n).
  { rewrite Hposo, Nat.mul_comm. apply Nat.div_mul. lia. }
  set (F := source_field bh stT poso m n).
  assert (Hexp : expected_tensor bh st1 [Coll rest] sensors m
                 = [slice_frames kp 0 sens (np_sum_slices m n (map F rest))]).
  { unfold expected_tensor. fold stT sens poso kp. rewrite Hn.
    now rewrite sensors_frame_map. }
  rewrite Hexp in *. apply Forall_inv in Hsh'.
  (* the call with the empty Collection in front *)
  assert (HokE : call_ok st1 (map Elem (b :: rest)) sensors m).
  { destruct Hok as (Hne & Hsame & Hgood & Hpaths & Hrec & _ & Hpix).
    cbn [format_obj_input flat_map] in Hgood, Hpaths, Hrec.
    rewrite app_nil_r in Hgood, Hpaths, Hrec.
    unfold call_ok. rewrite format_obj_input_Elem. repeat split; auto.
    apply Forall_map, Forall_forall. intros r _. exact I. }
  assert (HF : Forall (fun r => slice_shape m n (F r)) rest).
  { destruct Hok' as (_ & _ & Hgood & Hpaths & _).
    cbn [format_obj_input flat_map] in Hgood, Hpaths.
    rewrite app_nil_r in Hgood, Hpaths.
    destruct (get_good_path_length_inv _ _ Hgood) as [Hlens _].
    rewrite Forall_map in Hlens.
    apply Forall_app in Hpaths as [Hpaths _].
    apply Forall_app in Hlens as [Hlens _].
    rewrite Forall_forall in Hpaths, Hlens. apply Forall_forall. intros r Hr.
    destruct (Hpaths r Hr) as [Hp0 Hrl].
    destruct (tiled_lengths m (deref st1 r) Hm Hp0 Hrl (Hlens r Hr)).
    apply source_field_shape.
    - subst stT. now rewrite deref_map_tiled.
    - subst stT. now rewrite deref_map_tiled.
    - subst n. exact Hposo. }
  assert (Hsum : slice_shape m n (np_sum_slices m n (map F rest))).
  { apply np_sum_slices_shape. now apply Forall_map. }
  pose proof (getBH_level2_stages bh (SourceList [Coll []; Coll (b :: rest)])
                observers false false s sensors s1 m
                [zeros m n; np_sum_slices m n (map F rest)] Hmk) as Hrun.
  cbn [sources_list format_obj_input flat_map app] in Hrun.
  rewrite app_nil_r in Hrun. specialize (Hrun HokE).
  cbv zeta in Hrun. fold st1 stT sens poso kp n F in Hrun.
  rewrite Hrun; clear Hrun.
  2:{ now apply sum_after_empty_collection. }
  2:{ reflexivity. }
  2:{ constructor; [apply zeros_shape|]. constructor; [exact Hsum|constructor]. }
  rewrite Hrun'. unfold finish. cbn [fst].
  eexists _, _, (m :: length sensors ::
                   match sensors with
                   | [] => []
                   | r :: _ => pa_shape (pos_pix_of (deref st1 r))
                   end).
  split; [reflexivity|]. split; [reflexivity|].
  split; [reflexivity|]. split; [reflexivity|].
  cbn [data]. rewrite sensors_frame_map. cbn [map concat].
  rewrite !app_nil_r, concat_app. rewrite slice_frames_zeros, concat_zeros.
  f_equal. f_equal. destruct Hsh' as [H1 H2].
  now rewrite (concat_length_const n _ H2), H1.
Qed.

End EmptyFirst.

Section SkipSum.
Context {N : Numerics} `{!QuatEq N} `{!UnitRotation N} `{!AddZero N}.

(** The world-frame fields of the sources of a call that passes the input
    checks have the shape (m, n, 3). *)
Lemma fields_shape bh (st1 : list Obj) src_list sensors m n poso :
  call_ok st1 (map Elem src_list) sensors m ->
  0 < m -> length poso = m * n ->
  Forall (fun r => slice_shape m n
                     (source_field bh (map (tiled m) st1) poso m n r))
         src_list.
Proof.
  intros (_ & _ & Hgood & Hpaths & _) Hm Hposo.
  rewrite format_obj_input_Elem in Hgood, Hpaths.
  destruct (get_good_path_length_inv _ _ Hgood) as [Hlens _].
  rewrite Forall_map in Hlens.
  apply Forall_app in Hpaths as [Hpaths _].
  apply Forall_app in Hlens as [Hlens _].
  rewrite Forall_forall in Hpaths, Hlens. apply Forall_forall. intros r Hr.
  destruct (Hpaths r Hr) as [Hp0 Hrl].
  destruct (tiled_lengths m (deref st1 r) Hm Hp0 Hrl (Hlens r Hr)).
  apply source_field_shape; auto; now rewrite deref_map_tiled.
Qed.

(** X16: the summing loop runs only when flattening the Collections gives
    more sources than there are entries; when the numbers agree the call
    returns what it returns for the flattened list of sources, one entry
    per flattened source. *)
Theorem X16_summing_skipped_when_counts_agree
    bh srcs observers sumup squeeze s sensors s1 m :
  make_sensors observers s = (Return sensors, s1) ->
  call_ok (store s1) (map Elem (format_obj_input srcs)) sensors m ->
  length (format_obj_input srcs) = length srcs ->
  getBH_level2 bh (SourceList srcs) observers sumup squeeze s
  = getBH_level2 bh (SourceList (map Elem (format_obj_input srcs))) observers
                 sumup squeeze s.
Proof.
  intros Hmk Hok Hlen.
  set (src_list := format_obj_input srcs) in *.
  destruct (getBH_level2_ok bh (SourceList (map Elem src_list)) observers
              sumup squeeze s sensors s1 m Hmk Hok) as (_ & _ & _ & Hm & Hposo).
  set (n := length sensors * k_pixel_of (store s1) sensors) in *.
  pose proof (fields_shape bh (store s1) src_list sensors m n _ Hok Hm Hposo)
    as HF.
  set (F := source_field bh (map (tiled m) (store s1)) _ m n) in HF.
  rewrite (getBH_level2_stages bh (SourceList srcs) observers sumup squeeze s
             sensors s1 m (map F src_list) Hmk Hok).
  2:{ cbn [sources_list]. fold src_list. rewrite Hlen, Nat.ltb_irrefl.
      reflexivity. }
  2:{ cbn [sources_list]. now rewrite length_map. }
  2:{ now apply Forall_map. }
  assert (Hok2 : call_ok (store s1)
                   (map Elem (format_obj_input
                      (sources_list (SourceList (map Elem src_list)))))
                   sensors m).
  { cbn [sources_list]. now rewrite format_obj_input_Elem. }
  rewrite (getBH_level2_stages bh (SourceList (map Elem src_list)) observers
             sumup squeeze s sensors s1 m (map F src_list) Hmk Hok2).
  2:{ cbn [sources_list]. rewrite format_obj_input_Elem, length_map.
      rewrite Nat.ltb_irrefl. reflexivity. }
  2:{ cbn [sources_list]. now rewrite !length_map. }
  2:{ now apply Forall_map. }
  cbn [sources_list]. rewrite format_obj_input_Elem. fold src_list.
  unfold full_shape. now rewrite length_map, Hlen.
Qed.

End SkipSum.

Section RemoveSection.
Context {N : Numerics}.

(** X17: [Collection.remove] raises a ValueError when the source is not a
    member; otherwise it drops the first occurrence of the source and keeps
    the others in their order, and when the members are pairwise different
    the source is no longer a member. *)
Theorem X17_remove_drops_the_first_occurrence (_sources : list ref) (source : ref) :
  (source ∉ _sources -> Collection_remove _sources source = Raise ValueError)
  /\ (source ∈ _sources ->
      exists before after,
        _sources = before ++ source :: after
        /\ (source ∉ before)
        /\ Collection_remove _sources source = Return (before ++ after)
        /\ (NoDup _sources -> source ∉ before ++ after)).
Proof.
  unfold Collection_remove. split.
  - induction _sources as [|y l IH]; intros Hnot; [reflexivity|].
    simpl. apply not_elem_of_cons in Hnot as [Hne Hnot].
    destruct (decide (y = source)); [congruence|]. now rewrite IH.
  - induction _sources as [|y l IH]; intros Hin.
    + now apply elem_of_nil in Hin.
    + simpl. destruct (decide (y = source)) as [->|Hne].
      * exists [], l. repeat split.
        -- apply not_elem_of_nil.
        -- intros Hnd. simpl. now apply NoDup_cons in Hnd as [? _].
      * apply elem_of_cons in Hin as [Hin|Hin]; [congruence|].
        destruct (IH Hin) as (before & after & -> & Hnb & Hrun & Hnd).
        exists (y :: before), after. rewrite Hrun. repeat split.
        -- apply not_elem_of_cons. split; [congruence|exact Hnb].
        -- intros Hnd'. apply NoDup_cons in Hnd' as [_ Hnd'].
           simpl. apply not_elem_of_cons. split; [congruence|auto].
Qed.

End RemoveSection.

Section FieldValue.
Context {N : Numerics} `{!QuatEq N} `{!UnitRotation N} `{!AddZero N}.

Lemma chunks_lookup {A} m n (l : list A) : forall j,
  j < m -> chunks m n l !! j = Some (take n (drop (j * n) l)).
Proof.
  revert l. induction m as [|m IH]; intros l j Hj; [lia|].
  destruct j as [|j]; simpl.
  - reflexivity.
  - rewrite IH by lia. now rewrite drop_drop.
Qed.

Lemma chunks_at {A} m n (l : list A) j c row :
  chunks m n l !! j = Some row -> c < n -> row !! c = l !! (j * n + c).
Proof.
  intros Hrow Hc.
  assert (Hj : j < m).
  { apply lookup_lt_Some in Hrow. now rewrite chunks_length in Hrow. }
  rewrite chunks_lookup in Hrow by exact Hj. injection Hrow as <-.
  rewrite lookup_take_lt by exact Hc. apply lookup_drop.
Qed.

Lemma sensors_tiled_shape (st1 : list Obj) srcs sensors m :
  call_ok st1 srcs sensors m -> 0 < m ->
  Forall (fun sn => length (_pos sn) = m /\ length (_rot sn) = m
                    /\ length (pa_data (pos_pix_of sn))
                       = k_pixel_of st1 sensors)
         (map (deref (map (tiled m) st1)) sensors).
Proof.
  intros (Hne & Hsame & Hgood & Hpaths & _ & _ & Hpix) Hm.
  destruct (get_good_path_length_inv _ _ Hgood) as [Hlens _].
  rewrite Forall_map in Hlens.
  apply Forall_app in Hpaths as [_ Hpaths].
  apply Forall_app in Hlens as [_ Hlens].
  destruct sensors as [|r0 rest]; [congruence|].
  assert (Hdims : Forall (fun r => pa_dims (pos_pix_of (deref st1 r))
                                   = pa_dims (pos_pix_of (deref st1 r0)))
                         (r0 :: rest)).
  { simpl in Hsame. apply all_same_head in Hsame. rewrite Forall_map in Hsame.
    constructor; [reflexivity|]. eapply Forall_impl; [exact Hsame|].
    intros r Hr. now apply pa_shape_inj. }
  apply Forall_map.
  rewrite Forall_forall in Hpaths, Hlens, Hpix, Hdims.
  apply Forall_forall. intros r Hr. cbn beta.
  rewrite deref_map_tiled.
  destruct (Hpaths r Hr) as [Hp0 Hrl].
  destruct (tiled_lengths m (deref st1 r) Hm Hp0 Hrl (Hlens r Hr)) as [H1 H2].
  split; [exact H1|]. split; [exact H2|].
  unfold pos_pix_of. rewrite tiled_attrs. fold (pos_pix_of (deref st1 r)).
  rewrite <- (Hpix r Hr), (Hdims r Hr). reflexivity.
Qed.

End FieldValue.

Section FieldValue2.
Context {N : Numerics} `{!QuatEq N} `{!UnitRotation N} `{!AddZero N}.

(** X18: the value a call returns for one source at path step j, sensor i
    and pixel p: the field [getBH_level1] has for the source at step j at
    the observer position (pixel p turned by the orientation of the sensor
    at step j and shifted by its position at that step), turned by the
    inverse of that orientation. *)
Theorem X18_field_value_at_step_sensor_pixel
    bh r observers s sensors s1 m ty i rs j p P Q PS QS px :
  make_sensors observers s = (Return sensors, s1) ->
  call_ok (store s1) [Elem r] sensors m ->
  let src := tiled m (deref (store s1) r) in
  let sn := tiled m (deref (store s1) rs) in
  let K := length sensors in
  let kp := k_pixel_of (store s1) sensors in
  src_type_of src = Some ty ->
  sensors !! i = Some rs ->
  _pos src !! j = Some P -> _rot src !! j = Some Q ->
  _pos sn !! j = Some PS -> _rot sn !! j = Some QS ->
  pa_data (pos_pix_of sn) !! p = Some px ->
  exists a,
    (getBH_level2 bh (OneSource (Elem r)) observers false false s).1 = Return a
    /\ data a !! (j * (K * kp) + (i * kp + p))
       = Some (rot_apply (rot_inv QS)
                 (level1_row bh ty (excitation src) (dim_of src) P
                    (vadd (rot_apply QS px) PS) Q)).
Proof.
  intros Hmk Hok src sn K kp Hty Hi HP HQ HPS HQS Hpx.
  destruct (getBH_level2_ok bh (OneSource (Elem r)) observers false false s
              sensors s1 m Hmk Hok) as (Hrun & _ & Hsh & Hm & Hposo).
  cbn [sources_list] in *.
  set (st1 := store s1) in *.
  set (stT := map (tiled m) st1) in *.
  set (sens := map (deref stT) sensors) in *.
  set (poso := poso_of sens) in *.
  fold kp in Hsh, Hposo. fold K in Hsh, Hposo.
  set (n := K * kp) in *.
  assert (Hn : length poso / m = n).
  { rewrite Hposo, Nat.mul_comm. apply Nat.div_mul. lia. }
  pose proof (sensors_tiled_shape st1 [Elem r] sensors m Hok Hm) as Hsens.
  fold stT sens kp in Hsens.
  assert (Hsn : sens !! i = Some sn).
  { subst sens sn stT. change (map ?f ?l) with (f <$> l).
    rewrite list_lookup_fmap, Hi. simpl.
    now rewrite <- deref_map_tiled. }
  assert (Hp : p < kp).
  { rewrite Forall_forall in Hsens.
    destruct (Hsens sn (list_elem_of_lookup_2 _ _ _ Hsn)) as (_ & _ & <-).
    eapply lookup_lt_Some. exact Hpx. }
  assert (Hik : i < K) by (eapply lookup_lt_Some; exact Hi).
  assert (Hc : i * kp + p < n) by (subst n; nia).
  (* the observer *)
  pose proof (poso_of_lookup sens m kp Hsens j i p sn QS PS px Hsn HQS HPS Hpx)
    as Hobs.
  fold poso in Hobs. subst sens. rewrite length_map in Hobs.
  set (sens := map (deref stT) sensors) in *. fold K n in Hobs.
  (* the world-frame field of the source *)
  set (sl := source_field bh stT poso m n r).
  assert (Hj : j < m).
  { destruct Hok as (_ & _ & Hgood & Hpaths & _).
    cbn [format_obj_input flat_map app] in Hgood, Hpaths.
    destruct (get_good_path_length_inv _ _ Hgood) as [Hlens _].
    rewrite Forall_map in Hlens.
    apply Forall_inv in Hpaths, Hlens. destruct Hpaths as [Hp0 Hrl].
    destruct (tiled_lengths m (deref st1 r) Hm Hp0 Hrl Hlens) as [H1 _].
    fold src in H1. rewrite <- H1. eapply lookup_lt_Some. exact HP. }
  destruct (lookup_lt_is_Some_2 (chunks m n poso) j) as [rowj Hrowj].
  { now rewrite chunks_length. }
  set (f := fun po => level1_row bh ty (excitation src) (dim_of src) P po Q).
  assert (Hsl : sl !! j = Some (map f rowj)).
  { subst sl. unfold source_field. subst stT. rewrite deref_map_tiled.
    fold src. rewrite Hty. unfold world_field.
    rewrite lookup_zip_with. rewrite lookup_zip_with, HP. simpl.
    rewrite HQ. simpl. now rewrite Hrowj. }
  destruct (slice_frames_at kp sens 0 sl j (map f rowj) Hsl)
    as (row' & Hrow' & Hin & _).
  specialize (Hin i p sn QS Hsn HQS Hp). rewrite Nat.add_0_l in Hin.
  eexists. split; [rewrite Hrun; reflexivity|].
  unfold finish. cbn [data]. unfold expected_tensor.
  fold stT sens poso kp. rewrite Hn, sensors_frame_map.
  cbn [map top_field concat]. rewrite app_nil_r. fold sl.
  unfold expected_tensor in Hsh. fold stT sens poso kp in Hsh.
  rewrite Hn, sensors_frame_map in Hsh. cbn [map top_field] in Hsh.
  fold sl in Hsh. apply Forall_inv in Hsh. destruct Hsh as [_ Hrows].
  rewrite (concat_lookup_const n _ j (i * kp + p) row' Hrows Hrow' Hc).
  rewrite Hin. change (map f rowj) with (f <$> rowj).
  rewrite list_lookup_fmap, (chunks_at m n poso j _ rowj Hrowj Hc), Hobs.
  reflexivity.
Qed.

End FieldValue2.

Section Grouping.
Context {N : Numerics}.

Lemma typed_entries_sorted st ty src_list : forall i,
  Forall (fun j => i <= j) (map fst (typed_entries st ty i src_list))
  /\ StronglySorted lt (map fst (typed_entries st ty i src_list)).
Proof.
  induction src_list as [|r rest IH]; intros i; simpl.
  - split; constructor.
  - destruct (IH (S i)) as [Hge Hsort].
    assert (Hge' : Forall (fun j => i <= j)
                     (map fst (typed_entries st ty (S i) rest))).
    { eapply Forall_impl; [exact Hge|]. intros j Hj. cbn beta in *. lia. }
    destruct (src_type_of (deref st r)) as [ty'|]; [|now split].
    destruct (SrcType_eqb ty' ty); [|now split].
    simpl. split.
    + constructor; [lia|exact Hge'].
    + constructor; [exact Hsort|].
      eapply Forall_impl; [exact Hge|]. intros j Hj. cbn beta in *. lia.
Qed.

(** X19: the grouping loop sorts every source into the group of its class:
    for every class the list [order] holds, in increasing order, exactly the
    indices the sources of that class have in the flattened source list,
    and [src_sorted] holds the sources at those indices, place by place. *)
Theorem X19_groups_partition_the_sources (st : Store) (src_list : list ref) :
  Forall (recognized st) src_list ->
  exists g,
    group_sources st 0 src_list no_groups = Return g
    /\ forall ty,
         let grp := default [] (src_sorted g !! group_index ty) in
         let ord := default [] (order g !! group_index ty) in
         length grp = length ord
         /\ StronglySorted lt ord
         /\ (forall k j, ord !! k = Some j ->
               exists r, src_list !! j = Some r /\ grp !! k = Some r
                         /\ src_type_of (deref st r) = Some ty)
         /\ (forall j r, src_list !! j = Some r ->
               src_type_of (deref st r) = Some ty -> j ∈ ord).
Proof.
  intros Hrec.
  destruct (group_sources_ok st src_list Hrec 0 no_groups eq_refl eq_refl)
    as (g & Hg & _ & _ & Hgroups).
  exists g. split; [exact Hg|]. intros ty grp ord.
  destruct (Hgroups ty) as [Hgrp Hord].
  assert (Hn1 : default [] (src_sorted no_groups !! group_index ty) = [])
    by now destruct ty.
  assert (Hn2 : default [] (order no_groups !! group_index ty) = [])
    by now destruct ty.
  rewrite Hn1 in Hgrp. rewrite Hn2 in Hord. cbn [app] in Hgrp, Hord.
  subst grp ord. rewrite Hgrp, Hord.
  set (E := typed_entries st ty 0 src_list).
  split; [now rewrite !length_map|].
  split; [apply (typed_entries_sorted st ty src_list 0)|].
  split.
  - intros k j Hk.
    change (map fst E) with (fst <$> E) in Hk.
    rewrite list_lookup_fmap in Hk.
    destruct (E !! k) as [[j' r]|] eqn:Ek; [|discriminate].
    simpl in Hk. injection Hk as ->.
    assert (Hin : In (j, r) E).
    { apply list_elem_of_In. eapply list_elem_of_lookup_2. exact Ek. }
    apply typed_entries_spec in Hin as (_ & Hj & Hty).
    rewrite Nat.sub_0_r in Hj.
    exists r. split; [exact Hj|]. split; [|exact Hty].
    change (map snd E) with (snd <$> E). now rewrite list_lookup_fmap, Ek.
  - intros j r Hj Hty.
    assert (Hin : In (j, r) E).
    { apply typed_entries_spec. rewrite Nat.sub_0_r. repeat split; auto. lia. }
    apply list_elem_of_In in Hin.
    apply list_elem_of_fmap. exists (j, r). split; [reflexivity|exact Hin].
Qed.

End Grouping.

Section MemberSums.
Context {N : Numerics} `{!QuatEq N} `{!UnitRotation N} `{!AddZero N}.

(** The sum of slices, value by value. *)
Lemma np_sum_slices_at m n j c : forall (slices : list Slice) (vs : list vec),
  j < m -> c < n ->
  Forall2 (fun sl v => exists row, sl !! j = Some row /\ row !! c = Some v)
          slices vs ->
  exists row,
    np_sum_slices m n slices !! j = Some row
    /\ row !! c = Some (fold_right vadd vzero vs).
Proof.
  intros slices vs Hj Hc Hall.
  induction Hall as [|sl v slices vs (row & Hrow & Hv) _ (rest & Hrest & Hr)].
  - exists (replicate n vzero). simpl. unfold zeros. split.
    + now apply lookup_replicate_2.
    + now apply lookup_replicate_2.
  - exists (zip_with vadd row rest). cbn [np_sum_slices fold_right].
    fold (np_sum_slices m n slices). unfold slice_add.
    rewrite lookup_zip_with, Hrow. simpl. rewrite Hrest. simpl.
    split; [reflexivity|].
    rewrite lookup_zip_with, Hv. simpl. now rewrite Hr.
Qed.

(** The world-frame field of a source, row by row. *)
Lemma source_field_at bh (st : list Obj) poso m n r j rowj :
  src_type_of (deref st r) <> None ->
  length (_pos (deref st r)) = m -> length (_rot (deref st r)) = m ->
  chunks m n poso !! j = Some rowj ->
  source_field bh st poso m n r !! j
  = Some (map (field_at bh (deref st r) j) rowj).
Proof.
  intros Hty Hp Hr Hrow.
  assert (Hj : j < m).
  { apply lookup_lt_Some in Hrow. now rewrite chunks_length in Hrow. }
  destruct (lookup_lt_is_Some_2 (_pos (deref st r)) j) as [P HP]; [lia|].
  destruct (lookup_lt_is_Some_2 (_rot (deref st r)) j) as [Q HQ]; [lia|].
  unfold source_field, field_at.
  destruct (src_type_of (deref st r)) as [ty|]; [|congruence].
  unfold world_field. rewrite lookup_zip_with. rewrite lookup_zip_with, HP.
  simpl. rewrite HQ. simpl. rewrite Hrow. simpl. reflexivity.
Qed.

(** X27: in a call that passes the input checks (every Collection has at
    least one member), the value returned for a Collection at path step j,
    sensor i and pixel p is the sum of the world-frame fields its members
    have at the observer position of that step (pixel p turned by the
    orientation of the sensor at step j and shifted by its position),
    turned once by the inverse of that orientation: the members are summed
    first, the sum is rotated.  With [sumup] or [squeeze] the call returns
    that array summed over the entries or squeezed. *)
Theorem X27_collection_value_is_the_rotated_sum
    bh sources observers s sensors s1 m e ss i rs j p PS QS px :
  make_sensors observers s = (Return sensors, s1) ->
  call_ok (store s1) (sources_list sources) sensors m ->
  sources_list sources !! e = Some (Coll ss) ->
  sensors !! i = Some rs ->
  let sn := tiled m (deref (store s1) rs) in
  let K := length sensors in
  let kp := k_pixel_of (store s1) sensors in
  _pos sn !! j = Some PS -> _rot sn !! j = Some QS ->
  pa_data (pos_pix_of sn) !! p = Some px ->
  let observer := vadd (rot_apply QS px) PS in
  let member := fun r => field_at bh (tiled m (deref (store s1) r)) j observer in
  exists a,
    (getBH_level2 bh sources observers false false s).1 = Return a
    /\ data a !! (e * (m * (K * kp)) + (j * (K * kp) + (i * kp + p)))
       = Some (rot_apply (rot_inv QS) (fold_right vadd vzero (map member ss)))
    /\ forall sumup squeeze,
         (getBH_level2 bh sources observers sumup squeeze s).1
         = Return (finish sumup squeeze a).
Proof.
  intros Hmk Hok He Hi sn K kp HPS HQS Hpx observer member.
  destruct (getBH_level2_ok bh sources observers false false s sensors s1 m
              Hmk Hok) as (Hrun & Hlen & Hsh & Hm & Hposo).
  set (srcs := sources_list sources) in *.
  set (st1 := store s1) in *.
  set (stT := map (tiled m) st1) in *.
  set (sens := map (deref stT) sensors) in *.
  set (poso := poso_of sens) in *.
  fold kp in Hsh, Hposo. fold K in Hsh, Hposo.
  set (n := K * kp) in *.
  assert (Hn : length poso / m = n).
  { rewrite Hposo, Nat.mul_comm. apply Nat.div_mul. lia. }
  pose proof (sensors_tiled_shape st1 srcs sensors m Hok Hm) as Hsens.
  fold stT sens kp in Hsens.
  assert (Hsn : sens !! i = Some sn).
  { subst sens sn stT. change (map ?f ?l) with (f <$> l).
    rewrite list_lookup_fmap, Hi. simpl. now rewrite <- deref_map_tiled. }
  assert (Hp : p < kp).
  { rewrite Forall_forall in Hsens.
    destruct (Hsens sn (list_elem_of_lookup_2 _ _ _ Hsn)) as (_ & _ & Hl).
    rewrite <- Hl. eapply lookup_lt_Some. exact Hpx. }
  assert (Hj : j < m).
  { rewrite Forall_forall in Hsens.
    destruct (Hsens sn (list_elem_of_lookup_2 _ _ _ Hsn)) as (Hl & _ & _).
    rewrite <- Hl. eapply lookup_lt_Some. exact HPS. }
  assert (Hik : i < K) by (eapply lookup_lt_Some; exact Hi).
  assert (Hc : i * kp + p < n) by (subst n; nia).
  (* the observer *)
  pose proof (poso_of_lookup sens m kp Hsens j i p sn QS PS px Hsn HQS HPS Hpx)
    as Hobs.
  fold poso in Hobs. subst sens. rewrite length_map in Hobs.
  set (sens := map (deref stT) sensors) in *. fold K n in Hobs.
  destruct (lookup_lt_is_Some_2 (chunks m n poso) j) as [rowj Hrowj].
  { now rewrite chunks_length. }
  assert (Hrowc : rowj !! (i * kp + p) = Some observer).
  { rewrite (chunks_at m n poso j _ rowj Hrowj Hc). exact Hobs. }
  (* the members *)
  set (F := source_field bh stT poso m n).
  assert (Hmem : Forall2 (fun sl v => exists row, sl !! j = Some row
                                       /\ row !! (i * kp + p) = Some v)
                         (map F ss) (map member ss)).
  { apply Forall2_fmap, Forall_Forall2_diag, Forall_forall. intros r Hr.
    assert (Hin : r ∈ format_obj_input srcs).
    { apply (format_obj_input_elem (Coll ss)).
      - eapply list_elem_of_lookup_2. exact He.
      - unfold format_obj_input. simpl. now rewrite app_nil_r. }
    destruct Hok as (_ & _ & Hgood & Hpaths & Hrec & _).
    destruct (get_good_path_length_inv _ _ Hgood) as [Hlens _].
    rewrite Forall_map in Hlens.
    apply Forall_app in Hpaths as [Hpaths _].
    apply Forall_app in Hlens as [Hlens _].
    rewrite Forall_forall in Hpaths, Hlens. rewrite Forall_forall in Hrec.
    destruct (Hpaths r Hin) as [Hp0 Hrl].
    destruct (tiled_lengths m (deref st1 r) Hm Hp0 Hrl (Hlens r Hin))
      as [H1 H2].
    exists (map (field_at bh (deref stT r) j) rowj). split.
    - subst F. apply source_field_at; auto.
      + subst stT. rewrite deref_map_tiled. unfold src_type_of.
        rewrite tiled_attrs. apply (Hrec r Hin).
      + subst stT. now rewrite deref_map_tiled.
      + subst stT. now rewrite deref_map_tiled.
    - change (map ?f rowj) with (f <$> rowj).
      rewrite list_lookup_fmap, Hrowc. simpl. subst member stT. cbn beta.
      now rewrite deref_map_tiled. }
  destruct (np_sum_slices_at m n j (i * kp + p) _ _ Hj Hc Hmem)
    as (row & Hrow & Hv).
  destruct (slice_frames_at kp sens 0 _ j row Hrow) as (row' & Hrow' & Hin & _).
  specialize (Hin i p sn QS Hsn HQS Hp). rewrite Nat.add_0_l in Hin.
  rewrite Hv in Hin. simpl in Hin.
  (* the place in the array *)
  set (T := expected_tensor bh st1 srcs sensors m) in *.
  assert (HTe : T !! e = Some (slice_frames kp 0 sens
                                 (np_sum_slices m n (map F ss)))).
  { subst T. unfold expected_tensor. fold stT sens poso kp. rewrite Hn.
    rewrite sensors_frame_map. change (map ?f ?l) with (f <$> l).
    rewrite !list_lookup_fmap, He. reflexivity. }
  exists (mkArr (full_shape st1 srcs sensors m) (concat (concat T))).
  split; [now rewrite Hrun|]. split.
  - cbn [data]. rewrite concat_concat_map.
    assert (Hblocks : Forall (fun r => length r = m * n)
                             (map (fun sl => concat sl) T)).
    { apply Forall_map. eapply Forall_impl; [exact Hsh|].
      intros sl [H1 H2]. cbn beta. rewrite (concat_length_const n) by exact H2.
      now rewrite H1. }
    assert (Hjc : j * n + (i * kp + p) < m * n) by nia.
    rewrite (concat_lookup_const (m * n) _ e _ _ Hblocks
               ltac:(change (map ?f ?l) with (f <$> l);
                     rewrite list_lookup_fmap, HTe; reflexivity) Hjc).
    rewrite Forall_forall in Hsh.
    destruct (Hsh _ (list_elem_of_lookup_2 _ _ _ HTe)) as [_ Hrows].
    rewrite (concat_lookup_const n _ j _ row' Hrows Hrow' Hc).
    exact Hin.
  - intros sumup squeeze.
    destruct (getBH_level2_ok bh sources observers sumup squeeze s sensors s1 m
                Hmk Hok) as (Hrun' & _).
    now rewrite Hrun'.
Qed.

End MemberSums.

(** ** The scene once more: layouts, edge cases and the state *)

Module LayoutChecks.
Import ZNum ZNumLaws Scene.

Ltac all_now :=
  repeat (first [ apply Forall_nil | apply Forall_cons; split ]);
  cbv; try tauto; try lia; try discriminate; auto.

Ltac inputs_now :=
  unfold call_ok;
  split; [discriminate|]; split; [reflexivity|]; split; [reflexivity|];
  split; [all_now|]; split; [all_now|]; split; all_now.

(** The two static boxes at two observer positions. *)
Lemma X1_witness :
  let group := [deref objects 0; deref objects 2] in
  let poso := [(1, 0, 1); (0, 1, 0)]%Z in
  exists mag dim pos pos_obs rot,
    scr_dict_homo_mag group poso = Return (HomoMagDict mag dim pos pos_obs rot)
    /\ length mag = length group * (1 * 2)
    /\ length dim = length group * (1 * 2)
    /\ length pos = length group * (1 * 2)
    /\ length pos_obs = length group * (1 * 2)
    /\ length rot = length group * (1 * 2)
    /\ forall i j p src,
         group !! i = Some src -> j < 1 -> p < 2 ->
         let row := i * (1 * 2) + (j * 2 + p) in
         mag !! row = Some (excitation src)
         /\ dim !! row = dim_of src
         /\ pos !! row = _pos src !! j
         /\ pos_obs !! row = poso !! (j * 2 + p)
         /\ rot !! row = _rot src !! j.
Proof.
  intros group poso.
  apply (X1_scr_dict_homo_mag_layout Box group poso 1 2).
  - discriminate.
  - discriminate.
  - all_now.
  - all_now.
  - reflexivity.
  - lia.
Defined.

(** The dipole on its path of two steps at two observer positions a step. *)
Lemma X2_witness :
  let group := [deref objects 1] in
  let poso := [(1, 0, 1); (0, 1, 0); (1, 0, 2); (0, 1, 1)]%Z in
  exists moment pos pos_obs rot,
    scr_dict_dipole group poso = Return (DipoleDict moment pos pos_obs rot)
    /\ length moment = length group * (2 * 2)
    /\ length pos = length group * (2 * 2)
    /\ length pos_obs = length group * (2 * 2)
    /\ length rot = length group * (2 * 2)
    /\ forall i j p src,
         group !! i = Some src -> j < 2 -> p < 2 ->
         let row := i * (2 * 2) + (j * 2 + p) in
         moment !! row = Some (excitation src)
         /\ pos !! row = _pos src !! j
         /\ pos_obs !! row = poso !! (j * 2 + p)
         /\ rot !! row = _rot src !! j.
Proof.
  intros group poso.
  apply (X2_scr_dict_dipole_layout group poso 2 2).
  - discriminate.
  - all_now.
  - reflexivity.
  - lia.
Defined.

(** The static box grouped with the box on a path of three steps, and the
    dipole on its path of two steps at three observer rows. *)
Lemma X3_witness :
  scr_dict_homo_mag [deref objects 0; deref objects 6]
                    [(1, 0, 1); (0, 1, 0)]%Z = Raise ValueError
  /\ scr_dict_dipole [deref objects 1]
                     [(1, 0, 1); (0, 1, 0); (1, 1, 1)]%Z = Raise ValueError.
Proof.
  split.
  - apply (X3_scr_dict_needs_one_path_length Box (deref objects 0)
             [deref objects 6] [(1, 0, 1); (0, 1, 0)]%Z).
    + all_now.
    + cbv. lia.
    + cbv. lia.
    + right. apply Exists_cons_tl, Exists_cons_hd. left. cbv. lia.
  - apply (X3_scr_dict_needs_one_path_length Dipole (deref objects 1)
             [] [(1, 0, 1); (0, 1, 0); (1, 1, 1)]%Z).
    + all_now.
    + cbv. lia.
    + cbv. lia.
    + left. cbv. lia.
Defined.

(** A Sensor and an array of positions in one list. *)
Lemma X4_witness :
  exists sensors s1,
    make_sensors (ObsList [ItemSensor 3; ItemBare pixels]) start
    = (Return sensors, s1)
    /\ length sensors = 2
    /\ level1_calls s1 = level1_calls start
    /\ store s1 = store start ++ [new_Sensor pixels]
    /\ forall i item r,
         [ItemSensor 3; ItemBare pixels] !! i = Some item ->
         sensors !! i = Some r ->
         match item with
         | ItemSensor r0 => r = r0
         | ItemBare a =>
             length (store start) <= r /\ store s1 !! r = Some (new_Sensor a)
         end.
Proof.
  apply (X4_mixed_observers_one_sensor_per_item
           [ItemSensor 3; ItemBare pixels] start).
  reflexivity.
Defined.

(** The static sensor, tiled to two steps, and the sensor that turns. *)
Lemma X5_witness :
  let sensors := [tiled 2 (deref objects 3); deref objects 4] in
  length (poso_of sensors) = 2 * (2 * 2)
  /\ poso_of sensors !! (1 * (2 * 2) + (1 * 2 + 0))
     = Some (vadd (rot_apply qx (1, 0, 1)%Z) (0, 0, 1)%Z).
Proof.
  intros sensors.
  apply (X5_observer_positions_layout sensors 2 2 ltac:(all_now)
           1 1 0 (deref objects 4) qx (0, 0, 1)%Z (1, 0, 1)%Z);
    reflexivity.
Defined.


(** A box and a Collection of a dipole and a box, seen by the two sensors:
    one call for the boxes, one for the dipole. *)
Lemma X6_witness :
  let sources := SourceList [Elem 0; Coll [1; 2]] in
  let observers := ObsList [ItemSensor 3; ItemSensor 4] in
  exists calls,
    level1_calls (getBH_level2 true sources observers false false start).2
    = level1_calls start ++ calls
    /\ calls `sublist_of` [Box; Cylinder; Sphere; Dipole]
    /\ forall ty,
         ty ∈ calls
         <-> exists r, r ∈ format_obj_input (sources_list sources)
                       /\ src_type_of (deref (store start) r) = Some ty.
Proof.
  intros sources observers.
  apply (X6_one_level1_call_per_family true sources observers false false
           start [3; 4] start 2).
  - reflexivity.
  - inputs_now.
Defined.

(** The two sensors and a tensor of one entry. *)
Lemma X7_witness :
  let os := [deref objects 3; deref objects 4] in
  let B : Tensor :=
    [[[(1, 2, 3); (4, 5, 6); (7, 8, 9); (1, 1, 1)];
      [(2, 2, 2); (3, 3, 3); (4, 4, 4); (5, 5, 5)]]]%Z in
  exists R,
    apply_sensor_rotations 1 2 4 2 0 (map (tiled 2) os)
      (map unrotated os) (map static_rot os) B = Return R
    /\ tensor_at R 0 1 (1 * 2 + 0)
       = Some (rot_apply (rot_inv qx) (4, 4, 4)%Z).
Proof.
  intros os B.
  destruct (X7_each_value_rotated_by_its_sensor os 1 2 4 2 B)
    as (R & Hrun & _ & _ & Hin & _).
  - lia.
  - reflexivity.
  - simpl. lia.
  - all_now.
  - all_now.
  - exists R. split; [exact Hrun|].
    apply (Hin 0 1 1 0 (deref objects 4) qx (4, 4, 4)%Z);
      [reflexivity | reflexivity | lia | reflexivity].
Defined.

(** The Collection in the second place of a list. *)
Lemma X8_witness :
  let tops := [Elem 0; Coll [1; 2]] in
  let observers := ObsList [ItemSensor 3; ItemSensor 4] in
  exists all one rest,
    (getBH_level2 true (SourceList tops) observers false false start).1
    = Return all
    /\ (getBH_level2 true (OneSource (Coll [1; 2])) observers false false
                     start).1 = Return one
    /\ shape all = length tops :: rest
    /\ shape one = 1 :: rest
    /\ take (length (data one)) (drop (1 * length (data one)) (data all))
       = data one.
Proof.
  intros tops observers.
  apply (X8_list_entry_is_the_source_alone true tops observers start [3; 4]
           start 2 1 (Coll [1; 2])).
  - reflexivity.
  - inputs_now.
  - reflexivity.
  - reflexivity.
Defined.

(** The Collection of the dipole and the rotated box. *)
Lemma X9_witness :
  let observers := ObsList [ItemSensor 3; ItemSensor 4] in
  getBH_level2 true (SourceList [Elem 1; Elem 2]) observers true true start
  = Collection_getB [1; 2] observers true start
  /\ getBH_level2 false (SourceList [Elem 1; Elem 2]) observers true true start
     = Collection_getH [1; 2] observers true start.
Proof.
  intros observers. split.
  - apply (X9_collection_is_list_summed true [1; 2] observers true start
             [3; 4] start 2); [reflexivity | inputs_now].
  - apply (X9_collection_is_list_summed false [1; 2] observers true start
             [3; 4] start 2); [reflexivity | inputs_now].
Defined.

(** The static box has its single position again after a call with the
    moving dipole. *)
Lemma X10_witness :
  let out := getBH_level2 true (SourceList [Elem 0; Elem 1])
               (ObsList [ItemSensor 3; ItemSensor 4]) false true start in
  store out.2 = store start
  /\ forall r o, store start !! r = Some o -> store out.2 !! r = Some o.
Proof.
  apply (X10_objects_restored_on_return true (SourceList [Elem 0; Elem 1])
           (ObsList [ItemSensor 3; ItemSensor 4]) false true start [3; 4]
           start 2).
  - reflexivity.
  - inputs_now.
Defined.

(** Static objects only, one of them of no source class: the call raises
    and changes nothing. *)
Lemma X11_witness :
  store (getBH_level2 true (SourceList [Elem 0; Elem 5]) (ObsSensor 3)
                      false true start).2 = store start.
Proof.
  apply (X11_no_path_no_mutation true (SourceList [Elem 0; Elem 5])
           (ObsSensor 3) false true start [3] start).
  - reflexivity.
  - all_now.
Defined.

(** A sensor among the sources, seen by the sensor on a path of two steps:
    the call raises and the static box keeps two positions. *)
Lemma X12_witness :
  let after := store (getBH_level2 true (SourceList [Elem 0; Elem 3])
                        (ObsSensor 4) false true start).2 in
  deref after 0 = tiled 2 (deref (store start) 0)
  /\ (length (_pos (deref (store start) 0)) = 1 ->
      length (_pos (deref after 0)) = 2).
Proof.
  apply (X12_error_after_tiling_leaves_paths_tiled true
           (SourceList [Elem 0; Elem 3]) (ObsSensor 4) false true start [4]
           start 2 (MagpylibBadUserInput UnrecognizedObject)).
  - reflexivity.
  - reflexivity.
  - reflexivity.
  - lia.
  - reflexivity.
  - apply elem_of_cons. now left.
Defined.

(** No source and the static sensor of two pixels. *)
Lemma X13_witness :
  let out := getBH_level2 true (SourceList []) (ObsSensor 3) true false start in
  out.1 = Return (mkArr [1; 1; 2; 1; 3] (replicate 2 vzero))
  /\ level1_calls out.2 = level1_calls start.
Proof.
  apply (X13_no_sources_no_field true (ObsSensor 3) true false start 3 []
           start 1).
  - reflexivity.
  - inputs_now.
Defined.

(** An empty Collection seen by the static sensor. *)
Lemma X14_witness :
  (getBH_level2 true (OneSource (Coll [])) (ObsSensor 3) false true start).1
  = Raise ValueError.
Proof.
  apply (X14_empty_collection_alone_fails true (ObsSensor 3) false true start
           3 [] start 1).
  - reflexivity.
  - reflexivity.
  - reflexivity.
  - lia.
  - cbv. lia.
Defined.

(** An empty Collection before the Collection of the two boxes and the
    dipole. *)
Lemma X15_witness :
  let observers := ObsList [ItemSensor 3; ItemSensor 4] in
  exists both alone tail,
    (getBH_level2 true (SourceList [Coll []; Coll [0; 1; 2]]) observers
                  false false start).1 = Return both
    /\ (getBH_level2 true (OneSource (Coll [1; 2])) observers false false
                     start).1 = Return alone
    /\ shape both = 2 :: tail
    /\ shape alone = 1 :: tail
    /\ data both = replicate (length (data alone)) vzero ++ data alone.
Proof.
  intros observers.
  apply (X15_empty_collection_first_drops_a_member true 0 [1; 2] observers
           start [3; 4] start 2).
  - reflexivity.
  - inputs_now.
  - inputs_now.
  - simpl. lia.
Defined.

(** An empty Collection before a Collection of two members: two entries,
    none of them a sum. *)
Lemma X16_witness :
  let observers := ObsList [ItemSensor 3; ItemSensor 4] in
  getBH_level2 true (SourceList [Coll []; Coll [1; 2]]) observers false false
               start
  = getBH_level2 true (SourceList [Elem 1; Elem 2]) observers false false
                 start.
Proof.
  intros observers.
  apply (X16_summing_skipped_when_counts_agree true [Coll []; Coll [1; 2]]
           observers false false start [3; 4] start 2).
  - reflexivity.
  - inputs_now.
  - reflexivity.
Defined.

(** A Collection of three sources: a source that is no member, and the
    second member. *)
Lemma X17_witness :
  Collection_remove [0; 1; 2] 5 = Raise ValueError
  /\ exists before after,
       [0; 1; 2] = before ++ 1 :: after
       /\ (1 ∉ before)
       /\ Collection_remove [0; 1; 2] 1 = Return (before ++ after)
       /\ (NoDup [0; 1; 2] -> 1 ∉ before ++ after).
Proof.
  destruct (X17_remove_drops_the_first_occurrence [0; 1; 2] 5) as [H5 _].
  destruct (X17_remove_drops_the_first_occurrence [0; 1; 2] 1) as [_ H1].
  split.
  - apply H5. intros H.
    repeat (apply elem_of_cons in H as [H|H]; [discriminate|]).
    now apply elem_of_nil in H.
  - apply H1. apply elem_of_cons. right. apply elem_of_cons. now left.
Defined.

(** The dipole at its second step, seen by the first pixel of the sensor
    that turns. *)
Lemma X18_witness :
  let observers := ObsList [ItemSensor 3; ItemSensor 4] in
  exists a,
    (getBH_level2 true (OneSource (Elem 1)) observers false false start).1
    = Return a
    /\ data a !! (1 * (2 * 2) + (1 * 2 + 0))
       = Some (rot_apply (rot_inv qx)
                 (level1_row true Dipole (1, 2, 3)%Z None (2, 2, 2)%Z
                    (vadd (rot_apply qx (1, 0, 1)%Z) (0, 0, 1)%Z) qx)).
Proof.
  intros observers.
  apply (X18_field_value_at_step_sensor_pixel true 1 observers start [3; 4]
           start 2 Dipole 1 4 1 0 (2, 2, 2)%Z qx (0, 0, 1)%Z qx (1, 0, 1)%Z).
  - reflexivity.
  - inputs_now.
  - reflexivity.
  - reflexivity.
  - reflexivity.
  - reflexivity.
  - reflexivity.
  - reflexivity.
  - reflexivity.
Defined.

(** The box, the dipole and the second box, tiled to two steps. *)
Lemma X19_witness :
  let st := map (tiled 2) objects in
  exists g,
    group_sources st 0 [0; 1; 2] no_groups = Return g
    /\ forall ty,
         let grp := default [] (src_sorted g !! group_index ty) in
         let ord := default [] (order g !! group_index ty) in
         length grp = length ord
         /\ StronglySorted lt ord
         /\ (forall k j, ord !! k = Some j ->
               exists r, [0; 1; 2] !! j = Some r /\ grp !! k = Some r
                         /\ src_type_of (deref st r) = Some ty)
         /\ (forall j r, [0; 1; 2] !! j = Some r ->
               src_type_of (deref st r) = Some ty -> j ∈ ord).
Proof.
  intros st.
  apply (X19_groups_partition_the_sources st [0; 1; 2]).
  all_now.
Defined.

(** The Collection of the dipole and the rotated box after a box, at the
    second step, seen by the first pixel of the sensor that turns. *)
Lemma X27_witness :
  let sources := SourceList [Elem 0; Coll [1; 2]] in
  let observers := ObsList [ItemSensor 3; ItemSensor 4] in
  let observer := vadd (rot_apply qx (1, 0, 1)%Z) (0, 0, 1)%Z in
  let member := fun r => field_at true (tiled 2 (deref objects r)) 1 observer in
  exists a,
    (getBH_level2 true sources observers false false start).1 = Return a
    /\ data a !! (1 * (2 * (2 * 2)) + (1 * (2 * 2) + (1 * 2 + 0)))
       = Some (rot_apply (rot_inv qx)
                 (fold_right vadd vzero (map member [1; 2])))
    /\ forall sumup squeeze,
         (getBH_level2 true sources observers sumup squeeze start).1
         = Return (finish sumup squeeze a).
Proof.
  intros sources observers observer member.
  apply (X27_collection_value_is_the_rotated_sum true sources observers start
           [3; 4] start 2 1 [1; 2] 1 4 1 0 (0, 0, 1)%Z qx (1, 0, 1)%Z).
  - reflexivity.
  - inputs_now.
  - reflexivity.
  - reflexivity.
  - reflexivity.
  - reflexivity.
  - reflexivity.
Defined.

End LayoutChecks.

(** ** The display functions *)

Module DisplayFacts.
Import Display.
#[local] Open Scope string_scope.
#[local] Open Scope list_scope.

Section Monad.
Context {E : DisplayEnv}.

Lemma dbind_Ok {A B} (c : DM A) (f : A -> DM B) w a w' :
  c w = (Ok a, w') -> dbind c f w = f a w'.
Proof. intros H. unfold dbind. now rewrite H. Qed.

Lemma dbind_Err {A B} (c : DM A) (f : A -> DM B) w e w' :
  c w = (Err e, w') -> dbind c f w = (Err e, w').
Proof. intros H. unfold dbind. now rewrite H. Qed.

Lemma helper_Ok {A B} (r : Result PyErr A) (f : A -> DM B) w a :
  r = Ok a -> dbind (helper r) f w = f a w.
Proof. intros ->. reflexivity. Qed.

Lemma helper_Err {A B} (r : Result PyErr A) (f : A -> DM B) w e :
  r = Err e -> dbind (helper r) f w = (Err (Helper e), w).
Proof. intros ->. reflexivity. Qed.

End Monad.

Section Contexts.
Context {E : DisplayEnv}.

(** Whatever the guarded code does, [reset] runs after it. *)
Lemma try_finally_reset {A} (c : DM A) w :
  let out := try_finally c reset w in
  out.1 = (c w).1
  /\ out.2 = mkWorld (mkCtx false [] [] ∅ (canvas (ctx (c w).2)))
                     (backends (c w).2) (events (c w).2).
Proof.
  intros out. subst out. unfold try_finally.
  destruct (c w) as [r w']. now cbn.
Qed.

(** X20: [show_context] always leaves the display context reset, whatever
    the block and the helpers do: not running, no objects, no keyword
    arguments.  An exception of [process_show_input_objs] or of the block
    is passed on and [show_context] displays nothing of its own; after a
    block that ends normally [_show] runs once, on the objects and the
    keyword arguments the block left in the context, and its outcome is
    the outcome of [show_context]. *)
Theorem X20_show_context_always_resets objs kw (block : DM unit) w :
  let out := show_context objs kw block w in
  let c := ctx w in
  (isrunning (ctx out.2) = false /\ objects (ctx out.2) = []
   /\ objects_from_ctx (ctx out.2) = [] /\ kwargs (ctx out.2) = ∅)
  /\ match process_show_input_objs objs (rco_of kw) with
     | Err e => out.1 = Err (Helper e) /\ events out.2 = events w
     | Ok (processed, _, _, _, _) =>
         let entered :=
           mkWorld (mkCtx true (objects c) (objects_from_ctx c ++ processed)
                          (update (kwargs c) (not_rco_of kw)) (canvas c))
                   (backends w) (events w) in
         match block entered with
         | (Err e, w2) => out.1 = Err e /\ events out.2 = events w2
         | (Ok _, w2) =>
             let shown := _show (map v_dict (objects (ctx w2)))
                                (kwargs (ctx w2)) w2 in
             out.1 = shown.1 /\ events out.2 = events shown.2
         end
     end.
Proof.
  intros out c. subst out. unfold show_context.
  match goal with
  | |- context [try_finally ?body reset w] =>
      destruct (try_finally_reset body w) as [H1 H2]; rewrite H1, H2;
      cbn [ctx isrunning objects objects_from_ctx kwargs events snd]
  end.
  split; [easy|].
  rewrite (dbind_Ok get_ctx _ w (ctx w) w eq_refl).
  rewrite (dbind_Ok (set_ctx _) _ w tt _ eq_refl).
  destruct (process_show_input_objs objs (rco_of kw))
    as [[[[[processed flat] mr] mc] ss]|e] eqn:Hp.
  2:{ rewrite (helper_Err _ _ _ e eq_refl). now cbn. }
  rewrite (helper_Ok _ _ _ _ eq_refl).
  cbv beta iota zeta.
  rewrite (dbind_Ok get_ctx _ _ _ _ eq_refl).
  rewrite (dbind_Ok (set_ctx _) _ _ tt _ eq_refl).
  cbn [ctx isrunning objects objects_from_ctx kwargs canvas backends events].
  fold c.
  destruct (block _) as [[u|e] w2] eqn:Hb.
  2:{ rewrite (dbind_Err block _ _ e w2 Hb). now cbn. }
  rewrite (dbind_Ok block _ _ u w2 Hb).
  rewrite (dbind_Ok get_ctx _ w2 (ctx w2) w2 eq_refl).
  now cbn.
Qed.

(** X21: once a [show_context] has ended, whether it returned or passed an
    exception on, [show] displays at once: in the state the context
    manager leaves behind, a call of [show] is the call of [_show] and
    collects nothing, also where the context manager stood in the block of
    an outer [show_context], whose context it has reset. *)
Theorem X21_show_after_a_context_displays_at_once
    objs kw (block : DM unit) objs' kw' w :
  let ended := show_context objs kw block w in
  show objs' kw' ended.2 = _show objs' kw' ended.2
  /\ ((do* show_context objs kw block in show objs' kw') w
      = match ended.1 with
        | Ok _ => _show objs' kw' ended.2
        | Err e => (Err e, ended.2)
        end).
Proof.
  intros ended.
  assert (Hrun : isrunning (ctx ended.2) = false).
  { subst ended. unfold show_context.
    match goal with
    | |- context [try_finally ?body reset w] =>
        destruct (try_finally_reset body w) as [_ H2]
    end.
    now rewrite H2. }
  assert (Hshow : show objs' kw' ended.2 = _show objs' kw' ended.2).
  { unfold show.
    rewrite (dbind_Ok get_ctx _ ended.2 (ctx ended.2) ended.2 eq_refl).
    now rewrite Hrun. }
  split; [exact Hshow|].
  unfold dbind at 1. fold ended.
  destruct ended as [[u|e] w1]; [exact Hshow|reflexivity].
Qed.

(** [show] in a running context. *)
Lemma show_running objs kw w :
  isrunning (ctx w) = true ->
  events (show objs kw w).2 = events w
  /\ backends (show objs kw w).2 = backends w
  /\ isrunning (ctx (show objs kw w).2) = true
  /\ objects_from_ctx (ctx (show objs kw w).2) = objects_from_ctx (ctx w)
  /\ canvas (ctx (show objs kw w).2) = canvas (ctx w)
  /\ kwargs (ctx (show objs kw w).2) = update (kwargs (ctx w)) (not_rco_of kw)
  /\ exists added, objects (ctx (show objs kw w).2) = objects (ctx w) ++ added.
Proof.
  intros Hrun. unfold show.
  rewrite (dbind_Ok get_ctx _ w (ctx w) w eq_refl). rewrite Hrun.
  rewrite (dbind_Ok (set_ctx _) _ w tt _ eq_refl).
  rewrite (dbind_Ok get_ctx _ _ _ _ eq_refl).
  cbn [ctx isrunning objects objects_from_ctx kwargs canvas backends events].
  destruct (process_show_input_objs _ _)
    as [[[[[processed flat] mr] mc] ss]|e] eqn:Hp.
  - rewrite (helper_Ok _ _ _ _ eq_refl). cbv beta iota zeta.
    rewrite (dbind_Ok get_ctx _ _ _ _ eq_refl). cbn.
    repeat split. now exists processed.
  - rewrite (helper_Err _ _ _ e eq_refl). cbn. repeat split.
    exists []. now rewrite app_nil_r.
Qed.

(** X22: in a running context any number of [show] calls displays nothing:
    no warning, no call of [get_frames] or of a backend.  The context
    stays running, its [objects_from_ctx], its canvas and the registry
    are unchanged, [ctx.objects] only grows, and [ctx.kwargs] is updated
    with the keyword arguments outside [RCO_NAMES] of the calls made, in
    their order (all of them if no call raised). *)
Theorem X22_shows_in_a_context_display_nothing
    (calls : list (list Value * Dict)) w :
  isrunning (ctx w) = true ->
  let out := shows calls w in
  events out.2 = events w /\ backends out.2 = backends w
  /\ isrunning (ctx out.2) = true
  /\ objects_from_ctx (ctx out.2) = objects_from_ctx (ctx w)
  /\ canvas (ctx out.2) = canvas (ctx w)
  /\ (exists added, objects (ctx out.2) = objects (ctx w) ++ added)
  /\ exists n,
       n <= length calls
       /\ (out.1 = Ok tt -> n = length calls)
       /\ kwargs (ctx out.2)
          = foldl (fun d call => update d (not_rco_of call.2))
                  (kwargs (ctx w)) (take n calls).
Proof.
  revert w. induction calls as [|[objs kw] rest IH]; intros w Hrun out.
  - subst out. cbn. repeat split; [exact Hrun| |].
    + exists []. now rewrite app_nil_r.
    + exists 0. now cbn.
  - subst out. cbn [shows].
    pose proof (show_running objs kw w Hrun) as HS.
    destruct (show objs kw w) as [[u|e] w1] eqn:Hs; cbn [snd] in HS;
      destruct HS as (H1 & H2 & H3 & H4 & H5 & H7 & (a1 & H6)).
    + rewrite (dbind_Ok _ _ _ _ _ Hs).
      specialize (IH w1 H3). cbv zeta in IH.
      destruct IH as (I1 & I2 & I3 & I4 & I5 & (a2 & I6) & (n & N1 & N2 & N3)).
      rewrite I1, I2, I3, I4, I5, I6, H1, H2, H4, H5, H6.
      repeat split.
      * exists (a1 ++ a2). now rewrite app_assoc.
      * exists (S n). cbn [length take foldl snd]. split; [lia|].
        split; [intros Hok; now rewrite (N2 Hok)|].
        now rewrite N3, H7.
    + rewrite (dbind_Err _ _ _ _ _ Hs). cbn [snd fst].
      repeat split; auto.
      * now exists a1.
      * exists 1. cbn [length take foldl snd]. split; [lia|].
        split; [discriminate|]. now rewrite take_0.
Qed.

End Contexts.

Section Backends.
Context {E : DisplayEnv}.

Lemma update_cons (kw : Dict) k v ps :
  update kw (list_to_map ((k, v) :: ps)) = <[k := v]> (update kw (list_to_map ps)).
Proof. unfold update. cbn. now rewrite insert_union_l. Qed.

Lemma update_nil (kw : Dict) : update kw (list_to_map []) = kw.
Proof. unfold update. cbn. apply (left_id ∅ (∪)). Qed.

(** The fall-back loop, for any backend object. *)
Lemma fall_back_conditions backend self kw w :
  let a := condition kw [("animation", v_False)]
           && negb (supports_animation self) in
  let kw1 := if a then <["animation" := v_False]> kw else kw in
  let s := condition kw1 [("row", v_None); ("col", v_None)]
           && negb (supports_subplots self) in
  let kw2 := if s then <["row" := v_None]> (<["col" := v_None]> kw1) else kw1 in
  fall_back backend self conditions kw w =
    (Ok kw2,
     mkWorld (ctx w) (backends w)
       (events w ++ (if a then [Warned backend Animation] else [])
                 ++ (if s then [Warned backend Subplots] else []))).
Proof.
  intros a kw1 s kw2. unfold conditions. cbn [fall_back supports].
  fold a. subst kw2 s kw1.
  destruct a.
  - rewrite (dbind_Ok (emit _) _ w tt _ eq_refl).
    rewrite update_cons, update_nil.
    destruct (_ && _).
    + rewrite (dbind_Ok (emit _) _ _ tt _ eq_refl).
      rewrite !update_cons, update_nil. cbn. now rewrite <- app_assoc.
    + cbn. reflexivity.
  - destruct (_ && _).
    + rewrite (dbind_Ok (emit _) _ _ tt _ eq_refl).
      rewrite !update_cons, update_nil. cbn. reflexivity.
    + cbn. rewrite app_nil_r. now destruct w.
Qed.

Lemma condition_animation (kw : Dict) :
  condition kw [("animation", v_False)]
  = negb (py_eq (default v_False (kw !! "animation")) v_False).
Proof. unfold condition. cbn. now rewrite andb_true_r. Qed.

Lemma condition_subplots (kw : Dict) :
  condition kw [("row", v_None); ("col", v_None)]
  = negb (py_eq (default v_None (kw !! "row")) v_None
          && py_eq (default v_None (kw !! "col")) v_None).
Proof. unfold condition. cbn. now rewrite andb_true_r. Qed.

(** X23: the loop over [conditions] of [RegisterBackend.show], for any
    backend object, where [False == False] and [None == None] hold: it
    returns, and in the keyword arguments it leaves no feature the backend
    lacks is asked for any more.  It warns about a feature exactly when
    the feature was asked for and the backend lacks it, changes no key but
    [animation], [row] and [col], and changes nothing if it did not
    warn. *)
Theorem X23_fallback_leaves_only_supported_features backend self kw w :
  py_eq v_False v_False = true ->
  py_eq v_None v_None = true ->
  exists kw' warned,
    fall_back backend self conditions kw w
      = (Ok kw', mkWorld (ctx w) (backends w) (events w ++ warned))
    /\ (forall feature params,
          (feature, params) ∈ conditions ->
          supports self feature = false -> condition kw' params = false)
    /\ (forall feature params,
          (feature, params) ∈ conditions ->
          (Warned backend feature ∈ warned
           <-> condition kw params = true /\ supports self feature = false))
    /\ (forall k, k ∉ ["animation"; "row"; "col"] -> kw' !! k = kw !! k)
    /\ (warned = [] -> kw' = kw).
Proof.
  intros HF HN. rewrite fall_back_conditions.
  rewrite !condition_animation.
  set (a := negb _ && negb (supports_animation self)).
  set (kw1 := if a then _ else kw).
  assert (Hrc : forall k, k <> "animation" -> kw1 !! k = kw !! k).
  { intros k Hk. subst kw1. destruct a; [now rewrite lookup_insert_ne|easy]. }
  rewrite !condition_subplots.
  rewrite (Hrc "row"), (Hrc "col") by discriminate.
  set (s := negb _ && negb (supports_subplots self)).
  set (kw2 := if s then _ else kw1).
  exists kw2, ((if a then [Warned backend Animation] else [])
               ++ (if s then [Warned backend Subplots] else [])).
  split; [reflexivity|].
  assert (Han : kw2 !! "animation" = kw1 !! "animation").
  { subst kw2. destruct s; [|easy]. now rewrite !lookup_insert_ne. }
  split; [|split; [|split]].
  - intros feature params Hin Hsup. unfold conditions in Hin.
    rewrite !elem_of_cons in Hin.
    destruct Hin as [Hin|[Hin|Hin]]; [| |now apply elem_of_nil in Hin];
      injection Hin as -> ->; cbn [supports] in Hsup.
    + rewrite condition_animation, Han. subst kw1.
      destruct a eqn:Ha.
      * rewrite lookup_insert_eq. cbn. now rewrite HF.
      * subst a. rewrite Hsup, andb_true_r in Ha. exact Ha.
    + rewrite condition_subplots. subst kw2.
      destruct s eqn:Hs.
      * rewrite lookup_insert_eq, lookup_insert_ne, lookup_insert_eq
          by discriminate.
        cbn. now rewrite HN.
      * subst s. rewrite Hsup, andb_true_r in Hs.
        rewrite (Hrc "row"), (Hrc "col") by discriminate. exact Hs.
  - intros feature params Hin. unfold conditions in Hin.
    rewrite !elem_of_cons in Hin.
    destruct Hin as [Hin|[Hin|Hin]]; [| |now apply elem_of_nil in Hin];
      injection Hin as -> ->; cbn [supports].
    + rewrite condition_animation. rewrite elem_of_app.
      subst a. destruct (negb (py_eq _ v_False)), (supports_animation self);
        cbn; destruct s; cbn; rewrite ?elem_of_cons, ?elem_of_nil;
        intuition congruence.
    + rewrite condition_subplots. rewrite elem_of_app.
      subst s. destruct (negb (_ && _)), (supports_subplots self);
        cbn; destruct a; cbn; rewrite ?elem_of_cons, ?elem_of_nil;
        intuition congruence.
  - intros k Hk. rewrite !elem_of_cons, elem_of_nil in Hk.
    assert (k <> "animation" /\ k <> "row" /\ k <> "col") as (K1 & K2 & K3)
      by tauto.
    subst kw2. destruct s.
    + rewrite !lookup_insert_ne by congruence. now apply Hrc.
    + now apply Hrc.
  - intros Hw. subst kw2 kw1. destruct a; [discriminate|].
    destruct s; [discriminate|]. reflexivity.
Qed.

(** [RegisterBackend.show] once the backend object is found. *)
Lemma RegisterBackend_show_found objs backend zoom mr mc ss kw w self :
  kw !! "cls" = None ->
  backends w !! backend = Some self ->
  let a := condition kw [("animation", v_False)]
           && negb (supports_animation self) in
  let kw1 := if a then <["animation" := v_False]> kw else kw in
  let s := condition kw1 [("row", v_None); ("col", v_None)]
           && negb (supports_subplots self) in
  let kw2 := if s then <["row" := v_None]> (<["col" := v_None]> kw1) else kw1 in
  let warned := (if a then [Warned backend Animation] else [])
                ++ (if s then [Warned backend Subplots] else []) in
  let asked := FramesRequested backend objs (supports_colorgradient self) kw2 in
  let called := DisplayCalled (show_func self) zoom mr mc ss
                              (delete "animation" kw2) in
  RegisterBackend_show objs backend zoom mr mc ss kw w =
    if bool_decide (is_Some (kw2 !! "supports_colorgradient")) then
      (Err TypeError, mkWorld (ctx w) (backends w) (events w ++ warned))
    else
      match get_frames objs (supports_colorgradient self) backend kw2 with
      | Err e => (Err (Helper e),
                  mkWorld (ctx w) (backends w) (events w ++ warned ++ [asked]))
      | Ok data =>
          (match get_show_func (show_func self) data zoom mr mc ss
                               (delete "animation" kw2) with
           | Ok _ => Ok tt
           | Err e => Err (Helper e)
           end,
           mkWorld (ctx w) (backends w)
                   (events w ++ warned ++ [asked; called]))
      end.
Proof.
  intros Hcls Hself a kw1 s kw2 warned asked called.
  unfold RegisterBackend_show.
  rewrite bool_decide_eq_false_2 by (rewrite Hcls; now intros [? ?]).
  rewrite Hself.
  rewrite (dbind_Ok _ _ w _ _ (fall_back_conditions backend self kw w)).
  fold a kw1 s kw2 warned.
  destruct (bool_decide _); [reflexivity|].
  rewrite (dbind_Ok (emit _) _ _ tt _ eq_refl).
  cbn [ctx backends events]. fold asked.
  destruct (get_frames _ _ _ _) as [data|e] eqn:Hg.
  2:{ rewrite (helper_Err _ _ _ e eq_refl). now rewrite <- app_assoc. }
  rewrite (helper_Ok _ _ _ data eq_refl).
  rewrite (dbind_Ok (emit _) _ _ tt _ eq_refl).
  cbn [ctx backends events]. fold called.
  rewrite <- !app_assoc. cbn [app].
  destruct (get_show_func _ _ _ _ _ _ _) as [v|e] eqn:Hd.
  - rewrite (helper_Ok _ _ _ v eq_refl). reflexivity.
  - rewrite (helper_Err _ _ _ e eq_refl). reflexivity.
Qed.

(** X24: with the three backends the module registers, and keyword
    arguments without [cls] and [supports_colorgradient],
    [RegisterBackend.show] never warns and never changes the keyword
    arguments: for matplotlib, plotly and pyvista it calls [get_frames]
    with them (colour gradients for all but matplotlib) and then the
    display function of that backend with [animation] taken out; any other
    backend name raises a KeyError and nothing else happens. *)
Theorem X24_registered_backends_never_fall_back
    objs backend zoom mr mc ss kw w :
  backends w = registered ->
  kw !! "cls" = None ->
  kw !! "supports_colorgradient" = None ->
  let out := RegisterBackend_show objs backend zoom mr mc ss kw w in
  let colorgradient := negb (String.eqb backend "matplotlib") in
  let asked := FramesRequested backend objs colorgradient kw in
  let called := DisplayCalled backend zoom mr mc ss (delete "animation" kw) in
  if bool_decide (backend ∈ ["matplotlib"; "plotly"; "pyvista"]) then
    match get_frames objs colorgradient backend kw with
    | Err e =>
        out = (Err (Helper e),
               mkWorld (ctx w) (backends w) (events w ++ [asked]))
    | Ok data =>
        out = (match get_show_func backend data zoom mr mc ss
                                   (delete "animation" kw) with
               | Ok _ => Ok tt
               | Err e => Err (Helper e)
               end,
               mkWorld (ctx w) (backends w) (events w ++ [asked; called]))
    end
  else out = (Err (KeyError backend), w).
Proof.
  intros Hreg Hcls Hcg out colorgradient asked called.
  destruct (bool_decide _) eqn:Hin.
  - apply bool_decide_eq_true_1 in Hin.
    assert (Hself : exists self,
               backends w !! backend = Some self
               /\ supports_animation self = true
               /\ supports_subplots self = true
               /\ show_func self = backend
               /\ supports_colorgradient self = colorgradient).
    { rewrite Hreg. subst colorgradient.
      rewrite !elem_of_cons, elem_of_nil in Hin.
      destruct Hin as [->|[->|[->|[]]]]; eexists; (split; [reflexivity|]);
        repeat split. }
    destruct Hself as (self & Hself & Ha & Hs & Hf & Hc).
    subst out.
    rewrite (RegisterBackend_show_found _ _ _ _ _ _ _ _ self Hcls Hself).
    rewrite Ha, Hs, !andb_false_r, Hcg, Hf, Hc. cbn [app].
    rewrite bool_decide_eq_false_2 by (now intros [? ?]).
    fold asked called.
    destruct (get_frames _ _ _ _); reflexivity.
  - apply bool_decide_eq_false_1 in Hin.
    rewrite !elem_of_cons, elem_of_nil in Hin.
    subst out. unfold RegisterBackend_show.
    rewrite bool_decide_eq_false_2 by (rewrite Hcls; now intros [? ?]).
    rewrite Hreg. unfold registered.
    rewrite !lookup_insert_ne, lookup_empty by (intros <-; tauto).
    reflexivity.
Qed.

End Backends.

Section Show.
Context {E : DisplayEnv}.

(** The keyword arguments [_show] hands to [RegisterBackend.show]. *)
Lemma _show_cases objs kw0 w :
  let zoom := default (v_int 0) (kw0 !! "zoom") in
  let animation := default v_False (kw0 !! "animation") in
  let markers := default v_None (kw0 !! "markers") in
  let kw := delete "zoom" (delete "animation"
              (delete "markers" (delete "backend" kw0))) in
  (exists e, _show objs kw0 w = (Err (Helper e), w))
  \/ (exists processed flat mr mc ss backend b,
        process_show_input_objs objs (rco_of kw)
          = Ok (processed, flat, mr, mc, ss)
        /\ check_dimensions flat = Ok tt
        /\ check_excitations flat = Ok tt
        /\ test_path_format flat = Ok tt
        /\ check_format_input_backend (default v_None (kw0 !! "backend"))
           = Ok backend
        /\ check_input_zoom zoom = Ok tt
        /\ check_input_animation animation = Ok tt
        /\ check_format_input_vector markers = Ok tt
        /\ py_bool markers = Ok b
        /\ _show objs kw0 w
           = RegisterBackend_show
               (if b then map v_dict processed ++ [v_dict (markers_entry markers)]
                else map v_dict processed)
               backend zoom mr mc ss
               (<["animation" := animation]>
                  (delete "max_rows" (delete "max_cols"
                     (delete "subplot_specs" (not_rco_of kw))))) w).
Proof.
  intros zoom animation markers kw. unfold _show.
  fold zoom animation markers kw.
  destruct (process_show_input_objs objs (rco_of kw))
    as [[[[[processed flat] mr] mc] ss]|e] eqn:H1.
  2:{ left. exists e. now rewrite (helper_Err _ _ _ e eq_refl). }
  rewrite (helper_Ok _ _ _ _ eq_refl). cbv beta iota zeta.
  destruct (check_dimensions flat) as [[]|e] eqn:H2.
  2:{ left. exists e. now rewrite (helper_Err _ _ _ e eq_refl). }
  rewrite (helper_Ok _ _ _ _ eq_refl).
  destruct (check_excitations flat) as [[]|e] eqn:H3.
  2:{ left. exists e. now rewrite (helper_Err _ _ _ e eq_refl). }
  rewrite (helper_Ok _ _ _ _ eq_refl).
  destruct (test_path_format flat) as [[]|e] eqn:H4.
  2:{ left. exists e. now rewrite (helper_Err _ _ _ e eq_refl). }
  rewrite (helper_Ok _ _ _ _ eq_refl).
  destruct (check_format_input_backend _) as [backend|e] eqn:H5.
  2:{ left. exists e. now rewrite (helper_Err _ _ _ e eq_refl). }
  rewrite (helper_Ok _ _ _ _ eq_refl).
  destruct (check_input_zoom zoom) as [[]|e] eqn:H6.
  2:{ left. exists e. now rewrite (helper_Err _ _ _ e eq_refl). }
  rewrite (helper_Ok _ _ _ _ eq_refl).
  destruct (check_input_animation animation) as [[]|e] eqn:H7.
  2:{ left. exists e. now rewrite (helper_Err _ _ _ e eq_refl). }
  rewrite (helper_Ok _ _ _ _ eq_refl).
  destruct (check_format_input_vector markers) as [[]|e] eqn:H8.
  2:{ left. exists e. now rewrite (helper_Err _ _ _ e eq_refl). }
  rewrite (helper_Ok _ _ _ _ eq_refl).
  destruct (py_bool markers) as [b|e] eqn:H9.
  2:{ left. exists e. now rewrite (helper_Err _ _ _ e eq_refl). }
  rewrite (helper_Ok _ _ _ _ eq_refl).
  right. exists processed, flat, mr, mc, ss, backend, b.
  repeat (split; [assumption || reflexivity|]). reflexivity.
Qed.

(** [RegisterBackend.show] touches neither [ctx] nor the registry and only
    adds events. *)
Lemma RegisterBackend_show_frame objs backend zoom mr mc ss kw w :
  let out := RegisterBackend_show objs backend zoom mr mc ss kw w in
  ctx out.2 = ctx w /\ backends out.2 = backends w
  /\ exists new, events out.2 = events w ++ new.
Proof.
  intros out. subst out.
  destruct (kw !! "cls") as [v|] eqn:Hcls.
  { unfold RegisterBackend_show.
    rewrite bool_decide_eq_true_2 by (rewrite Hcls; now eexists).
    cbn. repeat split. exists []. now rewrite app_nil_r. }
  destruct (backends w !! backend) as [self|] eqn:Hself.
  2:{ unfold RegisterBackend_show.
      rewrite bool_decide_eq_false_2 by (rewrite Hcls; now intros [? ?]).
      rewrite Hself. cbn. repeat split. exists []. now rewrite app_nil_r. }
  rewrite (RegisterBackend_show_found _ _ _ _ _ _ _ _ self Hcls Hself).
  destruct (bool_decide _); [cbn; repeat split; eauto|].
  destruct (get_frames _ _ _ _); cbn; repeat split; eauto.
Qed.

Lemma not_rco_of_no_rco_keys (kw : Dict) : no_rco_keys (not_rco_of kw).
Proof.
  intros k Hk. unfold not_rco_of. apply map_lookup_filter_None. right.
  intros v _ Hn. now apply Hn.
Qed.

Lemma no_rco_keys_delete (kw : Dict) k :
  no_rco_keys kw -> no_rco_keys (delete k kw).
Proof.
  intros H k' Hk'. apply lookup_delete_None. right. now apply H.
Qed.

Lemma no_rco_keys_animation (kw : Dict) v :
  no_rco_keys kw -> no_rco_keys (<["animation" := v]> kw).
Proof.
  intros H k Hk. rewrite lookup_insert_ne; [now apply H|].
  intros <-. unfold RCO_NAMES in Hk.
  rewrite !elem_of_cons, elem_of_nil in Hk.
  destruct Hk as [Hk|[Hk|[Hk|[Hk|[Hk|[]]]]]]; discriminate.
Qed.

(** What [RegisterBackend.show] does with keyword arguments free of the
    keys of [RCO_NAMES]. *)
Lemma RegisterBackend_show_no_rco objs backend zoom mr mc ss kw w :
  py_eq v_None v_None = true ->
  no_rco_keys kw ->
  let out := RegisterBackend_show objs backend zoom mr mc ss kw w in
  exists new,
    events out.2 = events w ++ new
    /\ forall e, e ∈ new ->
         match e with
         | Warned _ feature => feature = Animation
         | FramesRequested _ _ _ kw' => no_rco_keys kw'
         | DisplayCalled _ _ _ _ _ kw' =>
             no_rco_keys kw' /\ kw' !! "animation" = None
         end.
Proof.
  intros HN Hkw out. subst out.
  destruct (kw !! "cls") as [v|] eqn:Hcls.
  { unfold RegisterBackend_show.
    rewrite bool_decide_eq_true_2 by (rewrite Hcls; now eexists).
    exists []. cbn. rewrite app_nil_r. split; [easy|].
    intros e He. now apply elem_of_nil in He. }
  destruct (backends w !! backend) as [self|] eqn:Hself.
  2:{ unfold RegisterBackend_show.
      rewrite bool_decide_eq_false_2 by (rewrite Hcls; now intros [? ?]).
      rewrite Hself. exists []. cbn. rewrite app_nil_r. split; [easy|].
      intros e He. now apply elem_of_nil in He. }
  rewrite (RegisterBackend_show_found _ _ _ _ _ _ _ _ self Hcls Hself).
  set (a := condition kw _ && _).
  set (kw1 := if a then _ else kw).
  assert (H1 : no_rco_keys kw1).
  { subst kw1. destruct a; [now apply no_rco_keys_animation|easy]. }
  rewrite condition_subplots.
  rewrite (H1 "row"), (H1 "col")
    by (unfold RCO_NAMES; rewrite !elem_of_cons; auto).
  cbn [default]. rewrite HN. cbn [andb negb app].
  rewrite app_nil_r.
  set (warned := if a then _ else []).
  assert (Hw : forall e, e ∈ warned ->
               match e with
               | Warned _ feature => feature = Animation
               | FramesRequested _ _ _ kw' => no_rco_keys kw'
               | DisplayCalled _ _ _ _ _ kw' =>
                   no_rco_keys kw' /\ kw' !! "animation" = None
               end).
  { intros e He. subst warned. destruct a.
    - rewrite elem_of_cons, elem_of_nil in He. now destruct He as [->|[]].
    - now apply elem_of_nil in He. }
  destruct (bool_decide _).
  { exists warned. split; [reflexivity|exact Hw]. }
  destruct (get_frames _ _ _ _) as [data|e0].
  - eexists. split; [reflexivity|].
    intros e He. rewrite elem_of_app, !elem_of_cons, elem_of_nil in He.
    destruct He as [He|[->|[->|[]]]]; [now apply Hw|exact H1|].
    split; [now apply no_rco_keys_delete|apply lookup_delete_eq].
  - eexists. split; [reflexivity|].
    intros e He. rewrite elem_of_app, !elem_of_cons, elem_of_nil in He.
    destruct He as [He|[->|[]]]; [now apply Hw|exact H1].
Qed.

(** X25: [_show] changes neither the display context nor the registry,
    and, where [None == None] holds, no key of [RCO_NAMES] reaches
    [get_frames] or a display function; the display function gets no
    [animation] either, and the only warning there can be is the one
    about animation. *)
Theorem X25_show_keeps_rco_keys_from_the_backend objs kw0 w :
  py_eq v_None v_None = true ->
  let out := _show objs kw0 w in
  ctx out.2 = ctx w /\ backends out.2 = backends w
  /\ exists new,
       events out.2 = events w ++ new
       /\ forall e, e ∈ new ->
            match e with
            | Warned _ feature => feature = Animation
            | FramesRequested _ _ _ kw => no_rco_keys kw
            | DisplayCalled _ _ _ _ _ kw =>
                no_rco_keys kw /\ kw !! "animation" = None
            end.
Proof.
  intros HN out. subst out.
  destruct (_show_cases objs kw0 w)
    as [(e & ->)|(processed & flat & mr & mc & ss & backend & b & _ & _ & _
                  & _ & _ & _ & _ & _ & _ & ->)].
  - cbn. repeat split. exists []. rewrite app_nil_r. split; [easy|].
    intros e' He. now apply elem_of_nil in He.
  - match goal with
    | |- context [RegisterBackend_show ?o ?bk ?z ?r ?c ?sp ?k w] =>
        pose proof (RegisterBackend_show_frame o bk z r c sp k w) as Hf;
        pose proof (RegisterBackend_show_no_rco o bk z r c sp k w HN) as Hk
    end.
    cbv zeta in Hf, Hk. destruct Hf as (Hc & Hb & _).
    split; [exact Hc|]. split; [exact Hb|].
    apply Hk. apply no_rco_keys_animation.
    do 3 apply no_rco_keys_delete. apply not_rco_of_no_rco_keys.
Qed.

(** X26: [_show] draws nothing before the checks have passed: if it returns
    normally, or if there was a warning or a call of [get_frames] or of a
    backend, then [process_show_input_objs], the three checks of the
    objects, the checks of backend, zoom, animation and markers and the
    truth test of the markers have all returned. *)
Theorem X26_nothing_is_drawn_before_the_checks_pass objs kw0 w :
  let out := _show objs kw0 w in
  let zoom := default (v_int 0) (kw0 !! "zoom") in
  let animation := default v_False (kw0 !! "animation") in
  let markers := default v_None (kw0 !! "markers") in
  let kw := delete "zoom" (delete "animation"
              (delete "markers" (delete "backend" kw0))) in
  out.1 = Ok tt \/ events out.2 <> events w ->
  exists processed flat mr mc ss backend b,
    process_show_input_objs objs (rco_of kw) = Ok (processed, flat, mr, mc, ss)
    /\ check_dimensions flat = Ok tt
    /\ check_excitations flat = Ok tt
    /\ test_path_format flat = Ok tt
    /\ check_format_input_backend (default v_None (kw0 !! "backend"))
       = Ok backend
    /\ check_input_zoom zoom = Ok tt
    /\ check_input_animation animation = Ok tt
    /\ check_format_input_vector markers = Ok tt
    /\ py_bool markers = Ok b.
Proof.
  intros out zoom animation markers kw Hout. subst out.
  destruct (_show_cases objs kw0 w)
    as [(e & He)|(processed & flat & mr & mc & ss & backend & b & H1 & H2 & H3
                  & H4 & H5 & H6 & H7 & H8 & H9 & _)].
  - rewrite He in Hout. cbn in Hout. destruct Hout; [discriminate|easy].
  - exists processed, flat, mr, mc, ss, backend, b. auto 10.
Qed.

End Show.

End DisplayFacts.

(** ** The display functions in a small world *)

Module DisplayChecks.
Import Display DisplayFacts.
#[local] Open Scope string_scope.
#[local] Open Scope list_scope.
#[local] Existing Instance zenv.

(** Two calls of [show] in the block: the second changes the zoom again. *)
Lemma X22_witness :
  let calls := [([5%Z], {["col" := 1%Z]} ∪ {["zoom" := 2%Z]});
                ([], {["zoom" := 3%Z]})] in
  let out := shows calls running in
  isrunning (ctx running) = true
  /\ events out.2 = events running /\ backends out.2 = backends running
  /\ isrunning (ctx out.2) = true
  /\ objects_from_ctx (ctx out.2) = objects_from_ctx (ctx running)
  /\ canvas (ctx out.2) = canvas (ctx running)
  /\ (exists added, objects (ctx out.2) = objects (ctx running) ++ added)
  /\ exists n,
       n <= length calls
       /\ (out.1 = Ok tt -> n = length calls)
       /\ kwargs (ctx out.2)
          = foldl (fun d call => update d (not_rco_of call.2))
                  (kwargs (ctx running)) (take n calls).
Proof.
  intros calls out. split; [reflexivity|].
  apply (X22_shows_in_a_context_display_nothing (E := zenv) calls running).
  reflexivity.
Defined.

(** A backend without animation, asked for one. *)
Lemma X23_witness :
  let self := mkBackend "mine" "mine" false true true in
  let kw : Dict := {["animation" := 1%Z]} in
  py_eq v_False v_False = true
  /\ py_eq v_None v_None = true
  /\ exists kw' warned,
       fall_back "mine" self conditions kw imported
         = (Ok kw', mkWorld (ctx imported) (backends imported)
                            (events imported ++ warned))
       /\ (forall feature params,
             (feature, params) ∈ conditions ->
             supports self feature = false -> condition kw' params = false)
       /\ (forall feature params,
             (feature, params) ∈ conditions ->
             (Warned "mine" feature ∈ warned
              <-> condition kw params = true /\ supports self feature = false))
       /\ (forall k, k ∉ ["animation"; "row"; "col"] -> kw' !! k = kw !! k)
       /\ (warned = [] -> kw' = kw).
Proof.
  intros self kw. split; [reflexivity|]. split; [reflexivity|].
  apply (X23_fallback_leaves_only_supported_features (E := zenv) "mine" self kw imported);
    reflexivity.
Defined.

(** The plotly backend, asked for an animation. *)
Lemma X24_witness :
  let kw : Dict := {["animation" := 1%Z]} in
  let out := RegisterBackend_show [5%Z] "plotly" 0%Z 1%Z 1%Z v_None kw
               imported in
  let colorgradient := negb (String.eqb "plotly" "matplotlib") in
  let asked := FramesRequested "plotly" [5%Z] colorgradient kw in
  let called := DisplayCalled "plotly" 0%Z 1%Z 1%Z v_None
                              (delete "animation" kw) in
  backends imported = registered
  /\ kw !! "cls" = None
  /\ kw !! "supports_colorgradient" = None
  /\ if bool_decide ("plotly" ∈ ["matplotlib"; "plotly"; "pyvista"]) then
       match get_frames [5%Z] colorgradient "plotly" kw with
       | Err e =>
           out = (Err (Helper e),
                  mkWorld (ctx imported) (backends imported)
                          (events imported ++ [asked]))
       | Ok data =>
           out = (match get_show_func "plotly" data 0%Z 1%Z 1%Z v_None
                                      (delete "animation" kw) with
                  | Ok _ => Ok tt
                  | Err e => Err (Helper e)
                  end,
                  mkWorld (ctx imported) (backends imported)
                          (events imported ++ [asked; called]))
       end
     else out = (Err (KeyError "plotly"), imported).
Proof.
  intros kw out colorgradient asked called.
  split; [reflexivity|]. split; [reflexivity|]. split; [reflexivity|].
  apply (X24_registered_backends_never_fall_back (E := zenv) [5%Z] "plotly" 0%Z 1%Z 1%Z
           v_None kw imported); reflexivity.
Defined.

(** A call with a row, a zoom and an animation. *)
Lemma X25_witness :
  let kw0 : Dict :=
    {["row" := 2%Z]} ∪ {["zoom" := 1%Z]} ∪ {["animation" := 1%Z]} in
  let out := _show [5%Z] kw0 imported in
  py_eq v_None v_None = true
  /\ ctx out.2 = ctx imported /\ backends out.2 = backends imported
  /\ exists new,
       events out.2 = events imported ++ new
       /\ forall e, e ∈ new ->
            match e with
            | Warned _ feature => feature = Animation
            | FramesRequested _ _ _ kw => no_rco_keys kw
            | DisplayCalled _ _ _ _ _ kw =>
                no_rco_keys kw /\ kw !! "animation" = None
            end.
Proof.
  intros kw0 out. split; [reflexivity|].
  apply (X25_show_keeps_rco_keys_from_the_backend (E := zenv) [5%Z] kw0 imported).
  reflexivity.
Defined.

(** A call that returns. *)
Lemma X26_witness :
  let kw0 : Dict := {["row" := 2%Z]} ∪ {["zoom" := 1%Z]} in
  let out := _show [5%Z] kw0 imported in
  let zoom := default (v_int 0) (kw0 !! "zoom") in
  let animation := default v_False (kw0 !! "animation") in
  let markers := default v_None (kw0 !! "markers") in
  let kw := delete "zoom" (delete "animation"
              (delete "markers" (delete "backend" kw0))) in
  (out.1 = Ok tt \/ events out.2 <> events imported)
  /\ exists processed flat mr mc ss backend b,
       process_show_input_objs [5%Z] (rco_of kw)
         = Ok (processed, flat, mr, mc, ss)
       /\ check_dimensions flat = Ok tt
       /\ check_excitations flat = Ok tt
       /\ test_path_format flat = Ok tt
       /\ check_format_input_backend (default v_None (kw0 !! "backend"))
          = Ok backend
       /\ check_input_zoom zoom = Ok tt
       /\ check_input_animation animation = Ok tt
       /\ check_format_input_vector markers = Ok tt
       /\ py_bool markers = Ok b.
Proof.
  intros kw0 out zoom animation markers kw.
  assert (H : out.1 = Ok tt \/ events out.2 <> events imported)
    by (left; vm_compute; reflexivity).
  split; [exact H|].
  exact (X26_nothing_is_drawn_before_the_checks_pass (E := zenv) [5%Z] kw0 imported H).
Defined.

End DisplayChecks.
